(** * classroom-poller: the day-bucketed and flat snapshot builders and the
      two authorization flows, embedded and checked against their description.

    The JavaScript sources are embedded shallowly.  Strings are sequences of
    UTF-16 code units, instants are integer millisecond time values, a [Date]
    is either such a time value or the invalid date, JavaScript [Map]s are
    association lists in insertion order, and the services of the host
    (the collation behind [localeCompare], the time-zone table behind
    [Intl.DateTimeFormat], the clock, the remote API) are explicit arguments. *)

From Stdlib Require Import ZArith NArith List Bool Lia String Ascii.
From Stdlib Require Import Sorting.Sorted Sorting.Permutation.
From Stdlib Require Import DecimalString.
Import ListNotations.

Local Open Scope Z_scope.

(* ================================================================== *)
(** ** JavaScript strings *)
(* ================================================================== *)

Module JS.

(** A string is its sequence of UTF-16 code units; [length] and [slice]
    count code units, as [String.prototype.length] and [slice] do. *)
Definition CodeUnit := N.
Definition JSString := list CodeUnit.

(** An ASCII literal of the source text. *)
Fixpoint lit (s : string) : JSString :=
  match s with
  | EmptyString => []
  | String a r => N_of_ascii a :: lit r
  end.

Definition unit_eqb (a b : CodeUnit) : bool := N.eqb a b.

Fixpoint str_eqb (s t : JSString) : bool :=
  match s, t with
  | [], [] => true
  | a :: s', b :: t' => unit_eqb a b && str_eqb s' t'
  | _, _ => false
  end.

(** Truthiness of a string-valued property that may be missing:
    [undefined], [null] and the empty string are falsy. *)
Definition truthy (s : option JSString) : bool :=
  match s with
  | Some (_ :: _) => true
  | _ => false
  end.

(** [x || ''] *)
Definition orEmpty (s : option JSString) : JSString :=
  match s with
  | Some t => t
  | None => []
  end.

(** [x || null] *)
Definition orNull (s : option JSString) : option JSString :=
  if truthy s then s else None.

(** [x || dflt] *)
Definition orElse (s : option JSString) (dflt : JSString) : JSString :=
  match s with
  | Some (c :: r) => c :: r
  | _ => dflt
  end.

(** The comparison of the default [Array.prototype.sort()] on strings and of
    the relational operators: code unit by code unit, a proper prefix first. *)
Fixpoint lexCompare (s t : list N) : comparison :=
  match s, t with
  | [], [] => Eq
  | [], _ :: _ => Lt
  | _ :: _, [] => Gt
  | a :: s', b :: t' =>
      match N.compare a b with
      | Eq => lexCompare s' t'
      | c => c
      end
  end.

Definition str_lt (s t : JSString) : Prop := lexCompare s t = Lt.
Definition str_le (s t : JSString) : Prop := lexCompare s t <> Gt.
Definition str_leb (s t : JSString) : bool :=
  match lexCompare s t with Gt => false | _ => true end.

(** [Array.prototype.sort(comparefn)]: the sort is stable, and with a
    consistent comparator its result is the stable sorted arrangement; that
    arrangement is computed here by stable insertion. [comparefn a b <= 0]
    keeps [a] before [b]. *)
Section Sort.
Context {A : Type} (comparefn : A -> A -> Z).

Fixpoint insertSorted (x : A) (l : list A) : list A :=
  match l with
  | [] => [x]
  | y :: r => if comparefn x y <=? 0 then x :: y :: r
              else y :: insertSorted x r
  end.

Fixpoint sort (l : list A) : list A :=
  match l with
  | [] => []
  | x :: r => insertSorted x (sort r)
  end.

(** [a] may stand before [b]. *)
Definition notAfter (a b : A) : Prop := comparefn a b <= 0.
End Sort.

(** The number a comparison stands for. *)
Definition signOf (c : comparison) : Z :=
  match c with Lt => -1 | Eq => 0 | Gt => 1 end.

(** Default sort of an array of strings. *)
Definition sortStrings (l : list JSString) : list JSString :=
  sort (fun a b => signOf (lexCompare a b)) l.

(** [s.replace(/-/g, '.')] and the like: every occurrence of one code unit
    replaced by another. *)
Definition replaceAll (from to : CodeUnit) (s : JSString) : JSString :=
  map (fun c => if unit_eqb c from then to else c) s.

Definition isDigit (c : CodeUnit) : Prop := (48 <= c <= 57)%N.

(** Decimal digits of a natural number, most significant first. *)
Definition decimal (n : N) : JSString :=
  lit (NilZero.string_of_uint (N.to_uint n)).

End JS.

(* ================================================================== *)
(** ** Dates: [Date.UTC], time values and the calendar *)
(* ================================================================== *)

Module Clock.
Import JS.

Definition msPerMinute : Z := 60000.
Definition msPerHour : Z := 3600000.
Definition msPerDay : Z := 86400000.

(** A [Date] object: a time value in milliseconds since the epoch, or the
    invalid date (time value NaN). *)
Inductive JsDate : Type :=
| ValidDate (t : Z)
| InvalidDate.

(** A number that may be NaN: [None] is NaN. *)
Definition TimeClip (t : Z) : option Z :=
  if Z.abs t <=? 8640000000000000 then Some t else None.

(** [new Date(value)] for a number. *)
Definition newDate (v : option Z) : JsDate :=
  match v with
  | Some t => match TimeClip t with Some t' => ValidDate t' | None => InvalidDate end
  | None => InvalidDate
  end.

Definition InLeapYear (y : Z) : bool :=
  ((y mod 4 =? 0) && negb (y mod 100 =? 0)) || (y mod 400 =? 0).

Definition DaysInYear (y : Z) : Z := if InLeapYear y then 366 else 365.

(** Day number of the first day of year [y]. *)
Definition DayFromYear (y : Z) : Z :=
  365 * (y - 1970) + (y - 1969) / 4 - (y - 1901) / 100 + (y - 1601) / 400.

(** Days of the year before month [mn] (0 = January). *)
Definition monthStart (leap : bool) (mn : Z) : Z :=
  let l := if leap then 1 else 0 in
  if mn <=? 0 then 0
  else if mn =? 1 then 31
  else if mn =? 2 then 59 + l
  else if mn =? 3 then 90 + l
  else if mn =? 4 then 120 + l
  else if mn =? 5 then 151 + l
  else if mn =? 6 then 181 + l
  else if mn =? 7 then 212 + l
  else if mn =? 8 then 243 + l
  else if mn =? 9 then 273 + l
  else if mn =? 10 then 304 + l
  else 334 + l.

(** [MakeDay(year, month, date)]: months outside 0..11 carry into the year,
    days outside the month carry into the neighbouring months. *)
Definition MakeDay (year month date : Z) : Z :=
  let ym := year + month / 12 in
  let mn := month mod 12 in
  DayFromYear ym + monthStart (InLeapYear ym) mn + date - 1.

Definition MakeTime (hour min sec ms : Z) : Z :=
  hour * msPerHour + min * msPerMinute + sec * 1000 + ms.

Definition MakeDate (day time : Z) : Z := day * msPerDay + time.

(** A year from 0 to 99 given to [Date.UTC] stands for 1900 + year. *)
Definition MakeFullYear (y : Z) : Z :=
  if (0 <=? y) && (y <=? 99) then 1900 + y else y.

(** [Date.UTC(year, month, day, hour, minute)] *)
Definition DateUTC (year month day hour minute : Z) : option Z :=
  TimeClip (MakeDate (MakeDay (MakeFullYear year) month day)
                     (MakeTime hour minute 0 0)).

(** [YearFromTime]: the year whose first day is the last one not after the
    day number; the mean year length gives it up to one year. *)
Definition YearFromDay (d : Z) : Z :=
  let y := 1970 + (400 * d) / 146097 in
  if d <? DayFromYear y then y - 1
  else if DayFromYear (y + 1) <=? d then y + 1
  else y.

Definition DayWithinYear (d : Z) : Z := d - DayFromYear (YearFromDay d).

(** [MonthFromTime], 0 = January. *)
Definition MonthFromDay (d : Z) : Z :=
  let leap := InLeapYear (YearFromDay d) in
  let w := DayWithinYear d in
  if w <? monthStart leap 1 then 0
  else if w <? monthStart leap 2 then 1
  else if w <? monthStart leap 3 then 2
  else if w <? monthStart leap 4 then 3
  else if w <? monthStart leap 5 then 4
  else if w <? monthStart leap 6 then 5
  else if w <? monthStart leap 7 then 6
  else if w <? monthStart leap 8 then 7
  else if w <? monthStart leap 9 then 8
  else if w <? monthStart leap 10 then 9
  else if w <? monthStart leap 11 then 10
  else 11.

(** [DateFromTime], 1 = first day of the month. *)
Definition DateFromDay (d : Z) : Z :=
  DayWithinYear d - monthStart (InLeapYear (YearFromDay d)) (MonthFromDay d) + 1.

(** The [dueDate] and [dueTime] objects of a coursework record. *)
Record DueDate : Type := mkDueDate { year : Z; month : Z; day : Z }.
Record TimeOfDay : Type := mkTimeOfDay { hours : option Z; minutes : option Z }.

(** [dueTime?.hours ?? 23], [dueTime?.minutes ?? 59] *)
Definition hourOf (dueTime : option TimeOfDay) : Z :=
  match dueTime with
  | Some tm => match hours tm with Some h => h | None => 23 end
  | None => 23
  end.

Definition minuteOf (dueTime : option TimeOfDay) : Z :=
  match dueTime with
  | Some tm => match minutes tm with Some m => m | None => 59 end
  | None => 59
  end.

(** [googleDueToDate(dueDate, dueTime, tzOffsetMinutes = 9 * 60)]; the
    result is [null] ([None]) without a due date. *)
Definition googleDueToDate (dueDate : option DueDate) (dueTime : option TimeOfDay)
    (tzOffsetMinutes : Z) : option JsDate :=
  match dueDate with
  | None => None
  | Some dd =>
      let utcMs :=
        match DateUTC (year dd) (month dd - 1) (day dd)
                      (hourOf dueTime) (minuteOf dueTime) with
        | Some u => Some (u - tzOffsetMinutes * 60000)
        | None => None
        end in
      Some (newDate utcMs)
  end.

Definition defaultTzOffsetMinutes : Z := 9 * 60.

(** A number printed with at least two digits (['2-digit']). *)
Definition twoDigit (n : Z) : JSString :=
  if n <? 10 then lit "0" ++ decimal (Z.to_N n) else decimal (Z.to_N n).

(** The year as [year: 'numeric'] prints it: the year of the era, with as
    many digits as it has. *)
Definition numericYear (y : Z) : JSString :=
  if 1 <=? y then decimal (Z.to_N y) else decimal (Z.to_N (1 - y)).

(** The calendar day of local day number [d], as the parts of the ['en-CA']
    format joined by [`${y}-${m}-${da}`]. *)
Definition formatDay (d : Z) : JSString :=
  numericYear (YearFromDay d) ++ lit "-" ++ twoDigit (MonthFromDay d + 1)
    ++ lit "-" ++ twoDigit (DateFromDay d).

(** [kstDayKey(d)].  [seoulOffset t] is the offset from UTC, in
    milliseconds, that the host's time-zone table gives Asia/Seoul at
    instant [t]; formatting the invalid date throws a RangeError ([None]). *)
Definition kstDayKey (seoulOffset : Z -> Z) (d : JsDate) : option JSString :=
  match d with
  | InvalidDate => None
  | ValidDate t => Some (formatDay ((t + seoulOffset t) / msPerDay))
  end.

(** Korean Standard Time, nine hours east of UTC, and the zone that keeps
    it at every instant. *)
Definition kstOffset : Z := 540 * msPerMinute.
Definition fixedKst : Z -> Z := fun _ => kstOffset.

(** [kstLabel(dayKey)]: [dayKey.replace(/-/g, '.')] *)
Definition kstLabel (dayKey : JSString) : JSString :=
  replaceAll 45%N 46%N dayKey.

(** [d.toISOString()]: the ISO text of a valid date, which [Date.parse] reads
    back to the same time value; the text is identified with that time
    value.  The invalid date throws a RangeError ([None]). *)
Definition IsoText := Z.
Definition toISOString (d : JsDate) : option IsoText :=
  match d with
  | ValidDate t => Some t
  | InvalidDate => None
  end.

(** The calendar day written YYYY-MM-DD: four, two and two digits. *)
Definition pad (width : nat) (s : JSString) : JSString :=
  repeat 48%N (width - List.length s) ++ s.

Definition isoDay (y m d : Z) : JSString :=
  pad 4 (decimal (Z.to_N y)) ++ lit "-" ++ pad 2 (decimal (Z.to_N m))
    ++ lit "-" ++ pad 2 (decimal (Z.to_N d)).

(** Days in month [m] (1..12) of year [y], and the dates and times of day
    that exist. *)
Definition daysInMonth (y m : Z) : Z :=
  if m =? 2 then (if InLeapYear y then 29 else 28)
  else if (m =? 4) || (m =? 6) || (m =? 9) || (m =? 11) then 30
  else 31.

Definition validDate (dd : DueDate) : Prop :=
  1 <= month dd <= 12 /\ 1 <= day dd <= daysInMonth (year dd) (month dd).

Definition validTime (tm : option TimeOfDay) : Prop :=
  0 <= hourOf tm <= 23 /\ 0 <= minuteOf tm <= 59.

(** A test holds of every integer from [lo] to [hi]. *)
Definition checkRange (P : Z -> bool) (lo hi : Z) : bool :=
  forallb (fun k => P (lo + Z.of_nat k)) (seq 0 (Z.to_nat (hi - lo + 1))).

End Clock.

(* ================================================================== *)
(** ** The host and the remote service *)
(* ================================================================== *)

Module Host.
Import JS Clock.

(** What the JavaScript host supplies and the program does not define:
    the collation of [String.prototype.localeCompare] in the default locale
    and the offsets of the Asia/Seoul zone. *)
Record Services : Type := mkServices {
  localeCompare : JSString -> JSString -> Z;
  seoulOffset : Z -> Z
}.

(** [localeCompare] is a consistent comparator: its sign is antisymmetric
    and "not after" is transitive. *)
Record ConsistentCollation (lc : JSString -> JSString -> Z) : Prop := {
  collation_antisym : forall a b, Z.sgn (lc a b) = - Z.sgn (lc b a);
  collation_trans : forall a b c, lc a b <= 0 -> lc b c <= 0 -> lc a c <= 0
}.

(** The sort key of the root collation on strings of ASCII letters: the
    letters without their case first, then, after a separator below every
    weight, their case with lower case before upper case. *)
Definition isUpper (c : CodeUnit) : bool := ((65 <=? c) && (c <=? 90))%N.
Definition primaryWeight (c : CodeUnit) : N :=
  (if isUpper c then c + 32 + 1 else c + 1)%N.
Definition caseWeight (c : CodeUnit) : N := if isUpper c then 2%N else 1%N.
Definition sortKey (s : JSString) : list N :=
  map primaryWeight s ++ 0%N :: map caseWeight s.

(** The collation of a host whose internationalisation is ICU's, as the
    [Intl.DateTimeFormat] with a named time zone of [kstDayKey] needs it,
    on such strings: ["a" < "A" < "b" < "B"]. *)
Definition rootCollation (s t : JSString) : Z :=
  signOf (lexCompare (sortKey s) (sortKey t)).

(** A host that compares code units. *)
Definition codeUnitCollation (s t : JSString) : Z := signOf (lexCompare s t).

(** The readings of the clock: the [k]-th [new Date()] or [Date.now()] of a
    run gives [clock k]. *)
Definition ClockReadings := nat -> Z.

(** What a remote list call comes to: it throws, or it returns a response
    whose collection may be missing. *)
Inductive Fetched (A : Type) : Type :=
| Threw
| Listed (items : option (list A)).
Arguments Threw {A}.
Arguments Listed {A} items.

(** [res.data.xs || []] *)
Definition orEmptyList {A : Type} (l : option (list A)) : list A :=
  match l with Some xs => xs | None => [] end.

(** The file system as a run meets it: whether [fs.mkdir] resolves, and
    whether the [n]-th [fs.writeFile] of the run does. *)
Record Disk : Type := mkDisk {
  mkdirOk : bool;
  writeOk : nat -> bool
}.

End Host.

(* ================================================================== *)
(** ** JavaScript [Map]: keys in insertion order *)
(* ================================================================== *)

Module JSMap.
Import JS.

Definition t (V : Type) : Type := list (JSString * V).

Fixpoint has {V} (k : JSString) (m : t V) : bool :=
  match m with
  | [] => false
  | (k', _) :: r => str_eqb k k' || has k r
  end.

Fixpoint get {V} (k : JSString) (m : t V) : option V :=
  match m with
  | [] => None
  | (k', v) :: r => if str_eqb k k' then Some v else get k r
  end.

(** [m.set(k, v)]: an existing key keeps its place, a new one goes last. *)
Fixpoint set {V} (k : JSString) (v : V) (m : t V) : t V :=
  match m with
  | [] => [(k, v)]
  | (k', v') :: r => if str_eqb k k' then (k', v) :: r else (k', v') :: set k v r
  end.

Definition keys {V} (m : t V) : list JSString := map fst m.
Definition entries {V} (m : t V) : list (JSString * V) := m.

End JSMap.

(* ================================================================== *)
(** ** Records of the remote service and text normalisation *)
(* ================================================================== *)

Module Records.
Import JS Clock Host.

Record Course : Type := mkCourse {
  c_id : JSString;
  c_name : JSString;
  c_alternateLink : option JSString
}.

(** A timestamp property that is present and not empty is given by the
    [Date] that [new Date(text)] makes of it. *)
Record RawWorkItem : Type := mkWork {
  w_id : JSString;
  w_title : option JSString;
  w_alternateLink : option JSString;
  w_workType : option JSString;
  w_dueDate : option DueDate;
  w_dueTime : option TimeOfDay;
  w_updateTime : option JsDate;
  w_creationTime : option JsDate
}.

Record RawAnnouncement : Type := mkAnnouncement {
  a_id : JSString;
  a_text : option JSString;
  a_updateTime : option JsDate;
  a_creationTime : option JsDate
}.

(** One course of the list with what its two list calls come to. *)
Record CourseFeed : Type := mkFeed {
  course : Course;
  courseWork : Fetched RawWorkItem;
  announcements : Fetched RawAnnouncement
}.

(** The code units [\s] matches and [trim] removes: the white space and
    line terminators of the language. *)
Definition isWhiteSpace (c : CodeUnit) : bool :=
  ((9 <=? c) && (c <=? 13) || (c =? 32) || (c =? 160) || (c =? 5760)
   || (8192 <=? c) && (c <=? 8202) || (c =? 8232) || (c =? 8233)
   || (c =? 8239) || (c =? 8287) || (c =? 12288) || (c =? 65279))%N.

Definition space : CodeUnit := 32%N.
Definition ellipsis : CodeUnit := 8230%N.

(** [s.replace(/\s+/g, ' ')]; [inRun] tells that the preceding code unit
    belonged to the run being replaced. *)
Fixpoint collapseFrom (inRun : bool) (s : JSString) : JSString :=
  match s with
  | [] => []
  | c :: r =>
      if isWhiteSpace c
      then (if inRun then collapseFrom true r else space :: collapseFrom true r)
      else c :: collapseFrom false r
  end.

Definition collapseWhiteSpace (s : JSString) : JSString := collapseFrom false s.

Fixpoint trimStart (s : JSString) : JSString :=
  match s with
  | [] => []
  | c :: r => if isWhiteSpace c then trimStart r else c :: r
  end.

Definition trimEnd (s : JSString) : JSString := rev (trimStart (rev s)).
Definition trim (s : JSString) : JSString := trimEnd (trimStart s).

(** [(a.text || '').replace(/\s+/g, ' ').trim()] *)
Definition normalizeText (text : option JSString) : JSString :=
  trim (collapseWhiteSpace (orEmpty text)).

Definition blank (c : CodeUnit) : Prop := isWhiteSpace c = true.
Definition solid (c : CodeUnit) : Prop := isWhiteSpace c = false.

(** [s] is empty or ends in a code unit that is not white space. *)
Definition endsSolid (s : JSString) : Prop :=
  s = [] \/ exists l c, s = l ++ [c] /\ solid c.

(** The description of the normalisation, to compare [normalizeText] with:
    the words of the text, which are its maximal runs of code units that are
    not white space, joined by single spaces.  [splitWords cur s] continues
    the word [cur] through [s]. *)
Fixpoint splitWords (cur s : JSString) : list JSString :=
  match s with
  | [] => match cur with [] => [] | _ :: _ => [cur] end
  | c :: r =>
      if isWhiteSpace c
      then match cur with
           | [] => splitWords [] r
           | _ :: _ => cur :: splitWords [] r
           end
      else splitWords (cur ++ [c]) r
  end.

Definition wordsOf (s : JSString) : list JSString := splitWords [] s.

Fixpoint joinWords (ws : list JSString) : JSString :=
  match ws with
  | [] => []
  | [w] => w
  | w :: rest => w ++ space :: joinWords rest
  end.

(** [txt.length > 120 ? txt.slice(0, 117) + '…' : txt] *)
Definition displayTitle (txt : JSString) : JSString :=
  if (120 <? List.length txt)%nat then firstn 117 txt ++ [ellipsis] else txt.

(** [`${kind}:${c.id}:${x.id}`] *)
Definition itemId (kind : string) (courseId nativeId : JSString) : JSString :=
  lit kind ++ lit ":" ++ courseId ++ lit ":" ++ nativeId.

(** [x.updateTime || x.creationTime] *)
Definition whenIso (updateTime creationTime : option JsDate) : option JsDate :=
  match updateTime with
  | Some d => Some d
  | None => creationTime
  end.

(** [due ? due.toISOString() : null]; [None] when [toISOString] throws. *)
Definition dueText (due : option JsDate) : option (option IsoText) :=
  match due with
  | None => Some None
  | Some d => match toISOString d with
              | Some txt => Some (Some txt)
              | None => None
              end
  end.

End Records.

(* ================================================================== *)
(** ** The day-bucketed builder *)
(* ================================================================== *)

Module DayBuilder.
Import JS Clock Host Records.

Record Item : Type := mkItem {
  id : JSString;
  title : option JSString;
  link : option JSString;
  dueAt : option IsoText;
  topic : JSString;
  createdAt : IsoText
}.

(** dayKey -> courseName -> items[] *)
Definition Buckets : Type := JSMap.t (JSMap.t (list Item)).

(** [pushItem(dayKey, courseName, item)]; the maps and the array are
    shared objects changed in place, so each change is written back where
    the object sits. *)
Definition pushItem (dayKey courseName : JSString) (item : Item)
    (dayBuckets : Buckets) : Buckets :=
  let dayBuckets1 :=
    if JSMap.has dayKey dayBuckets then dayBuckets
    else JSMap.set dayKey [] dayBuckets in
  let byCourse :=
    match JSMap.get dayKey dayBuckets1 with Some m => m | None => [] end in
  let byCourse1 :=
    if JSMap.has courseName byCourse then byCourse
    else JSMap.set courseName [] byCourse in
  let items :=
    match JSMap.get courseName byCourse1 with Some l => l | None => [] end in
  JSMap.set dayKey (JSMap.set courseName (items ++ [item]) byCourse1) dayBuckets1.

(** The state the loops of [main] run on: how many times the clock has been
    read, and the buckets. *)
Record RunState : Type := mkState { tick : nat; dayBuckets : Buckets }.

Definition initial : RunState := mkState 0 [].

(** [whenIso ? new Date(whenIso) : new Date()], with the number of clock
    readings afterwards. *)
Definition anchorDate (clock : ClockReadings) (n : nat)
    (updateTime creationTime : option JsDate) : JsDate * nat :=
  match whenIso updateTime creationTime with
  | Some d => (d, n)
  | None => (ValidDate (clock n), S n)
  end.

(** The body of the coursework loop up to [pushItem]: the day key and the
    item, or [None] when one of [kstDayKey] and [toISOString] throws. *)
Definition courseWorkItem (h : Services) (c : Course) (w : RawWorkItem)
    (when : JsDate) : option (JSString * Item) :=
  match kstDayKey (seoulOffset h) when with
  | None => None
  | Some dayKey =>
      let due := googleDueToDate (w_dueDate w) (w_dueTime w) defaultTzOffsetMinutes in
      match dueText due, toISOString when with
      | Some dueAt, Some created =>
          Some (dayKey,
                mkItem (itemId "cw" (c_id c) (w_id w))
                       (w_title w)
                       (w_alternateLink w)
                       dueAt
                       (orElse (w_workType w) (lit "COURSEWORK"))
                       created)
      | _, _ => None
      end
  end.

(** [for (const w of ...)] inside its [try]: an exception leaves the loop,
    and what was pushed before it stays. *)
Fixpoint courseWorkLoop (h : Services) (clock : ClockReadings) (c : Course)
    (ws : list RawWorkItem) (st : RunState) : RunState :=
  match ws with
  | [] => st
  | w :: rest =>
      let (when, n) := anchorDate clock (tick st) (w_updateTime w) (w_creationTime w) in
      match courseWorkItem h c w when with
      | Some (dayKey, item) =>
          courseWorkLoop h clock c rest
            (mkState n (pushItem dayKey (c_name c) item (dayBuckets st)))
      | None => mkState n (dayBuckets st)
      end
  end.

(** The body of the announcement loop after the empty-text test. *)
Definition announcementItem (h : Services) (c : Course) (a : RawAnnouncement)
    (txt : JSString) (when : JsDate) : option (JSString * Item) :=
  match kstDayKey (seoulOffset h) when, toISOString when with
  | Some dayKey, Some created =>
      Some (dayKey,
            mkItem (itemId "ann" (c_id c) (a_id a))
                   (Some (displayTitle txt))
                   (orNull (c_alternateLink c))
                   None
                   (lit "ANNOUNCEMENT")
                   created)
  | _, _ => None
  end.

Fixpoint announcementLoop (h : Services) (clock : ClockReadings) (c : Course)
    (anns : list RawAnnouncement) (st : RunState) : RunState :=
  match anns with
  | [] => st
  | a :: rest =>
      let txt := normalizeText (a_text a) in
      match txt with
      | [] => announcementLoop h clock c rest st
      | _ :: _ =>
          let (when, n) := anchorDate clock (tick st) (a_updateTime a) (a_creationTime a) in
          match announcementItem h c a txt when with
          | Some (dayKey, item) =>
              announcementLoop h clock c rest
                (mkState n (pushItem dayKey (c_name c) item (dayBuckets st)))
          | None => mkState n (dayBuckets st)
          end
      end
  end.

(** One turn of [for (const c of courses)]: the two [try] blocks. *)
Definition courseStep (h : Services) (clock : ClockReadings)
    (st : RunState) (feed : CourseFeed) : RunState :=
  let st1 :=
    match courseWork feed with
    | Threw => st
    | Listed l => courseWorkLoop h clock (course feed) (orEmptyList l) st
    end in
  match announcements feed with
  | Threw => st1
  | Listed l => announcementLoop h clock (course feed) (orEmptyList l) st1
  end.

Definition collect (h : Services) (clock : ClockReadings)
    (feeds : list CourseFeed) (st : RunState) : RunState :=
  fold_left (courseStep h clock) feeds st.

(** The comparator of [items.sort]; [createdAt] is never empty, so
    [Date.parse] always reads it. *)
Definition compareItems (h : Services) (a b : Item) : Z :=
  let at_ := createdAt a in
  let bt := createdAt b in
  if negb (at_ =? bt) then bt - at_
  else localeCompare h (orEmpty (title a)) (orEmpty (title b)).

Record Group : Type := mkGroup { name : JSString; items : list Item }.

Record Snapshot : Type := mkSnapshot {
  generatedAt : IsoText;
  day : JSString;
  groups : list Group
}.

Record DayEntry : Type := mkDayEntry { entryDay : JSString; label : JSString }.

Record Manifest : Type := mkManifest {
  manifestGeneratedAt : IsoText;
  latestDay : option JSString;
  days : list DayEntry
}.

(** The files of a run: one document per day, in the order written, and
    the index. *)
Record Output : Type := mkOutput {
  dayFiles : list (JSString * Snapshot);
  indexFile : Manifest
}.

Definition groupsOf (h : Services) (byCourse : JSMap.t (list Item)) : list Group :=
  map (fun e => mkGroup (fst e) (sort (compareItems h) (snd e)))
      (JSMap.entries byCourse).

(** [for (const dayKey of days)]: the [n]-th clock reading stamps the file. *)
Fixpoint writeDays (h : Services) (clock : ClockReadings) (dayBuckets : Buckets)
    (dayKeys : list JSString) (n : nat) : list (JSString * Snapshot) * nat :=
  match dayKeys with
  | [] => ([], n)
  | dayKey :: rest =>
      let byCourse :=
        match JSMap.get dayKey dayBuckets with Some m => m | None => [] end in
      let out := mkSnapshot (clock n) dayKey (groupsOf h byCourse) in
      let (files, n') := writeDays h clock dayBuckets rest (S n) in
      ((dayKey, out) :: files, n')
  end.

(** [days[days.length - 1] || null] *)
Definition latestOf (dayKeys : list JSString) : option JSString :=
  orNull (last (map Some dayKeys) None).

(** [main] from the list of courses on. *)
Definition build (h : Services) (clock : ClockReadings)
    (feeds : list CourseFeed) : Output :=
  let st := collect h clock feeds initial in
  let dayKeys := sortStrings (JSMap.keys (dayBuckets st)) in
  let (files, n) := writeDays h clock (dayBuckets st) dayKeys (tick st) in
  mkOutput files
    (mkManifest (clock n) (latestOf dayKeys)
       (map (fun d => mkDayEntry d (kstLabel d)) dayKeys)).

(** How the process ends: [main()] resolves and the process exits with
    status 0, or it rejects and [process.exit(1)] runs. *)
Inductive Outcome : Type :=
| Completed (out : Output)
| Rejected.

(** [fs.mkdir] and every [fs.writeFile] of the run resolve: one write for
    each day file, in the order of the files, and one for the index.  They
    stand outside every [try], so the first that rejects rejects [main]. *)
Definition accepts (disk : Disk) (out : Output) : bool :=
  mkdirOk disk && forallb (writeOk disk) (seq 0 (S (List.length (dayFiles out)))).

(** The day files on the disk when the run has ended: those written before
    the first write that rejects. *)
Fixpoint written (disk : Disk) (n : nat) (files : list (JSString * Snapshot))
  : list (JSString * Snapshot) :=
  match files with
  | [] => []
  | f :: rest => if writeOk disk n then f :: written disk (S n) rest else []
  end.


(** [main] from [courses.list] on. *)
Definition main (h : Services) (clock : ClockReadings) (disk : Disk)
    (coursesRes : Fetched CourseFeed) : Outcome :=
  match coursesRes with
  | Threw => Rejected
  | Listed l =>
      let out := build h clock (orEmptyList l) in
      if accepts disk out then Completed out else Rejected
  end.

Definition exitStatus (o : Outcome) : Z :=
  match o with Completed _ => 0 | Rejected => 1 end.

(** The documents without their [generatedAt]. *)
Definition withoutStamp (s : Snapshot) : JSString * list Group := (day s, groups s).

Definition unstamped (o : Output)
  : list (JSString * (JSString * list Group)) * (option JSString * list DayEntry) :=
  (map (fun f => (fst f, withoutStamp (snd f))) (dayFiles o),
   (latestDay (indexFile o), days (indexFile o))).

(** The documents a run leaves, without their stamps; none when it rejects. *)
Definition documents (o : Outcome)
  : option (list (JSString * (JSString * list Group))
            * (option JSString * list DayEntry)) :=
  match o with
  | Completed out => Some (unstamped out)
  | Rejected => None
  end.

(** The records a list call delivered. *)
Definition delivered {A : Type} (f : Fetched A) : list A :=
  match f with
  | Threw => []
  | Listed l => orEmptyList l
  end.

(** Every record of the feed carries an update or a creation time. *)
Definition feedStamped (feed : CourseFeed) : Prop :=
  (forall w, In w (delivered (courseWork feed)) ->
             whenIso (w_updateTime w) (w_creationTime w) <> None) /\
  (forall a, In a (delivered (announcements feed)) ->
             whenIso (a_updateTime a) (a_creationTime a) <> None).

Definition allStamped (coursesRes : Fetched CourseFeed) : Prop :=
  forall feed, In feed (delivered coursesRes) -> feedStamped feed.

(** What a record carrying a time gives when its turn comes: the day key
    and the item pushed, or nothing when the turn throws; for an
    announcement also nothing when its text is empty. *)
Definition courseWorkYield (h : Services) (c : Course) (w : RawWorkItem)
  : option (JSString * Item) :=
  match whenIso (w_updateTime w) (w_creationTime w) with
  | Some when => courseWorkItem h c w when
  | None => None
  end.

Definition announcementYield (h : Services) (c : Course) (a : RawAnnouncement)
  : option (JSString * Item) :=
  match normalizeText (a_text a), whenIso (a_updateTime a) (a_creationTime a) with
  | u :: txt, Some when => announcementItem h c a (u :: txt) when
  | _, _ => None
  end.

(** The turn of the record does not throw. *)
Definition courseWorkPasses (h : Services) (c : Course) (w : RawWorkItem) : Prop :=
  courseWorkYield h c w <> None.

Definition announcementPasses (h : Services) (c : Course) (a : RawAnnouncement)
  : Prop :=
  normalizeText (a_text a) = [] \/ announcementYield h c a <> None.

(** The ids of the remote: course ids differ and hold no colon, and within
    one course the ids of its coursework differ, as do those of its
    announcements. *)
Definition colonFree (s : JSString) : Prop := ~ In 58%N s.

Definition remoteIdsDistinct (feeds : list CourseFeed) : Prop :=
  NoDup (map (fun f => c_id (course f)) feeds) /\
  forall f, In f feeds ->
    colonFree (c_id (course f)) /\
    NoDup (map w_id (delivered (courseWork f))) /\
    NoDup (map a_id (delivered (announcements f))).

(** The ids the records of a feed would give. *)
Definition candidateIds (f : CourseFeed) : list JSString :=
  map (fun w => itemId "cw" (c_id (course f)) (w_id w)) (delivered (courseWork f))
  ++ map (fun a => itemId "ann" (c_id (course f)) (a_id a))
         (delivered (announcements f)).

(** Where an item comes from. *)
Definition fromCourseWork (feeds : list CourseFeed) (it : Item) : Prop :=
  exists f w,
    In f feeds /\ In w (delivered (courseWork f)) /\
    id it = itemId "cw" (c_id (course f)) (w_id w) /\
    title it = w_title w.

Definition fromAnnouncement (feeds : list CourseFeed) (it : Item) : Prop :=
  exists f a u txt,
    In f feeds /\ In a (delivered (announcements f)) /\
    id it = itemId "ann" (c_id (course f)) (a_id a) /\
    normalizeText (a_text a) = u :: txt /\
    title it = Some (displayTitle (u :: txt)).

Definition origin (feeds : list CourseFeed) (it : Item) : Prop :=
  fromCourseWork feeds it \/
  (fromAnnouncement feeds it /\ exists u r, title it = Some (u :: r)).

(** [dayBuckets.get(dayKey)] *)
Definition bucketOf (b : Buckets) (dayKey : JSString) : JSMap.t (list Item) :=
  match JSMap.get dayKey b with Some m => m | None => [] end.

(** Every item held in the buckets, and every item of the files written. *)
Definition allItems (b : Buckets) : list Item :=
  flat_map (fun e => flat_map snd (snd e)) b.

Definition outputItems (o : Output) : list Item :=
  flat_map (fun f => flat_map items (groups (snd f))) (dayFiles o).

(** The buckets hold the item. *)
Definition holds (it : Item) (b : Buckets) : Prop := In it (allItems b).

(** The buckets hold no id twice, only ids of [seen], and only items of [Q]. *)
Definition within (seen : list JSString) (Q : Item -> Prop) (b : Buckets) : Prop :=
  NoDup (map id (allItems b)) /\
  incl (map id (allItems b)) seen /\
  forall it, In it (allItems b) -> Q it.

(** The title the comparator reads: [a.title || '']. *)
Definition titleOf (a : Item) : JSString := orEmpty (title a).

(** The order of a group: wherever two items stand, the one anchored later
    stands first, and of two anchored at the same instant the one whose
    title comes [before] the other's stands first. *)
Definition newestFirst (before : JSString -> JSString -> Prop)
    (its : list Item) : Prop :=
  forall i j a b,
    nth_error its i = Some a -> nth_error its j = Some b ->
    (createdAt b < createdAt a -> (i < j)%nat) /\
    (createdAt a = createdAt b -> before (titleOf a) (titleOf b) -> (i < j)%nat).

(** The title order of the host's collation. *)
Definition collatesBefore (h : Services) (s t : JSString) : Prop :=
  localeCompare h s t < 0.

(** What holds of the buckets throughout a run: keys are not repeated, no
    map and no array is empty, and every item sits under the day key of its
    anchor. *)
Definition groupOk (h : Services) (dayKey : JSString) (its : list Item) : Prop :=
  its <> [] /\
  forall it, In it its ->
    kstDayKey (seoulOffset h) (ValidDate (createdAt it)) = Some dayKey.

Definition dayOk (h : Services) (dayKey : JSString)
    (byCourse : JSMap.t (list Item)) : Prop :=
  NoDup (JSMap.keys byCourse) /\ byCourse <> [] /\
  forall e, In e byCourse -> groupOk h dayKey (snd e).

Definition bucketsOk (h : Services) (b : Buckets) : Prop :=
  NoDup (JSMap.keys b) /\ forall e, In e b -> dayOk h (fst e) (snd e).

End DayBuilder.

(* ================================================================== *)
(** ** The flat builder (build-data.js) *)
(* ================================================================== *)

Module FlatBuilder.
Import JS Clock Host Records.

Record Item : Type := mkItem {
  id : JSString;
  title : option JSString;
  link : option JSString;
  dueAt : option IsoText;
  topic : JSString
}.

(** A number or [Infinity]. *)
Inductive DueKey : Type :=
| Finite (t : Z)
| Infinity.

(** [a.dueAt ? Date.parse(a.dueAt) : Infinity] *)
Definition dueKey (a : Item) : DueKey :=
  match dueAt a with
  | Some t => Finite t
  | None => Infinity
  end.

Definition dueKey_eqb (x y : DueKey) : bool :=
  match x, y with
  | Finite s, Finite t => s =? t
  | Infinity, Infinity => true
  | _, _ => false
  end.

(** The sign of [ad - bd] for different [ad] and [bd]; with one of them
    infinite the difference is infinite. *)
Definition dueDifference (x y : DueKey) : Z :=
  match x, y with
  | Finite s, Finite t => s - t
  | Finite _, Infinity => -1
  | Infinity, Finite _ => 1
  | Infinity, Infinity => 0
  end.

(** The comparator of [items.sort]: due date first, then title. *)
Definition compareItems (h : Services) (a b : Item) : Z :=
  let ad := dueKey a in
  let bd := dueKey b in
  if negb (dueKey_eqb ad bd) then dueDifference ad bd
  else localeCompare h (orEmpty (title a)) (orEmpty (title b)).

(** The coursework loop inside its [try]. *)
Fixpoint courseWorkLoop (c : Course) (ws : list RawWorkItem) (items : list Item)
  : list Item :=
  match ws with
  | [] => items
  | w :: rest =>
      match dueText
              (googleDueToDate (w_dueDate w) (w_dueTime w) defaultTzOffsetMinutes) with
      | Some due =>
          courseWorkLoop c rest
            (items ++ [mkItem (itemId "cw" (c_id c) (w_id w))
                               (w_title w) (w_alternateLink w) due
                               (orElse (w_workType w) (lit "COURSEWORK"))])
      | None => items
      end
  end.

Fixpoint startsWith (p s : JSString) : bool :=
  match p, s with
  | [], _ => true
  | _ :: _, [] => false
  | a :: p', b :: s' => unit_eqb a b && startsWith p' s'
  end.

(** [hay.includes(needle)] *)
Fixpoint includes (hay needle : JSString) : bool :=
  startsWith needle hay ||
  match hay with
  | [] => false
  | _ :: r => includes r needle
  end.

Definition keywords : list JSString :=
  map lit ["homework"; "assignment"; "due"; "quiz"; "test"; "read"; "watch";
           "worksheet"]%string.

(** [toLowerCase] is the host's case mapping. *)
Definition looksLikeHomework (toLowerCase : JSString -> JSString)
    (txt : JSString) : bool :=
  let hay := toLowerCase txt in
  existsb (includes hay) keywords.

Fixpoint announcementLoop (toLowerCase : JSString -> JSString) (c : Course)
    (anns : list RawAnnouncement) (items : list Item) : list Item :=
  match anns with
  | [] => items
  | a :: rest =>
      let txt := normalizeText (a_text a) in
      match txt with
      | [] => announcementLoop toLowerCase c rest items
      | _ :: _ =>
          if looksLikeHomework toLowerCase txt
          then announcementLoop toLowerCase c rest
                 (items ++ [mkItem (itemId "ann" (c_id c) (a_id a))
                                    (Some (displayTitle txt))
                                    (orNull (c_alternateLink c))
                                    None
                                    (lit "ANNOUNCEMENT")])
          else announcementLoop toLowerCase c rest items
      end
  end.

Record Group : Type := mkGroup { name : JSString; items : list Item }.

(** One turn of [for (const c of courses)]. *)
Definition courseGroup (h : Services) (toLowerCase : JSString -> JSString)
    (feed : CourseFeed) : Group :=
  let items0 :=
    match courseWork feed with
    | Threw => []
    | Listed l => courseWorkLoop (course feed) (orEmptyList l) []
    end in
  let items1 :=
    match announcements feed with
    | Threw => items0
    | Listed l => announcementLoop toLowerCase (course feed) (orEmptyList l) items0
    end in
  mkGroup (c_name (course feed)) (sort (compareItems h) items1).

Definition buildGroups (h : Services) (toLowerCase : JSString -> JSString)
    (feeds : list CourseFeed) : list Group :=
  map (courseGroup h toLowerCase) feeds.

Definition titleOf (a : Item) : JSString := orEmpty (title a).

(** The order of a group of the flat file: wherever two items stand, one
    with a due date stands before one without, of two with a due date the
    one due earlier stands first, and of two with the same due date or both
    without the one whose title the host collates first stands first. *)
Definition dueFirst (h : Services) (its : list Item) : Prop :=
  forall i j a b,
    nth_error its i = Some a -> nth_error its j = Some b ->
    (dueAt a <> None -> dueAt b = None -> (i < j)%nat) /\
    (forall s t, dueAt a = Some s -> dueAt b = Some t -> s < t -> (i < j)%nat) /\
    (dueAt a = dueAt b -> localeCompare h (titleOf a) (titleOf b) < 0 -> (i < j)%nat).

End FlatBuilder.

(* ================================================================== *)
(** ** Authorization: the loopback listener and the device flow *)
(* ================================================================== *)

Module Loopback.
Import JS.

(** A request as the handler sees it: [new URL(req.url, redirectUri)]
    throws, or gives a path and the value of the [code] parameter. *)
Inductive Request : Type :=
| BadUrl
| Url (pathname : JSString) (code : option JSString).

Record Response : Type := mkResponse {
  status : Z;
  contentType : option JSString;
  body : JSString
}.

(** The promise the flow awaits. *)
Inductive CodePromise : Type :=
| Pending
| Resolved (code : JSString)
| RejectedWith.

Record Listener : Type := mkListener {
  listening : bool;
  codePromise : CodePromise
}.

(** [server.listen(...)] *)
Definition started : Listener := mkListener true Pending.

(** Settling a promise that is settled already does nothing. *)
Definition resolve (code : JSString) (p : CodePromise) : CodePromise :=
  match p with Pending => Resolved code | _ => p end.

Definition reject (p : CodePromise) : CodePromise :=
  match p with Pending => RejectedWith | _ => p end.

Definition callbackPath : JSString := lit "/oauth2callback".

(** The request handler given to [http.createServer]. *)
Definition handler (st : Listener) (req : Request) : Listener * option Response :=
  match req with
  | BadUrl => (mkListener (listening st) (reject (codePromise st)), None)
  | Url pathname code =>
      if negb (str_eqb pathname callbackPath)
      then (st, Some (mkResponse 404 None (lit "Not found")))
      else
        match code with
        | Some (c :: r) =>
            (mkListener false (resolve (c :: r) (codePromise st)),
             Some (mkResponse 200 (Some (lit "text/plain"))
                              (lit "OK. You can close this tab.")))
        | _ => (st, Some (mkResponse 400 None (lit "Missing code")))
        end
  end.

(** What a request that reaches the handler comes to.  The server hands the
    handler every request it receives, and the handler does not ask whether
    the server still listens: [server.close()] keeps the listener from
    taking new connections, and a request that arrives on a connection kept
    open is answered like any other. *)
Definition serve (st : Listener) (req : Request) : Listener * option Response :=
  handler st req.

(** The requests that reach the handler, one after the other. *)
Definition serveAll (st : Listener) (reqs : list Request) : Listener :=
  fold_left (fun s r => fst (serve s r)) reqs st.

(** The states of the flow that the promise stands for. *)
Inductive FlowState : Type :=
| AwaitingRedirect
| CodeReceived (code : JSString)
| Failed.

Definition flowState (st : Listener) : FlowState :=
  match codePromise st with
  | Pending => AwaitingRedirect
  | Resolved c => CodeReceived c
  | RejectedWith => Failed
  end.

(** A request that carries a code on the callback path. *)
Definition carriesCode (req : Request) : option JSString :=
  match req with
  | Url pathname (Some (c :: r)) =>
      if str_eqb pathname callbackPath then Some (c :: r) else None
  | _ => None
  end.

End Loopback.

Module DeviceFlow.
Import JS.

(** The answer of the device-code endpoint, as far as the loop reads it. *)
Record DeviceCode : Type := mkDeviceCode {
  interval : option Z;
  expires_in : option Z
}.

(** [n || dflt] for a number that may be missing: 0 is falsy. *)
Definition numberOr (n : option Z) (dflt : Z) : Z :=
  match n with
  | Some v => if v =? 0 then dflt else v
  | None => dflt
  end.

Definition intervalMs (device : DeviceCode) : Z := numberOr (interval device) 5 * 1000.
Definition expiryMs (device : DeviceCode) : Z := numberOr (expires_in device) 600 * 1000.

(** The delay [setTimeout] really waits: delays below 1 or above 2^31 - 1
    are set to 1. *)
Definition timerDelay (ms : Z) : Z :=
  if (ms <? 1) || (2147483647 <? ms) then 1 else ms.

Record Tokens : Type := mkTokens {
  access_token : option JSString;
  refresh_token : option JSString
}.

(** What one request to the token endpoint comes to. *)
Inductive PollReply : Type :=
| NetworkError
| HttpOk (tok : Tokens)
| HttpError (error : option JSString).

(** The endpoint and the network as the loop meets them: the reply to the
    [n]-th request and the time it takes to arrive. *)
Record Endpoint : Type := mkEndpoint {
  reply : nat -> PollReply;
  latency : nat -> Z
}.

Inductive FlowResult : Type :=
| Credential (tok : Tokens)
| Failed
| TimedOut.

(** [tok.error === 'authorization_pending' || tok.error === 'slow_down'] *)
Definition retryable (error : option JSString) : bool :=
  match error with
  | Some e => str_eqb e (lit "authorization_pending") || str_eqb e (lit "slow_down")
  | None => false
  end.

(** The polling loop from poll [n] on, at instant [now], with the instants
    at which the requests were sent.  [fuel] bounds the number of turns;
    [None] when it runs out. *)
Fixpoint pollLoop (ep : Endpoint) (delay expiresAt : Z) (fuel n : nat) (now : Z)
  : list Z * option FlowResult :=
  match fuel with
  | O => ([], None)
  | S fuel' =>
      if now <? expiresAt then
        let sent := now + timerDelay delay in
        let now' := sent + latency ep n in
        match reply ep n with
        | HttpOk tok => ([sent], Some (Credential tok))
        | HttpError error =>
            if retryable error
            then let (trace, r) := pollLoop ep delay expiresAt fuel' (S n) now' in
                 (sent :: trace, r)
            else ([sent], Some Failed)
        | NetworkError => ([sent], Some Failed)
        end
      else ([], Some TimedOut)
  end.

(** [startDeviceAuth] from the device code on, started at instant [start]. *)
Definition startDeviceAuth (ep : Endpoint) (device : DeviceCode) (start : Z)
    (fuel : nat) : list Z * option FlowResult :=
  pollLoop ep (intervalMs device) (start + expiryMs device) fuel 0 start.

(** Turns that always suffice. *)
Definition enoughFuel (device : DeviceCode) : nat :=
  S (Z.to_nat (expiryMs device)).

(** The instant at which the loop comes to its test [Date.now() < expiresAt]
    for the [k]-th time, the requests before having been retried: every
    turn takes the wait and the time its request takes. *)
Fixpoint loopInstant (ep : Endpoint) (wait start : Z) (k : nat) : Z :=
  match k with
  | O => start
  | S j => loopInstant ep wait start j + wait + latency ep j
  end.

(** The instants at which the first [k] requests are sent: each one wait
    after the loop has come round. *)
Definition sendInstants (ep : Endpoint) (wait start : Z) (k : nat) : list Z :=
  map (fun j => loopInstant ep wait start j + wait) (seq 0 k).

(** Every reply is "authorization_pending" or "slow_down". *)
Definition onlyPending (ep : Endpoint) : Prop :=
  forall n, exists error, reply ep n = HttpError error /\ retryable error = true.

End DeviceFlow.

(* ================================================================== *)
(** ** Local days in Seoul *)
(* ================================================================== *)

Module Calendar.
Import JS Clock.

(** The day number of the calendar day that instant [t] falls on in a zone
    with the given offsets: what [kstDayKey] prints. *)
Definition localDay (seoulOffset : Z -> Z) (t : Z) : Z :=
  (t + seoulOffset t) / msPerDay.

(** 1000-01-01T00:00 and 10000-01-01T00:00 of Korean Standard Time: between
    them the year of a day in Seoul has four digits. *)
Definition firstInstant : Z := DayFromYear 1000 * msPerDay - kstOffset.
Definition endInstant : Z := DayFromYear 10000 * msPerDay - kstOffset.

Definition str_ltb (s t : JSString) : bool :=
  match lexCompare s t with Lt => true | _ => false end.

Definition hyphen : CodeUnit := 45%N.
Definition dot : CodeUnit := 46%N.

End Calendar.

(* ================================================================== *)
(** ** Words of a text *)
(* ================================================================== *)

Module Words.
Import JS Records.

(** A word: not empty and without white space. *)
Definition goodWord (w : JSString) : Prop := w <> [] /\ Forall solid w.

(** The code unit is not white space. *)
Definition isSolid (c : CodeUnit) : bool := negb (isWhiteSpace c).

(** No two code units in a row are white space. *)
Fixpoint noDoubleBlank (s : JSString) : Prop :=
  match s with
  | a :: r => match r with
              | b :: _ => ~ (blank a /\ blank b)
              | [] => True
              end /\ noDoubleBlank r
  | [] => True
  end.

End Words.

(* ================================================================== *)
(** ** What the buckets hold and what records yield *)
(* ================================================================== *)

Module DayFiles.
Import JS Clock Host Records DayBuilder.

(** [dayBuckets.get(dayKey).get(courseName)], empty when either is missing. *)
Definition itemsAt (b : Buckets) (dayKey courseName : JSString) : list Item :=
  match JSMap.get courseName (bucketOf b dayKey) with
  | Some l => l
  | None => []
  end.

(** The items the records of a list yield, in the order of the list. *)
Definition yielded (o : option (JSString * Item)) : list Item :=
  match o with
  | Some (_, it) => [it]
  | None => []
  end.

Definition feedYields (hs : Services) (f : CourseFeed) : list Item :=
  flat_map (fun w => yielded (courseWorkYield hs (course f) w)) (delivered (courseWork f))
  ++ flat_map (fun a => yielded (announcementYield hs (course f) a))
       (delivered (announcements f)).

(** Every record of the feed has its turn without a throw. *)
Definition feedPasses (hs : Services) (f : CourseFeed) : Prop :=
  (forall w, In w (delivered (courseWork f)) -> courseWorkPasses hs (course f) w) /\
  (forall a, In a (delivered (announcements f)) -> announcementPasses hs (course f) a).

(** The array of the day and course holds the item. *)
Definition heldAt (dayKey courseName : JSString) (it : Item) (b : Buckets) : Prop :=
  In it (itemsAt b dayKey courseName).

End DayFiles.

(* ================================================================== *)
(** ** The flat file, record by record *)
(* ================================================================== *)

Module FlatFile.
Import JS Clock Host Records FlatBuilder.

(** The item of a piece of coursework whose due date can be written. *)
Definition workItem (c : Course) (w : RawWorkItem) (due : option IsoText) : Item :=
  mkItem (itemId "cw" (c_id c) (w_id w)) (w_title w) (w_alternateLink w) due
         (orElse (w_workType w) (lit "COURSEWORK")).

(** What the coursework loop adds for a record: its item, or nothing when
    writing the due date throws. *)
Definition workYield (c : Course) (w : RawWorkItem) : option Item :=
  match dueText (googleDueToDate (w_dueDate w) (w_dueTime w) defaultTzOffsetMinutes) with
  | Some due => Some (workItem c w due)
  | None => None
  end.

(** The records up to the first whose turn throws. *)
Fixpoint beforeThrow (c : Course) (ws : list RawWorkItem) : list Item :=
  match ws with
  | [] => []
  | w :: rest => match workYield c w with
                 | Some it => it :: beforeThrow c rest
                 | None => []
                 end
  end.

(** The announcement is kept: its normalised text is not empty and looks
    like homework. *)
Definition kept (toLowerCase : JSString -> JSString) (a : RawAnnouncement) : bool :=
  match normalizeText (a_text a) with
  | [] => false
  | u :: txt => looksLikeHomework toLowerCase (u :: txt)
  end.

Definition noteItem (c : Course) (a : RawAnnouncement) : Item :=
  mkItem (itemId "ann" (c_id c) (a_id a))
         (Some (displayTitle (normalizeText (a_text a))))
         (orNull (c_alternateLink c)) None (lit "ANNOUNCEMENT").

End FlatFile.

(* ================================================================== *)
(** ** The loopback flow from the listener to the tokens *)
(* ================================================================== *)

Module LocalAuth.
Import JS Loopback DeviceFlow.

(** What [startLocalAuth] has come to once the requests have arrived. *)
Inductive Outcome : Type :=
| Granted (tok : Tokens)
| Rejected
| Waiting.

(** [startLocalAuth]: [await codePromise], then [getToken(code)], which
    gives the tokens or throws. *)
Definition startLocalAuth (getToken : JSString -> option Tokens)
    (reqs : list Request) : Outcome :=
  match codePromise (serveAll started reqs) with
  | Pending => Waiting
  | RejectedWith => Rejected
  | Resolved code =>
      match getToken code with
      | Some tok => Granted tok
      | None => Rejected
      end
  end.

(** The answers the requests get, one after the other; [None] for a
    request that gets none. *)
Fixpoint answers (st : Listener) (reqs : list Request) : list (option Response) :=
  match reqs with
  | [] => []
  | r :: rest => snd (serve st r) :: answers (fst (serve st r)) rest
  end.

Definition accepted (answer : option Response) : bool :=
  match answer with
  | Some resp => status resp =? 200
  | None => false
  end.

(** The request neither carries a code nor makes the handler throw. *)
Definition idle (req : Request) : bool :=
  match req with
  | BadUrl => false
  | _ => match carriesCode req with Some _ => false | None => true end
  end.

(** The request carries a code on the callback path. *)
Definition carries (req : Request) : bool :=
  match carriesCode req with Some _ => true | None => false end.

End LocalAuth.

(* ================================================================== *)
(** ** The replies of the token endpoint *)
(* ================================================================== *)

Module DeviceReplies.
Import JS DeviceFlow.

(** The reply to request [j] is "authorization_pending" or "slow_down". *)
Definition pending (ep : Endpoint) (j : nat) : bool :=
  match reply ep j with
  | HttpError error => retryable error
  | _ => false
  end.

(** The reply to request [j] ends the flow as failed. *)
Definition refused (ep : Endpoint) (j : nat) : bool :=
  match reply ep j with
  | NetworkError => true
  | HttpError error => negb (retryable error)
  | HttpOk _ => false
  end.

End DeviceReplies.

(* ================================================================== *)
(** ** Items the comparator cannot tell apart *)
(* ================================================================== *)

Module Stable.
Import JS.

(** The comparator cannot tell [x] and [y] apart: each may stand before
    the other. *)
Definition tied {A : Type} (cmp : A -> A -> Z) (x y : A) : bool :=
  (cmp x y <=? 0) && (cmp y x <=? 0).

End Stable.

(* ================================================================== *)
(** ** Configuration, the stored credential and the choice of flow *)
(* ================================================================== *)

Module Startup.
Import JS Clock Host Records DeviceFlow LocalAuth.

(** [process.env]: a name has a string for value or none. *)
Definition Env : Type := JSString -> option JSString.

(** [mustGetEnv(name)]: the value, or the message of the error thrown. *)
Definition mustGetEnv (env : Env) (name : JSString) : JSString + JSString :=
  match env name with
  | Some (c :: r) => inl (c :: r)
  | _ => inr (lit "Missing env var: " ++ name)
  end.

Record Config : Type := mkConfig {
  clientId : JSString;
  clientSecret : JSString;
  tokenPath : JSString
}.

(** The first three statements of every [main]. *)
Definition readConfig (env : Env) : Config + JSString :=
  match mustGetEnv env (lit "GOOGLE_CLIENT_ID") with
  | inr message => inr message
  | inl id =>
      match mustGetEnv env (lit "GOOGLE_CLIENT_SECRET") with
      | inr message => inr message
      | inl secret =>
          inl (mkConfig id secret
                 (orElse (env (lit "GOOGLE_TOKEN_PATH")) (lit "./token.json")))
      end
  end.

(** [JSON.parse(await fs.readFile(path, 'utf8'))]: it throws, or gives
    [null] or an object of which the two token properties are read. *)
Inductive Stored : Type :=
| Unreadable
| Parsed (tokens : option Tokens).

Definition Files : Type := JSString -> Stored.

(** [tokens?.refresh_token || tokens?.access_token] *)
Definition usable (tokens : option Tokens) : bool :=
  match tokens with
  | Some tok => truthy (refresh_token tok) || truthy (access_token tok)
  | None => false
  end.

(** The outcome of the device flow as the caller awaits it. *)
Definition deviceOutcome (r : option FlowResult) : Outcome :=
  match r with
  | Some (Credential tok) => Granted tok
  | Some Failed => Rejected
  | Some TimedOut => Rejected
  | None => Waiting
  end.

(** How the poller comes by its credential. *)
Inductive Authorization : Type :=
| ConfigError (message : JSString)
| Authorized (credential : option Tokens) (written : option (JSString * Tokens))
| FlowRejected
| FlowWaiting.

(** [(process.env.GOOGLE_AUTH_METHOD || '').toLowerCase() === 'device'] *)
Definition useDevice (toLowerCase : JSString -> JSString) (env : Env) : bool :=
  str_eqb (toLowerCase (orEmpty (env (lit "GOOGLE_AUTH_METHOD")))) (lit "device").

(** The poller's [main] up to [google.classroom(...)]; [device] and [local]
    are what the two flows come to when started. *)
Definition authorize (toLowerCase : JSString -> JSString) (env : Env) (files : Files)
    (device local : Outcome) : Authorization :=
  match readConfig env with
  | inr message => ConfigError message
  | inl cfg =>
      let tokens := match files (tokenPath cfg) with
                    | Unreadable => None
                    | Parsed t => t
                    end in
      if usable tokens then Authorized tokens None
      else
        match (if useDevice toLowerCase env then device else local) with
        | Granted tok => Authorized (Some tok) (Some (tokenPath cfg, tok))
        | Rejected => FlowRejected
        | Waiting => FlowWaiting
        end
  end.



End Startup.

(* ================================================================== *)
(** ** The poller's report *)
(* ================================================================== *)

Module Report.
Import JS Clock Host Records.

(** Code that writes lines to the console and may throw: from the lines
    written so far to the lines written then, with the value when it did
    not throw. *)
Definition Console (A : Type) : Type := list JSString -> list JSString * option A.

Definition ret {A : Type} (a : A) : Console A := fun lines => (lines, Some a).

Definition bind {A B : Type} (c : Console A) (k : A -> Console B) : Console B :=
  fun lines =>
    match c lines with
    | (lines', Some a) => k a lines'
    | (lines', None) => (lines', None)
    end.

Definition throw {A : Type} : Console A := fun lines => (lines, None).

(** [console.log(line)] *)
Definition log (line : JSString) : Console unit := fun lines => (lines ++ [line], Some tt).

(** [for (const x of xs) { ... }] *)
Fixpoint forEach {A : Type} (body : A -> Console unit) (xs : list A) : Console unit :=
  match xs with
  | [] => ret tt
  | x :: rest => bind (body x) (fun _ => forEach body rest)
  end.

(** [await] of a list call, with [|| []] on its result. *)
Definition awaitList {A : Type} (f : Fetched A) : Console (list A) :=
  match f with
  | Threw => throw
  | Listed l => ret (orEmptyList l)
  end.

(** A value that throws when it is [None]. *)
Definition orThrow {A : Type} (v : option A) : Console A :=
  match v with
  | Some a => ret a
  | None => throw
  end.

(** A piece of coursework as the poller reads it. *)
Record PolledWork : Type := mkPolledWork {
  p_record : RawWorkItem;
  p_topicId : option JSString
}.

Record PolledFeed : Type := mkPolledFeed {
  p_course : Course;
  p_courseWork : Fetched PolledWork;
  p_announcements : Fetched RawAnnouncement
}.

(** A property in a template literal: its text, or "undefined". *)
Definition shown (s : option JSString) : JSString :=
  match s with
  | Some t => t
  | None => lit "undefined"
  end.

(** [format(d, "yyyy-MM-dd HH:mm 'KST'")]: the host's text for a valid
    date; it throws on an invalid one. *)
Definition formatted (formatLocal : Z -> JSString) (d : JsDate) : option JSString :=
  match d with
  | ValidDate t => Some (formatLocal t)
  | InvalidDate => None
  end.

Definition count (n : nat) : JSString := decimal (N.of_nat n).

Definition lineFeed : CodeUnit := 10%N.

Definition header (c : Course) : JSString :=
  lineFeed :: lit "# " ++ c_name c ++ lit " (id=" ++ c_id c ++ lit ")".

(** The line of a piece of coursework; [None] when [format] throws. *)
Definition workLine (formatLocal : Z -> JSString) (c : Course) (w : PolledWork)
  : option JSString :=
  let due := googleDueToDate (w_dueDate (p_record w)) (w_dueTime (p_record w))
                             defaultTzOffsetMinutes in
  let dueStr := match due with
                | Some d => formatted formatLocal d
                | None => Some (lit "NO_DUE")
                end in
  let topic := match p_topicId w with
               | Some (u :: r) => lit "(topicId:" ++ (u :: r) ++ lit ")"
               | _ => []
               end in
  let link := orEmpty (w_alternateLink (p_record w)) in
  match dueStr with
  | Some text =>
      Some (lit "- [CW] " ++ c_name c ++ lit " | " ++ text ++ lit " | "
              ++ shown (w_title (p_record w)) ++ lit " " ++ topic ++ lit " " ++ link)
  | None => None
  end.

(** [(a.text || '').replace(/\s+/g, ' ').slice(0, 120)] *)
Definition preview (text : option JSString) : JSString :=
  firstn 120 (collapseWhiteSpace (orEmpty text)).

(** The line of an announcement; [None] when [format] throws. *)
Definition announcementLine (formatLocal : Z -> JSString) (c : Course)
    (a : RawAnnouncement) : option JSString :=
  let whenStr := match whenIso (a_updateTime a) (a_creationTime a) with
                 | Some d => formatted formatLocal d
                 | None => Some []
                 end in
  match whenStr with
  | Some text =>
      Some (lit "- [ANN] " ++ c_name c ++ lit " | " ++ text ++ lit " | "
              ++ preview (a_text a))
  | None => None
  end.

(** One turn of [for (const c of courses)]. *)
Definition courseReport (formatLocal : Z -> JSString) (feed : PolledFeed)
  : Console unit :=
  let c := p_course feed in
  bind (log (header c)) (fun _ =>
  bind (awaitList (p_courseWork feed)) (fun works =>
  bind (log (lit "CourseWork: " ++ count (List.length works))) (fun _ =>
  bind (forEach (fun w => bind (orThrow (workLine formatLocal c w)) log) works) (fun _ =>
  bind (awaitList (p_announcements feed)) (fun anns =>
  bind (log (lit "Announcements: " ++ count (List.length anns))) (fun _ =>
  forEach (fun a => bind (orThrow (announcementLine formatLocal c a)) log) anns)))))).

(** [main] from [courses.list] on. *)
Definition report (formatLocal : Z -> JSString) (coursesRes : Fetched PolledFeed)
  : Console unit :=
  bind (awaitList coursesRes) (fun courses =>
  bind (log (lit "Courses: " ++ count (List.length courses))) (fun _ =>
  forEach (courseReport formatLocal) courses)).

(** The status the process ends with: [main().catch] exits with 1. *)
Definition exitStatus (run : list JSString * option unit) : Z :=
  match snd run with
  | Some _ => 0
  | None => 1
  end.

(** The records of a call that did not throw. *)
Definition listed {A : Type} (f : Fetched A) : list A :=
  match f with
  | Threw => []
  | Listed l => orEmptyList l
  end.

Definition didThrow {A : Type} (f : Fetched A) : bool :=
  match f with
  | Threw => true
  | Listed _ => false
  end.

(** The lines of a list of which no record throws. *)
Definition linesOf {A : Type} (line : A -> option JSString) (xs : list A)
  : list JSString :=
  flat_map (fun x => match line x with Some l => [l] | None => [] end) xs.

(** What a course adds to the report when nothing throws. *)
Definition blockOf (formatLocal : Z -> JSString) (feed : PolledFeed) : list JSString :=
  let c := p_course feed in
  [header c; lit "CourseWork: " ++ count (List.length (listed (p_courseWork feed)))]
    ++ linesOf (workLine formatLocal c) (listed (p_courseWork feed))
    ++ [lit "Announcements: " ++ count (List.length (listed (p_announcements feed)))]
    ++ linesOf (announcementLine formatLocal c) (listed (p_announcements feed)).

(** Neither call of the course throws, and no date of its records is
    invalid. *)
Definition reportable (formatLocal : Z -> JSString) (feed : PolledFeed) : bool :=
  negb (didThrow (p_courseWork feed)) &&
  negb (didThrow (p_announcements feed)) &&
  forallb (fun w => match workLine formatLocal (p_course feed) w with
                    | Some _ => true | None => false end)
          (listed (p_courseWork feed)) &&
  forallb (fun a => match announcementLine formatLocal (p_course feed) a with
                    | Some _ => true | None => false end)
          (listed (p_announcements feed)).

End Report.

(* ================================================================== *)
(** ** Due dates as the calendar orders them *)
(* ================================================================== *)

Module DueStamps.
Import JS Clock.

(** What a due date and time say: year, month, day, hour and minute, the
    time that is missing read as 23:59. *)
Definition dueStamp (dd : DueDate) (tm : option TimeOfDay) : list Z :=
  [year dd; month dd; day dd; hourOf tm; minuteOf tm].

(** The first difference decides, the smaller number standing first. *)
Fixpoint earlier (a b : list Z) : Prop :=
  match a, b with
  | x :: a', y :: b' => x < y \/ (x = y /\ earlier a' b')
  | _, _ => False
  end.

(** The date after the last day of month [m] of year [y], [d] days on. *)
Definition nextMonth (y m d : Z) : DueDate :=
  if m =? 12 then mkDueDate (y + 1) 1 d else mkDueDate y (m + 1) d.

End DueStamps.

(* ================================================================== *)
(** ** The stamps of the documents *)
(* ================================================================== *)

Module Stamps.
Import JS Clock Host Records DayBuilder.

(** The records of the feed that may be anchored on the clock: those that
    carry neither an update nor a creation time. *)
Definition timeless (u c : option JsDate) : bool :=
  match whenIso u c with
  | Some _ => false
  | None => true
  end.

Definition clockAnchored (feed : CourseFeed) : nat :=
  List.length (filter (fun w => timeless (w_updateTime w) (w_creationTime w))
                      (delivered (courseWork feed)))
  + List.length (filter (fun a => timeless (a_updateTime a) (a_creationTime a))
                        (delivered (announcements feed))).

(** The stamps of the documents in the order written: the day files, then
    the index. *)
Definition stamps (o : Output) : list IsoText :=
  map (fun f => generatedAt (snd f)) (dayFiles o)
  ++ [manifestGeneratedAt (indexFile o)].

End Stamps.

(* ================================================================== *)
(** ** Sample hosts and remote data *)
(* ================================================================== *)

Module Samples.
Import JS Clock Host Records.

(** A host with ICU collation whose Seoul zone keeps Korean Standard Time. *)
Definition icuHost : Services := mkServices rootCollation fixedKst.

Definition stillClock : ClockReadings := fun _ => 0.
Definition laterClock : ClockReadings := fun _ => 86400000.

(** 2024-01-02T03:04:05.000Z and one hour later. *)
Definition t0 : Z := 1704164645000.
Definition t1 : Z := t0 + 3600000.

Definition math : Course :=
  mkCourse (lit "101") (lit "Math") (Some (lit "https://classroom.example/c/101")).

Definition art : Course := mkCourse (lit "202") (lit "Art") None.

Definition work (nativeId workTitle : string) (updated : option Z) : RawWorkItem :=
  mkWork (lit nativeId) (Some (lit workTitle)) None None None None
         (option_map ValidDate updated) None.

Definition untitledWork (nativeId : string) (updated : Z) : RawWorkItem :=
  mkWork (lit nativeId) None None None None None (Some (ValidDate updated)) None.

Definition note (nativeId text : string) (updated : Z) : RawAnnouncement :=
  mkAnnouncement (lit nativeId) (Some (lit text)) (Some (ValidDate updated)) None.

Definition clockAt (t : Z) : ClockReadings := fun _ => t.

(** A disk that takes every write, and one that is full after the first. *)
Definition soundDisk : Disk := mkDisk true (fun _ => true).
Definition fullDisk : Disk := mkDisk true (fun n => Nat.eqb n 0).


(** A piece of coursework that carries neither an update nor a creation
    time. *)
Definition feedsUnstamped : list CourseFeed :=
  [mkFeed math (Listed (Some [work "1" "Essay" None])) (Listed None)].

(** A piece of coursework without a title, and one listed twice. *)
Definition feedsUntitled : list CourseFeed :=
  [mkFeed math (Listed (Some [untitledWork "1" t0])) (Listed None)].

Definition feedsRepeated : list CourseFeed :=
  [mkFeed math (Listed (Some [work "1" "Essay" (Some t0); work "1" "Essay" (Some t1)]))
          (Listed None)].

(** Coursework and an announcement of two courses. *)
Definition feedsTwoCourses : list CourseFeed :=
  [mkFeed math (Listed (Some [work "1" "Essay" (Some t0); work "2" "Quiz" (Some t1)]))
          (Listed (Some [note "1" "Bring  your book" t0]));
   mkFeed art Threw (Listed (Some [note "1" "Homework due Friday" t1]))].

(** A token endpoint that answers "authorization_pending" once and then
    grants, one that never grants, and a device code that leaves interval
    and expiry to their defaults. *)
Definition someTokens : DeviceFlow.Tokens :=
  DeviceFlow.mkTokens (Some (lit "ya29.a0")) (Some (lit "1//0g")).

Definition pendingReply : DeviceFlow.PollReply :=
  DeviceFlow.HttpError (Some (lit "authorization_pending")).

Definition grantsSecond : DeviceFlow.Endpoint :=
  DeviceFlow.mkEndpoint
    (fun n => match n with O => pendingReply | S _ => DeviceFlow.HttpOk someTokens end)
    (fun _ => 0).

Definition neverGrants : DeviceFlow.Endpoint :=
  DeviceFlow.mkEndpoint (fun _ => pendingReply) (fun _ => 0).

Definition defaultDevice : DeviceFlow.DeviceCode := DeviceFlow.mkDeviceCode None None.

Definition shortDevice : DeviceFlow.DeviceCode :=
  DeviceFlow.mkDeviceCode (Some 5) (Some 12).

(** Two pieces of coursework updated at the same instant, titled B and a. *)
Definition feedsBa : list CourseFeed :=
  [mkFeed math (Listed (Some [work "1" "B" (Some t0); work "2" "a" (Some t0)]))
          (Listed None)].

(** The group and the day file the day builder writes for them on a host
    with ICU collation. *)
Definition groupBa : DayBuilder.Group :=
  DayBuilder.mkGroup (lit "Math")
    [DayBuilder.mkItem (lit "cw:101:2") (Some (lit "a")) None None
                       (lit "COURSEWORK") t0;
     DayBuilder.mkItem (lit "cw:101:1") (Some (lit "B")) None None
                       (lit "COURSEWORK") t0].

Definition fileBa : JSString * DayBuilder.Snapshot :=
  (lit "2024-01-02", DayBuilder.mkSnapshot 0 (lit "2024-01-02") [groupBa]).

(** Lower case for ASCII letters. *)
Definition asciiLower (s : JSString) : JSString :=
  map (fun c => if isUpper c then (c + 32)%N else c) s.

(** Coursework with and without due dates, and a homework announcement. *)
Definition dueWork (nativeId workTitle : string) (due : option DueDate) : RawWorkItem :=
  mkWork (lit nativeId) (Some (lit workTitle)) None None due None
         (Some (ValidDate t0)) None.

Definition feedDue : CourseFeed :=
  mkFeed math
    (Listed (Some [dueWork "1" "Essay" None;
                   dueWork "2" "Quiz" (Some (mkDueDate 2024 3 9));
                   dueWork "3" "Lab" (Some (mkDueDate 2024 3 1))]))
    (Listed (Some [note "7" "Homework due Friday" t0])).

Definition flatGroupDue : FlatBuilder.Group :=
  FlatBuilder.courseGroup icuHost asciiLower feedDue.

End Samples.

Module DayFilesSamples.
Import JS Clock Host Records DayBuilder. Import DayFiles.

(** The item of the announcement of the art course, whose coursework call
    throws. *)
Definition artNoteItem : Item :=
  mkItem (lit "ann:202:1") (Some (lit "Homework due Friday")) None None
         (lit "ANNOUNCEMENT") Samples.t1.

(** A piece of coursework and an announcement whose timestamps cannot be
    read as dates. *)
Definition undatedWork : RawWorkItem :=
  mkWork (lit "9") (Some (lit "Lab")) None None None None (Some InvalidDate) None.

Definition undatedNote : RawAnnouncement :=
  mkAnnouncement (lit "9") (Some (lit "Quiz on Monday")) (Some InvalidDate) None.

End DayFilesSamples.

Module ReportSamples.
Import JS Clock Host Records. Import Report.

(** A course with one piece of coursework and one announcement, and a
    course whose coursework call throws. *)
Definition polledMath : PolledFeed :=
  mkPolledFeed Samples.math
    (Listed (Some [mkPolledWork (Samples.work "1" "Essay" (Some Samples.t0)) None]))
    (Listed (Some [Samples.note "1" "Bring  your book" Samples.t0])).

Definition polledArt : PolledFeed := mkPolledFeed Samples.art Threw (Listed None).

End ReportSamples.

(* ================================================================== *)
(** * Properties *)
(* ================================================================== *)

(** ** Strings and their order *)

Section LexFacts.
Import JS.

Lemma lexCompare_refl (s : list N) : lexCompare s s = Eq.
Proof.
  induction s as [|a s IH]; simpl; [reflexivity|].
  now rewrite N.compare_refl.
Qed.

Lemma lexCompare_eq (s t : list N) : lexCompare s t = Eq -> s = t.
Proof.
  revert t; induction s as [|a s IH]; intros [|b t]; simpl; try discriminate; auto.
  destruct (N.compare a b) eqn:E; try discriminate.
  apply N.compare_eq_iff in E. intros H. f_equal; auto.
Qed.

Lemma lexCompare_antisym (s t : list N) :
  lexCompare t s = CompOpp (lexCompare s t).
Proof.
  revert t; induction s as [|a s IH]; intros [|b t]; simpl; auto.
  rewrite (N.compare_antisym a b).
  destruct (N.compare a b); simpl; auto.
Qed.

Lemma lexCompare_trans_le (s t u : list N) :
  lexCompare s t <> Gt -> lexCompare t u <> Gt -> lexCompare s u <> Gt.
Proof.
  revert t u; induction s as [|a s IH]; intros [|b t] [|c u]; simpl;
    try congruence.
  destruct (N.compare a b) eqn:Eab; try congruence;
    destruct (N.compare b c) eqn:Ebc; try congruence; intros H1 H2.
  - apply N.compare_eq_iff in Eab; apply N.compare_eq_iff in Ebc; subst.
    rewrite N.compare_refl. eauto.
  - apply N.compare_eq_iff in Eab; subst. now rewrite Ebc.
  - apply N.compare_eq_iff in Ebc; subst. now rewrite Eab.
  - rewrite N.compare_lt_iff in Eab, Ebc.
    assert (E : (a ?= c)%N = Lt) by (apply N.compare_lt_iff; lia).
    now rewrite E.
Qed.

Lemma signOf_le0 (c : comparison) : signOf c <= 0 <-> c <> Gt.
Proof. destruct c; simpl; split; intros; try lia; congruence. Qed.

Lemma signOf_lt0 (c : comparison) : signOf c < 0 <-> c = Lt.
Proof. destruct c; simpl; split; intros; try lia; congruence. Qed.

Lemma signOf_opp (c : comparison) : Z.sgn (signOf (CompOpp c)) = - Z.sgn (signOf c).
Proof. destruct c; reflexivity. Qed.

Lemma str_eqb_eq (s t : JSString) : str_eqb s t = true <-> s = t.
Proof.
  revert t; induction s as [|a s IH]; intros [|b t]; simpl; split;
    try discriminate; auto.
  - intros H. apply andb_true_iff in H as [H1 H2].
    apply N.eqb_eq in H1. apply IH in H2. congruence.
  - intros H. injection H as -> ->. apply andb_true_iff; split.
    + apply N.eqb_refl.
    + now apply IH.
Qed.

Lemma str_eqb_refl (s : JSString) : str_eqb s s = true.
Proof. now apply str_eqb_eq. Qed.

Lemma str_eqb_neq (s t : JSString) : str_eqb s t = false <-> s <> t.
Proof.
  split.
  - intros H E. apply str_eqb_eq in E. congruence.
  - intros H. destruct (str_eqb s t) eqn:E; auto.
    apply str_eqb_eq in E. contradiction.
Qed.

(** Comparing through a key yields a consistent comparator. *)
Lemma keyed_collation_consistent (key : JSString -> list N) :
  Host.ConsistentCollation (fun s t => signOf (lexCompare (key s) (key t))).
Proof.
  split.
  - intros a b. rewrite (lexCompare_antisym (key a) (key b)).
    now destruct (lexCompare (key a) (key b)).
  - intros a b c H1 H2. rewrite signOf_le0 in *.
    eapply lexCompare_trans_le; eauto.
Qed.

Lemma rootCollation_consistent : Host.ConsistentCollation Host.rootCollation.
Proof. exact (keyed_collation_consistent Host.sortKey). Qed.

Lemma codeUnitCollation_consistent : Host.ConsistentCollation Host.codeUnitCollation.
Proof. exact (keyed_collation_consistent (fun s => s)). Qed.

End LexFacts.

(** ** Sorting with a consistent comparator *)

Section SortFacts.
Import JS.
Context {A : Type} (cmp : A -> A -> Z).

Hypothesis cmp_total : forall a b, cmp a b <= 0 \/ cmp b a <= 0.
Hypothesis cmp_trans : forall a b c, cmp a b <= 0 -> cmp b c <= 0 -> cmp a c <= 0.

Lemma insertSorted_perm (x : A) (l : list A) :
  Permutation (insertSorted cmp x l) (x :: l).
Proof.
  induction l as [|y r IH]; simpl; [apply Permutation_refl|].
  destruct (cmp x y <=? 0).
  - apply Permutation_refl.
  - eapply perm_trans; [apply perm_skip, IH | apply perm_swap].
Qed.

Lemma sort_perm (l : list A) : Permutation (sort cmp l) l.
Proof.
  induction l as [|x r IH]; simpl; [constructor|].
  eapply perm_trans; [apply insertSorted_perm | now apply perm_skip].
Qed.

Lemma insertSorted_sorted (x : A) (l : list A) :
  StronglySorted (notAfter cmp) l -> StronglySorted (notAfter cmp) (insertSorted cmp x l).
Proof.
  induction l as [|y r IH]; intros Hs; simpl.
  - constructor; constructor.
  - inversion Hs as [|? ? Hr Hy]; subst.
    destruct (cmp x y <=? 0) eqn:E.
    + apply Z.leb_le in E. constructor; [assumption|].
      constructor; [exact E|].
      rewrite Forall_forall in *. intros z Hz.
      eapply cmp_trans; [exact E | now apply Hy].
    + apply Z.leb_gt in E. constructor; [now apply IH|].
      rewrite Forall_forall in *. intros z Hz.
      apply (Permutation_in _ (insertSorted_perm x r)) in Hz.
      destruct Hz as [<- | Hz]; [|now apply Hy].
      destruct (cmp_total y x) as [H | H]; [exact H | unfold notAfter; lia].
Qed.

Lemma sort_sorted (l : list A) : StronglySorted (notAfter cmp) (sort cmp l).
Proof.
  induction l as [|x r IH]; simpl; [constructor|].
  now apply insertSorted_sorted.
Qed.

End SortFacts.

Section SortedPositions.
Context {A : Type} (R : A -> A -> Prop).

(** In a sorted list an earlier element is related to every later one. *)
Lemma StronglySorted_nth (l : list A) :
  StronglySorted R l ->
  forall i j a b, (i < j)%nat ->
    nth_error l i = Some a -> nth_error l j = Some b -> R a b.
Proof.
  induction 1 as [|x r Hr IH Hx]; intros i j a b Hij Hi Hj.
  - destruct i; discriminate.
  - destruct j as [|j]; [lia|]. simpl in Hj.
    destruct i as [|i]; simpl in Hi.
    + injection Hi as <-. rewrite Forall_forall in Hx.
      apply Hx. eapply nth_error_In; eauto.
    + apply (IH i j a b); [lia | assumption | assumption].
Qed.

End SortedPositions.

(** ** The calendar: from a civil date to a day number and back *)

Section CalendarFacts.
Import JS Clock.

Ltac div_lia := Z.div_mod_to_equations; lia.

Lemma DayFromYear_succ (y : Z) : DayFromYear (y + 1) = DayFromYear y + DaysInYear y.
Proof.
  unfold DayFromYear, DaysInYear, InLeapYear.
  destruct (y mod 4 =? 0) eqn:E4; destruct (y mod 100 =? 0) eqn:E100;
    destruct (y mod 400 =? 0) eqn:E400; cbn [andb orb negb];
    rewrite ?Z.eqb_eq, ?Z.eqb_neq in *;
    replace (y + 1 - 1970) with (y - 1969) by lia;
    replace (y + 1 - 1969) with (y - 1968) by lia;
    replace (y + 1 - 1901) with (y - 1900) by lia;
    replace (y + 1 - 1601) with (y - 1600) by lia; div_lia.
Qed.

Lemma DayFromYear_mono (y1 y2 : Z) : y1 <= y2 -> DayFromYear y1 <= DayFromYear y2.
Proof. unfold DayFromYear. intros H. div_lia. Qed.

(** [YearFromDay] finds the year the day lies in. *)
Lemma YearFromDay_spec (d : Z) :
  DayFromYear (YearFromDay d) <= d < DayFromYear (YearFromDay d + 1).
Proof.
  unfold YearFromDay.
  set (y := 1970 + 400 * d / 146097).
  assert (Hy : 146097 * (y - 1970) <= 400 * d < 146097 * (y - 1970) + 146097)
    by (unfold y; div_lia).
  clearbody y.
  destruct (d <? DayFromYear y) eqn:E1.
  - apply Z.ltb_lt in E1. replace (y - 1 + 1) with y by lia.
    split; [|lia]. unfold DayFromYear in *. div_lia.
  - apply Z.ltb_ge in E1.
    destruct (DayFromYear (y + 1) <=? d) eqn:E2.
    + apply Z.leb_le in E2. split; [lia|].
      unfold DayFromYear in *. div_lia.
    + apply Z.leb_gt in E2. lia.
Qed.

Lemma YearFromDay_unique (d y : Z) :
  DayFromYear y <= d < DayFromYear (y + 1) -> YearFromDay d = y.
Proof.
  intros H. pose proof (YearFromDay_spec d) as S.
  destruct (Z.lt_trichotomy (YearFromDay d) y) as [L | [E | G]]; [|exact E|].
  - pose proof (DayFromYear_mono (YearFromDay d + 1) y ltac:(lia)). lia.
  - pose proof (DayFromYear_mono (y + 1) (YearFromDay d) ltac:(lia)). lia.
Qed.

Ltac eval_monthStart :=
  repeat match goal with
         | |- context [monthStart ?l ?k] =>
             let v := eval vm_compute in (monthStart l k) in
             change (monthStart l k) with v
         end.

Ltac decide_tests :=
  repeat match goal with
         | |- context [?a <? ?b] => destruct (Z.ltb_spec a b); try lia
         end.

Ltac month_cases m :=
  assert (m = 1 \/ m = 2 \/ m = 3 \/ m = 4 \/ m = 5 \/ m = 6 \/ m = 7 \/
          m = 8 \/ m = 9 \/ m = 10 \/ m = 11 \/ m = 12) as C by lia.

(** The day number [MakeDay] gives a date that exists reads back as that
    date. *)
Lemma civil_roundtrip (y m d : Z) :
  1 <= m <= 12 -> 1 <= d <= daysInMonth y m ->
  let n := MakeDay y (m - 1) d in
  YearFromDay n = y /\ MonthFromDay n + 1 = m /\ DateFromDay n = d.
Proof.
  intros Hm Hd n.
  assert (Hn : n = DayFromYear y + monthStart (InLeapYear y) (m - 1) + d - 1).
  { unfold n, MakeDay. replace ((m - 1) / 12) with 0 by div_lia.
    replace ((m - 1) mod 12) with (m - 1) by div_lia.
    now rewrite Z.add_0_r. }
  assert (Hw : 0 <= monthStart (InLeapYear y) (m - 1) + d - 1 < DaysInYear y).
  { unfold DaysInYear, daysInMonth in *. month_cases m.
    destruct (InLeapYear y);
      repeat (destruct C as [-> | C]; [cbn in Hd; eval_monthStart; lia|]);
      subst; cbn in Hd; eval_monthStart; lia. }
  assert (Hy : YearFromDay n = y).
  { apply YearFromDay_unique. rewrite DayFromYear_succ. lia. }
  assert (Hmo : MonthFromDay n = m - 1).
  { unfold MonthFromDay, DayWithinYear. rewrite Hy.
    replace (n - DayFromYear y) with (monthStart (InLeapYear y) (m - 1) + d - 1) by lia.
    clear Hw Hy Hn n. unfold daysInMonth in Hd. month_cases m.
    destruct (InLeapYear y);
      repeat (destruct C as [-> | C];
              [cbn in Hd; eval_monthStart; decide_tests|]);
      subst; cbn in Hd; eval_monthStart; decide_tests. }
  split; [exact Hy|]. split; [lia|].
  unfold DateFromDay, DayWithinYear. rewrite Hmo, Hy. lia.
Qed.

(** Shifting a civil time by an offset and back stays within its day. *)
Lemma local_day (n time off : Z) :
  0 <= time < msPerDay -> (MakeDate n time - off + off) / msPerDay = n.
Proof.
  unfold MakeDate, msPerDay. intros H.
  replace (n * 86400000 + time - off + off) with (time + n * 86400000) by lia.
  rewrite Z.div_add by lia. rewrite Z.div_small by lia. lia.
Qed.

Lemma checkRange_sound (P : Z -> bool) (lo hi : Z) :
  checkRange P lo hi = true ->
  forall z, lo <= z <= hi -> P z = true.
Proof.
  unfold checkRange. rewrite forallb_forall. intros H z Hz.
  replace z with (lo + Z.of_nat (Z.to_nat (z - lo))) by lia.
  apply H. apply in_seq. lia.
Qed.

Lemma numericYear_four (y : Z) :
  1000 <= y <= 9999 -> numericYear y = pad 4 (decimal (Z.to_N y)).
Proof.
  intros H. apply str_eqb_eq.
  apply (checkRange_sound
           (fun z => str_eqb (numericYear z) (pad 4 (decimal (Z.to_N z))))
           1000 9999); [vm_compute; reflexivity | lia].
Qed.

Lemma twoDigit_pad (n : Z) :
  1 <= n <= 99 -> twoDigit n = pad 2 (decimal (Z.to_N n)).
Proof.
  intros H. apply str_eqb_eq.
  apply (checkRange_sound
           (fun z => str_eqb (twoDigit z) (pad 2 (decimal (Z.to_N z))))
           1 99); [vm_compute; reflexivity | lia].
Qed.

Lemma DayFromYear_bounds (y : Z) :
  1000 <= y <= 9999 -> -400000 <= DayFromYear y <= 3000000.
Proof. unfold DayFromYear. intros. div_lia. Qed.

Lemma daysInMonth_bounds (y m : Z) : 28 <= daysInMonth y m <= 31.
Proof.
  unfold daysInMonth.
  destruct (m =? 2); [destruct (InLeapYear y); lia|].
  destruct ((m =? 4) || (m =? 6) || (m =? 9) || (m =? 11)); lia.
Qed.

End CalendarFacts.

(** ** Due dates and day keys *)

Section DueDateFacts.
Import JS Clock.

Lemma due_instant (dd : DueDate) (tm : option TimeOfDay) :
  1000 <= year dd <= 9999 -> validDate dd -> validTime tm ->
  googleDueToDate (Some dd) tm defaultTzOffsetMinutes =
    Some (ValidDate (MakeDate (MakeDay (year dd) (month dd - 1) (day dd))
                              (MakeTime (hourOf tm) (minuteOf tm) 0 0)
                     - kstOffset)).
Proof.
  intros Hy [Hm Hd] [Hh Hmi].
  pose proof (daysInMonth_bounds (year dd) (month dd)) as Hdm.
  pose proof (DayFromYear_bounds (year dd) Hy) as Hb.
  assert (Hms : 0 <= monthStart (InLeapYear (year dd)) (month dd - 1) <= 335).
  { unfold monthStart. destruct (InLeapYear (year dd));
      repeat match goal with
             | |- context [if ?b then _ else _] => destruct b
             end; lia. }
  assert (Hday : MakeDay (year dd) (month dd - 1) (day dd)
                 = DayFromYear (year dd)
                   + monthStart (InLeapYear (year dd)) (month dd - 1) + day dd - 1).
  { unfold MakeDay. replace ((month dd - 1) / 12) with 0
      by (Z.div_mod_to_equations; lia).
    replace ((month dd - 1) mod 12) with (month dd - 1)
      by (Z.div_mod_to_equations; lia).
    now rewrite Z.add_0_r. }
  unfold googleDueToDate, DateUTC, MakeFullYear.
  replace ((0 <=? year dd) && (year dd <=? 99)) with false
    by (symmetry; apply andb_false_iff; right; apply Z.leb_gt; lia).
  unfold newDate, TimeClip, defaultTzOffsetMinutes, kstOffset.
  rewrite Hday. unfold MakeDate, MakeTime, msPerDay, msPerHour, msPerMinute.
  set (n := DayFromYear (year dd)
            + monthStart (InLeapYear (year dd)) (month dd - 1) + day dd - 1) in *.
  assert (Hn : -400000 <= n <= 3000400) by (unfold n; lia).
  clearbody n.
  repeat match goal with
         | |- context [Z.abs ?x <=? ?b] =>
             replace (Z.abs x <=? b) with true by (symmetry; apply Z.leb_le; lia)
         end.
  reflexivity.
Qed.

(** C2, as amended: a due date of a four-digit year, read at the default
    offset of 540 minutes, and keyed in a Seoul zone that stands 540 minutes
    east of UTC at that instant, gives back its own calendar day as
    YYYY-MM-DD, whatever valid time of day comes with it; and the date
    2024-03-01 without a time gives the instant 2024-03-01T14:59:00Z. *)
Theorem due_date_day_key_roundtrip
    (zone : Z -> Z) (dd : DueDate) (tm : option TimeOfDay) :
  1000 <= year dd <= 9999 -> validDate dd -> validTime tm ->
  exists t,
    googleDueToDate (Some dd) tm defaultTzOffsetMinutes = Some (ValidDate t) /\
    (zone t = kstOffset ->
     kstDayKey zone (ValidDate t) = Some (isoDay (year dd) (month dd) (day dd))) /\
    (dd = mkDueDate 2024 3 1 -> tm = None ->
     t = 1709305140000 /\ DateUTC 2024 2 1 14 59 = Some t).
Proof.
  intros Hy Hv Ht.
  eexists. split; [apply due_instant; assumption|].
  destruct Hv as [Hm Hd]. pose proof Ht as [Hh Hmi]. split.
  - intros Hz. unfold kstDayKey. rewrite Hz. f_equal.
    rewrite local_day
      by (unfold MakeTime, msPerDay, msPerHour, msPerMinute; lia).
    pose proof (daysInMonth_bounds (year dd) (month dd)) as Hdm.
    destruct (civil_roundtrip (year dd) (month dd) (day dd) Hm Hd) as (E1 & E2 & E3).
    unfold formatDay, isoDay. rewrite E1, E2, E3.
    rewrite numericYear_four by assumption.
    rewrite (twoDigit_pad (month dd)) by lia.
    rewrite (twoDigit_pad (day dd)) by lia. reflexivity.
  - intros -> ->. vm_compute. split; reflexivity.
Qed.

Lemma due_date_day_key_roundtrip_witness :
  exists t,
    googleDueToDate (Some (mkDueDate 2024 3 1)) None defaultTzOffsetMinutes
      = Some (ValidDate t) /\
    (fixedKst t = kstOffset ->
     kstDayKey fixedKst (ValidDate t) = Some (isoDay 2024 3 1)) /\
    (mkDueDate 2024 3 1 = mkDueDate 2024 3 1 -> @None TimeOfDay = None ->
     t = 1709305140000 /\ DateUTC 2024 2 1 14 59 = Some t).
Proof.
  apply (due_date_day_key_roundtrip fixedKst (mkDueDate 2024 3 1) None).
  - vm_compute; split; discriminate.
  - vm_compute; repeat split; discriminate.
  - vm_compute; repeat split; discriminate.
Defined.

(** C2, as stated, fails: the date 2024-03-01 without a time is not read as
    the instant 2024-02-29T14:59:00Z, and the day key of that instant nine
    hours east of UTC is 2024-02-29; and a year below 100 is read as a year
    of the twentieth century. *)
Lemma due_date_example_instant_differs :
  googleDueToDate (Some (mkDueDate 2024 3 1)) None defaultTzOffsetMinutes
    <> Some (newDate (DateUTC 2024 1 29 14 59)) /\
  kstDayKey fixedKst (newDate (DateUTC 2024 1 29 14 59)) = Some (lit "2024-02-29") /\
  (exists t,
      googleDueToDate (Some (mkDueDate 50 3 1)) None defaultTzOffsetMinutes
        = Some (ValidDate t) /\
      kstDayKey fixedKst (ValidDate t) = Some (lit "1950-03-01") /\
      kstDayKey fixedKst (ValidDate t) <> Some (isoDay 50 3 1)).
Proof.
  split; [vm_compute; discriminate|].
  split; [vm_compute; reflexivity|].
  eexists. split; [vm_compute; reflexivity|].
  split; [vm_compute; reflexivity | vm_compute; discriminate].
Qed.

(** A year of three digits is printed with three digits. *)
Example three_digit_year :
  exists t,
    googleDueToDate (Some (mkDueDate 999 3 1)) None defaultTzOffsetMinutes
      = Some (ValidDate t) /\
    kstDayKey fixedKst (ValidDate t) = Some (lit "999-03-01").
Proof. eexists. split; [vm_compute; reflexivity | vm_compute; reflexivity]. Qed.

End DueDateFacts.

(** ** Maps in insertion order *)

Section MapFacts.
Import JS.
Context {V : Type}.

Lemma has_In (k : JSString) (m : JSMap.t V) :
  JSMap.has k m = true <-> In k (JSMap.keys m).
Proof.
  induction m as [|[k' v] r IH]; simpl; [split; [discriminate | tauto]|].
  rewrite orb_true_iff, IH, str_eqb_eq. intuition congruence.
Qed.

Lemma has_false (k : JSString) (m : JSMap.t V) :
  JSMap.has k m = false <-> ~ In k (JSMap.keys m).
Proof.
  rewrite <- has_In. destruct (JSMap.has k m); split; congruence.
Qed.

Lemma get_has (k : JSString) (m : JSMap.t V) :
  JSMap.has k m = true -> exists v, JSMap.get k m = Some v.
Proof.
  induction m as [|[k' v] r IH]; simpl; [discriminate|].
  destruct (str_eqb k k'); simpl; eauto.
Qed.

Lemma get_In (k : JSString) (v : V) (m : JSMap.t V) :
  JSMap.get k m = Some v -> In (k, v) m.
Proof.
  induction m as [|[k' v'] r IH]; simpl; [discriminate|].
  destruct (str_eqb k k') eqn:E.
  - apply str_eqb_eq in E. intros [= ->]. left; congruence.
  - auto.
Qed.

Lemma In_get (k : JSString) (v : V) (m : JSMap.t V) :
  NoDup (JSMap.keys m) -> In (k, v) m -> JSMap.get k m = Some v.
Proof.
  induction m as [|[k' v'] r IH]; simpl; [tauto|].
  intros Hnd [H | H].
  - injection H as -> ->. now rewrite str_eqb_refl.
  - inversion Hnd as [|? ? Hn Hr]; subst.
    destruct (str_eqb k k') eqn:E; [|auto].
    apply str_eqb_eq in E; subst. exfalso. apply Hn.
    apply (in_map fst) in H. exact H.
Qed.

(** Setting a key that is absent appends the entry. *)
Lemma set_absent (k : JSString) (v : V) (m : JSMap.t V) :
  JSMap.has k m = false -> JSMap.set k v m = m ++ [(k, v)].
Proof.
  induction m as [|[k' v'] r IH]; simpl; [reflexivity|].
  destruct (str_eqb k k'); simpl; [discriminate|].
  intros H. now rewrite IH.
Qed.

(** Setting a key that is present replaces the value where the entry is. *)
Lemma set_present (k : JSString) (v v0 : V) (m : JSMap.t V) :
  JSMap.get k m = Some v0 ->
  exists m1 m2, m = m1 ++ (k, v0) :: m2 /\ JSMap.set k v m = m1 ++ (k, v) :: m2.
Proof.
  induction m as [|[k' v'] r IH]; simpl; [discriminate|].
  destruct (str_eqb k k') eqn:E.
  - apply str_eqb_eq in E; subst. intros [= ->]. now exists [], r.
  - intros H. destruct (IH H) as (m1 & m2 & -> & ->).
    now exists ((k', v') :: m1), m2.
Qed.

Lemma get_set_same (k : JSString) (v : V) (m : JSMap.t V) :
  JSMap.get k (JSMap.set k v m) = Some v.
Proof.
  induction m as [|[k' v'] r IH]; simpl.
  - now rewrite str_eqb_refl.
  - destruct (str_eqb k k') eqn:E; simpl; rewrite E; auto.
Qed.

Lemma has_set_same (k : JSString) (v : V) (m : JSMap.t V) :
  JSMap.has k (JSMap.set k v m) = true.
Proof.
  induction m as [|[k' v'] r IH]; simpl.
  - now rewrite str_eqb_refl.
  - destruct (str_eqb k k') eqn:E; simpl; rewrite E; auto.
Qed.

Lemma keys_app (m1 m2 : JSMap.t V) :
  JSMap.keys (m1 ++ m2) = JSMap.keys m1 ++ JSMap.keys m2.
Proof. apply map_app. Qed.

End MapFacts.

(** ** The buckets of the day builder *)

Section BucketFacts.
Import JS Clock Host Records DayBuilder.

Lemma set_set {V : Type} (k : JSString) (v v' : V) (m : JSMap.t V) :
  JSMap.set k v (JSMap.set k v' m) = JSMap.set k v m.
Proof.
  induction m as [|[k' w] r IH]; simpl.
  - now rewrite str_eqb_refl.
  - destruct (str_eqb k k') eqn:E; simpl; rewrite E; [reflexivity|].
    now rewrite IH.
Qed.

(** What [pushItem] does to the buckets: a new day goes last with its one
    course, a new course goes last in its day, and otherwise the item goes
    last in the array of its course; nothing else moves. *)
Lemma pushItem_cases (dk cn : JSString) (it : Item) (b : Buckets) :
  (JSMap.has dk b = false /\ pushItem dk cn it b = b ++ [(dk, [(cn, [it])])])
  \/ (exists b1 b2 bc,
        b = b1 ++ (dk, bc) :: b2 /\ JSMap.has cn bc = false /\
        pushItem dk cn it b = b1 ++ (dk, bc ++ [(cn, [it])]) :: b2)
  \/ (exists b1 b2 bc1 bc2 its,
        b = b1 ++ (dk, bc1 ++ (cn, its) :: bc2) :: b2 /\
        pushItem dk cn it b = b1 ++ (dk, bc1 ++ (cn, its ++ [it]) :: bc2) :: b2).
Proof.
  unfold pushItem.
  destruct (JSMap.has dk b) eqn:Hd.
  - right. destruct (get_has dk b Hd) as [bc Hg]. rewrite Hg.
    destruct (set_present dk (if JSMap.has cn bc then bc else JSMap.set cn [] bc)
                bc b Hg) as (b1 & b2 & Hb & _).
    destruct (JSMap.has cn bc) eqn:Hc.
    + right. destruct (get_has cn bc Hc) as [its Hi]. rewrite Hi.
      destruct (set_present cn (its ++ [it]) its bc Hi) as (bc1 & bc2 & Hbc & Hs).
      destruct (set_present dk (JSMap.set cn (its ++ [it]) bc) bc b Hg)
        as (b1' & b2' & Hb' & Hs').
      exists b1', b2', bc1, bc2, its. rewrite Hs'. rewrite Hs.
      split; [now rewrite <- Hbc|reflexivity].
    + left. rewrite get_set_same, set_set.
      destruct (set_present dk (JSMap.set cn ([] ++ [it]) bc) bc b Hg)
        as (b1' & b2' & Hb' & Hs').
      exists b1', b2', bc. rewrite Hs'. rewrite (set_absent cn _ bc Hc).
      auto.
  - left. split; [reflexivity|].
    rewrite get_set_same. simpl. rewrite str_eqb_refl. simpl.
    rewrite set_set. now apply set_absent.
Qed.

Lemma allItems_entry (b1 b2 : Buckets) (dk : JSString) (bc : JSMap.t (list Item)) :
  allItems (b1 ++ (dk, bc) :: b2) = allItems b1 ++ flat_map snd bc ++ allItems b2.
Proof. unfold allItems. rewrite flat_map_app. reflexivity. Qed.

Lemma perm_insert {A : Type} (x : A) (l l1 l2 r : list A) :
  l = l1 ++ x :: l2 -> r = l1 ++ l2 -> Permutation l (x :: r).
Proof. intros -> ->. apply Permutation_sym, Permutation_middle. Qed.

(** The items held after a push are those held before and the new one. *)
Lemma pushItem_allItems (dk cn : JSString) (it : Item) (b : Buckets) :
  Permutation (allItems (pushItem dk cn it b)) (it :: allItems b).
Proof.
  destruct (pushItem_cases dk cn it b)
    as [[_ ->] | [(b1 & b2 & bc & -> & _ & ->) | (b1 & b2 & bc1 & bc2 & its & -> & ->)]].
  - apply (perm_insert it _ (allItems b) []).
    + unfold allItems. rewrite flat_map_app. reflexivity.
    + now rewrite app_nil_r.
  - rewrite !allItems_entry, flat_map_app. simpl.
    apply (perm_insert it _ (allItems b1 ++ flat_map snd bc) (allItems b2)).
    + now rewrite <- !app_assoc.
    + now rewrite <- !app_assoc.
  - rewrite !allItems_entry, !flat_map_app. simpl.
    apply (perm_insert it _ (allItems b1 ++ flat_map snd bc1 ++ its)
                       (flat_map snd bc2 ++ allItems b2)).
    + now rewrite <- !app_assoc.
    + now rewrite <- !app_assoc.
Qed.

Lemma keys_entry {V : Type} (m1 m2 : JSMap.t V) (k : JSString) (v : V) :
  JSMap.keys (m1 ++ (k, v) :: m2) = JSMap.keys m1 ++ k :: JSMap.keys m2.
Proof. unfold JSMap.keys. now rewrite map_app. Qed.

Lemma NoDup_snoc {A : Type} (l : list A) (x : A) :
  NoDup l -> ~ In x l -> NoDup (l ++ [x]).
Proof.
  intros Hl Hx. apply (Permutation_NoDup (l := x :: l)).
  - apply Permutation_cons_append.
  - now constructor.
Qed.

Lemma groupOk_push (h : Services) (dk : JSString) (its : list Item) (it : Item) :
  kstDayKey (seoulOffset h) (ValidDate (createdAt it)) = Some dk ->
  (its = [] \/ groupOk h dk its) -> groupOk h dk (its ++ [it]).
Proof.
  intros Hk Hg. split.
  - destruct its; discriminate.
  - intros x Hx. apply in_app_or in Hx as [Hx | [<- | []]]; [|exact Hk].
    destruct Hg as [-> | [_ Hg]]; [destruct Hx | now apply Hg].
Qed.

(** A push under the day key of the item's anchor keeps the buckets well
    formed. *)
Lemma pushItem_ok (h : Services) (dk cn : JSString) (it : Item) (b : Buckets) :
  kstDayKey (seoulOffset h) (ValidDate (createdAt it)) = Some dk ->
  bucketsOk h b -> bucketsOk h (pushItem dk cn it b).
Proof.
  intros Hk [Hnd Hall].
  destruct (pushItem_cases dk cn it b)
    as [[Habs ->] | [(b1 & b2 & bc & -> & Habs & ->)
                    | (b1 & b2 & bc1 & bc2 & its & -> & ->)]].
  - split.
    + rewrite keys_app. simpl. apply NoDup_snoc; [exact Hnd|].
      now apply has_false.
    + intros e He. apply in_app_or in He as [He | [<- | []]]; [now apply Hall|].
      simpl. repeat split.
      * simpl. constructor; [intros []|constructor].
      * discriminate.
      * destruct H as [<- | []]. simpl. discriminate.
      * destruct H as [<- | []]. simpl. intros x [<- | []]. exact Hk.
  - split.
    + rewrite keys_entry in *. exact Hnd.
    + intros e He.
      assert (Hold : dayOk h dk bc)
        by (apply (Hall (dk, bc)); apply in_elt).
      apply in_app_or in He as [He | [<- | He]].
      * apply Hall. apply in_or_app. now left.
      * simpl. destruct Hold as (Hk1 & _ & Hk3). repeat split.
        -- rewrite keys_app. simpl. apply NoDup_snoc; [exact Hk1|].
           now apply has_false.
        -- destruct bc; discriminate.
        -- apply in_app_or in H as [H | [<- | []]];
             [now apply Hk3 | simpl; discriminate].
        -- apply in_app_or in H as [H | [<- | []]]; [now apply Hk3|].
           simpl. intros x [<- | []]. exact Hk.
      * apply Hall. apply in_or_app. right. now right.
  - split.
    + rewrite keys_entry in *. exact Hnd.
    + intros e He.
      assert (Hold : dayOk h dk (bc1 ++ (cn, its) :: bc2))
        by (apply (Hall (dk, bc1 ++ (cn, its) :: bc2)); apply in_elt).
      apply in_app_or in He as [He | [<- | He]].
      * apply Hall. apply in_or_app. now left.
      * simpl. destruct Hold as (Hk1 & _ & Hk3). split; [|split].
        -- rewrite keys_entry in *. exact Hk1.
        -- destruct bc1; discriminate.
        -- intros e He. apply in_app_or in He as [He | [<- | He]].
           ++ apply Hk3. apply in_or_app. now left.
           ++ simpl. apply groupOk_push; [exact Hk|]. right.
              apply (Hk3 (cn, its)). apply in_elt.
           ++ apply Hk3. apply in_or_app. right. now right.
      * apply Hall. apply in_or_app. right. now right.
Qed.

Lemma initial_ok (h : Services) : bucketsOk h (dayBuckets initial).
Proof. split; [constructor | intros e []]. Qed.

End BucketFacts.

(** ** The comparators *)

Section ComparatorFacts.
Import JS Clock Host Records.

Variable h : Services.
Hypothesis collation : ConsistentCollation (localeCompare h).

Lemma collation_total (s t : JSString) :
  localeCompare h s t <= 0 \/ localeCompare h t s <= 0.
Proof.
  pose proof (collation_antisym _ collation s t) as E.
  destruct (Z.sgn_spec (localeCompare h s t)) as [[? ?]|[[? ?]|[? ?]]];
    destruct (Z.sgn_spec (localeCompare h t s)) as [[? ?]|[[? ?]|[? ?]]]; lia.
Qed.

Lemma collation_strict (s t : JSString) :
  localeCompare h s t < 0 -> ~ localeCompare h t s <= 0.
Proof.
  pose proof (collation_antisym _ collation s t) as E.
  destruct (Z.sgn_spec (localeCompare h s t)) as [[? ?]|[[? ?]|[? ?]]];
    destruct (Z.sgn_spec (localeCompare h t s)) as [[? ?]|[[? ?]|[? ?]]]; lia.
Qed.

Lemma day_compare_total (a b : DayBuilder.Item) :
  DayBuilder.compareItems h a b <= 0 \/ DayBuilder.compareItems h b a <= 0.
Proof.
  unfold DayBuilder.compareItems.
  destruct (Z.eqb_spec (DayBuilder.createdAt a) (DayBuilder.createdAt b)) as [E | E].
  - rewrite E, Z.eqb_refl. simpl. apply collation_total.
  - replace (DayBuilder.createdAt b =? DayBuilder.createdAt a) with false
      by (symmetry; apply Z.eqb_neq; congruence).
    simpl. lia.
Qed.

Lemma day_compare_trans (a b c : DayBuilder.Item) :
  DayBuilder.compareItems h a b <= 0 -> DayBuilder.compareItems h b c <= 0 ->
  DayBuilder.compareItems h a c <= 0.
Proof.
  unfold DayBuilder.compareItems.
  destruct (Z.eqb_spec (DayBuilder.createdAt a) (DayBuilder.createdAt b)) as [Eab | Eab];
    destruct (Z.eqb_spec (DayBuilder.createdAt b) (DayBuilder.createdAt c)) as [Ebc | Ebc];
    destruct (Z.eqb_spec (DayBuilder.createdAt a) (DayBuilder.createdAt c)) as [Eac | Eac];
    simpl; try lia.
  apply collation_trans. exact collation.
Qed.

(** A group sorted by the day builder's comparator is newest first, titles
    in the order of the host's collation. *)
Lemma day_sort_newestFirst (its : list DayBuilder.Item) :
  DayBuilder.newestFirst (DayBuilder.collatesBefore h)
    (sort (DayBuilder.compareItems h) its).
Proof.
  pose proof (sort_sorted (DayBuilder.compareItems h)
                day_compare_total day_compare_trans its) as Hs.
  pose proof (StronglySorted_nth _ _ Hs) as Hn.
  intros i j a b Ha Hb.
  assert (Hback : (j < i)%nat -> DayBuilder.compareItems h b a <= 0)
    by (intros Hji; exact (Hn j i b a Hji Hb Ha)).
  assert (Hsame : i = j -> a = b) by (intros ->; congruence).
  unfold DayBuilder.compareItems in Hback. split.
  - intros Hlt. destruct (Nat.lt_trichotomy i j) as [L | [E | G]]; [exact L| |].
    + apply Hsame in E. subst. lia.
    + specialize (Hback G).
      replace (DayBuilder.createdAt b =? DayBuilder.createdAt a) with false in Hback
        by (symmetry; apply Z.eqb_neq; lia).
      simpl in Hback. lia.
  - intros Heq Hlt. unfold DayBuilder.collatesBefore in Hlt.
    destruct (Nat.lt_trichotomy i j) as [L | [E | G]]; [exact L| |].
    + apply Hsame in E. subst.
      exfalso. apply (collation_strict _ _ Hlt). lia.
    + specialize (Hback G). rewrite Heq, Z.eqb_refl in Hback. simpl in Hback.
      exfalso. now apply (collation_strict _ _ Hlt).
Qed.

Lemma flat_compare_total (a b : FlatBuilder.Item) :
  FlatBuilder.compareItems h a b <= 0 \/ FlatBuilder.compareItems h b a <= 0.
Proof.
  unfold FlatBuilder.compareItems, FlatBuilder.dueKey.
  destruct (FlatBuilder.dueAt a) as [s|], (FlatBuilder.dueAt b) as [t|]; simpl;
    try (apply collation_total); try lia.
  destruct (Z.eqb_spec s t) as [E | E].
  - subst. rewrite Z.eqb_refl. simpl. apply collation_total.
  - replace (t =? s) with false by (symmetry; apply Z.eqb_neq; congruence).
    simpl. lia.
Qed.

Lemma flat_compare_trans (a b c : FlatBuilder.Item) :
  FlatBuilder.compareItems h a b <= 0 -> FlatBuilder.compareItems h b c <= 0 ->
  FlatBuilder.compareItems h a c <= 0.
Proof.
  unfold FlatBuilder.compareItems, FlatBuilder.dueKey.
  destruct (FlatBuilder.dueAt a) as [s|], (FlatBuilder.dueAt b) as [t|],
           (FlatBuilder.dueAt c) as [u|]; simpl; try lia;
    try (apply collation_trans; exact collation).
  destruct (Z.eqb_spec s t), (Z.eqb_spec t u), (Z.eqb_spec s u); simpl; try lia.
  apply collation_trans; exact collation.
Qed.

Lemma flat_sort_dueFirst (its : list FlatBuilder.Item) :
  FlatBuilder.dueFirst h (sort (FlatBuilder.compareItems h) its).
Proof.
  pose proof (sort_sorted (FlatBuilder.compareItems h)
                flat_compare_total flat_compare_trans its) as Hs.
  pose proof (StronglySorted_nth _ _ Hs) as Hn.
  intros i j a b Ha Hb.
  assert (Hback : (j < i)%nat -> FlatBuilder.compareItems h b a <= 0)
    by (intros Hji; exact (Hn j i b a Hji Hb Ha)).
  assert (Hsame : i = j -> a = b) by (intros ->; congruence).
  unfold FlatBuilder.compareItems, FlatBuilder.dueKey in Hback.
  repeat split.
  - intros Hda Hdb. destruct (Nat.lt_trichotomy i j) as [L | [E | G]]; [exact L| |].
    + apply Hsame in E. subst. congruence.
    + specialize (Hback G). rewrite Hdb in Hback.
      destruct (FlatBuilder.dueAt a); [simpl in Hback; lia | congruence].
  - intros s t Hda Hdb Hlt.
    destruct (Nat.lt_trichotomy i j) as [L | [E | G]]; [exact L| |].
    + apply Hsame in E. subst. rewrite Hda in Hdb. injection Hdb as ->. lia.
    + specialize (Hback G). rewrite Hda, Hdb in Hback. simpl in Hback.
      replace (t =? s) with false in Hback by (symmetry; apply Z.eqb_neq; lia).
      simpl in Hback. lia.
  - intros Heq Hlt.
    destruct (Nat.lt_trichotomy i j) as [L | [E | G]]; [exact L| |].
    + apply Hsame in E. subst. exfalso. apply (collation_strict _ _ Hlt).
      unfold FlatBuilder.titleOf in *. lia.
    + specialize (Hback G). rewrite Heq in Hback.
      assert (Hc : localeCompare h (FlatBuilder.titleOf b) (FlatBuilder.titleOf a) <= 0).
      { destruct (FlatBuilder.dueAt b); simpl in Hback;
          rewrite ?Z.eqb_refl in Hback; exact Hback. }
      exfalso. now apply (collation_strict _ _ Hlt).
Qed.

End ComparatorFacts.

(** ** The loops of the day builder *)

Section DayBuilderFacts.
Import JS Clock Host Records DayBuilder.

Variable h : Services.
Variable clock : ClockReadings.

Lemma courseWorkItem_key (c : Course) (w : RawWorkItem) (when : JsDate)
    (dk : JSString) (it : Item) :
  courseWorkItem h c w when = Some (dk, it) ->
  kstDayKey (seoulOffset h) (ValidDate (createdAt it)) = Some dk /\
  when = ValidDate (createdAt it).
Proof.
  unfold courseWorkItem.
  destruct when as [t|]; simpl; [|discriminate].
  destruct (dueText _); [|discriminate].
  intros [= <- <-]. simpl. auto.
Qed.

Lemma announcementItem_key (c : Course) (a : RawAnnouncement) (txt : JSString)
    (when : JsDate) (dk : JSString) (it : Item) :
  announcementItem h c a txt when = Some (dk, it) ->
  kstDayKey (seoulOffset h) (ValidDate (createdAt it)) = Some dk /\
  when = ValidDate (createdAt it).
Proof.
  unfold announcementItem.
  destruct when as [t|]; simpl; [|discriminate].
  intros [= <- <-]. simpl. auto.
Qed.

(** A property of the buckets that every well-keyed push keeps is kept by
    the loops. *)
Section Preserved.
Variable P : Buckets -> Prop.
Hypothesis P_push : forall dk cn it b,
    kstDayKey (seoulOffset h) (ValidDate (createdAt it)) = Some dk ->
    P b -> P (pushItem dk cn it b).

Lemma courseWorkLoop_keeps (c : Course) (ws : list RawWorkItem) (st : RunState) :
  P (dayBuckets st) -> P (dayBuckets (courseWorkLoop h clock c ws st)).
Proof.
  revert st. induction ws as [|w rest IH]; intros st Hst; simpl; [exact Hst|].
  destruct (anchorDate clock (tick st) (w_updateTime w) (w_creationTime w))
    as [when n].
  destruct (courseWorkItem h c w when) as [[dk it]|] eqn:E; [|exact Hst].
  apply IH. simpl. apply P_push; [|exact Hst].
  now apply courseWorkItem_key in E.
Qed.

Lemma announcementLoop_keeps (c : Course) (anns : list RawAnnouncement)
    (st : RunState) :
  P (dayBuckets st) -> P (dayBuckets (announcementLoop h clock c anns st)).
Proof.
  revert st. induction anns as [|a rest IH]; intros st Hst; simpl; [exact Hst|].
  destruct (normalizeText (a_text a)) as [|u txt]; [now apply IH|].
  destruct (anchorDate clock (tick st) (a_updateTime a) (a_creationTime a))
    as [when n].
  destruct (announcementItem h c a (u :: txt) when) as [[dk it]|] eqn:E;
    [|exact Hst].
  apply IH. simpl. apply P_push; [|exact Hst].
  now apply announcementItem_key in E.
Qed.

Lemma courseStep_keeps (st : RunState) (feed : CourseFeed) :
  P (dayBuckets st) -> P (dayBuckets (courseStep h clock st feed)).
Proof.
  intros Hst. unfold courseStep.
  destruct (announcements feed); destruct (courseWork feed);
    repeat first [apply announcementLoop_keeps | apply courseWorkLoop_keeps];
    exact Hst.
Qed.

Lemma collect_keeps (feeds : list CourseFeed) (st : RunState) :
  P (dayBuckets st) -> P (dayBuckets (collect h clock feeds st)).
Proof.
  revert st. induction feeds as [|f r IH]; intros st Hst; simpl; [exact Hst|].
  apply IH. now apply courseStep_keeps.
Qed.
End Preserved.

Lemma collect_ok (feeds : list CourseFeed) :
  bucketsOk h (dayBuckets (collect h clock feeds initial)).
Proof.
  apply (collect_keeps (bucketsOk h)).
  - intros dk cn it b Hk Hb. now apply pushItem_ok.
  - apply initial_ok.
Qed.

(** The files written: one per day key, each holding the sorted groups of
    its bucket. *)
Lemma writeDays_files (b : Buckets) (dayKeys : list JSString) (n : nat) :
  map (fun f => (fst f, withoutStamp (snd f))) (fst (writeDays h clock b dayKeys n))
  = map (fun k => (k, (k, groupsOf h (bucketOf b k)))) dayKeys.
Proof.
  revert n. induction dayKeys as [|k r IH]; intros n; simpl; [reflexivity|].
  specialize (IH (S n)).
  destruct (writeDays h clock b r (S n)) as [files n']. simpl in *.
  now rewrite IH.
Qed.

Lemma build_dayFiles (feeds : list CourseFeed) :
  dayFiles (build h clock feeds)
  = fst (writeDays h clock (dayBuckets (collect h clock feeds initial))
           (sortStrings (JSMap.keys (dayBuckets (collect h clock feeds initial))))
           (tick (collect h clock feeds initial))).
Proof.
  unfold build. destruct (writeDays _ _ _ _ _). reflexivity.
Qed.

Lemma build_file (feeds : list CourseFeed) (file : JSString * Snapshot) :
  In file (dayFiles (build h clock feeds)) ->
  let b := dayBuckets (collect h clock feeds initial) in
  In (fst file) (JSMap.keys b) /\ day (snd file) = fst file /\
  groups (snd file) = groupsOf h (bucketOf b (fst file)).
Proof.
  intros Hin b. rewrite build_dayFiles in Hin. fold b in Hin.
  apply (in_map (fun f => (fst f, withoutStamp (snd f)))) in Hin.
  rewrite writeDays_files in Hin. apply in_map_iff in Hin as (k & Hk & Hin).
  injection Hk as Hk1 Hk2 Hk3. subst k.
  repeat split; auto.
  eapply Permutation_in; [apply sort_perm | exact Hin].
Qed.

End DayBuilderFacts.

(** ** Order within a course group of a day *)

Section DayOrder.
Import JS Clock Host Records DayBuilder.

(** C1, as amended: in every course group of every day file the items are
    a rearrangement of the bucket's array in which, wherever two items
    stand, the one with the later anchor stands first, and of two with the
    same anchor the one whose title [localeCompare] puts first stands
    first, whatever the order of insertion. *)
Theorem day_group_newest_first
    (h : Services) (clock : ClockReadings) (feeds : list CourseFeed)
    (file : JSString * Snapshot) (g : Group) :
  ConsistentCollation (localeCompare h) ->
  In file (dayFiles (build h clock feeds)) ->
  In g (groups (snd file)) ->
  newestFirst (collatesBefore h) (items g) /\
  exists its,
    In (name g, its) (bucketOf (dayBuckets (collect h clock feeds initial)) (fst file))
    /\ Permutation (items g) its.
Proof.
  intros Hc Hfile Hg.
  destruct (build_file h clock feeds file Hfile) as (_ & _ & Hgroups).
  rewrite Hgroups in Hg. unfold groupsOf, JSMap.entries in Hg.
  apply in_map_iff in Hg as ([cn its] & <- & Hin). simpl. split.
  - now apply day_sort_newestFirst.
  - exists its. split; [exact Hin | apply sort_perm].
Qed.

Lemma day_group_newest_first_witness :
  newestFirst (collatesBefore Samples.icuHost) (items Samples.groupBa) /\
  exists its,
    In (name Samples.groupBa, its)
       (bucketOf (dayBuckets (collect Samples.icuHost Samples.stillClock
                                Samples.feedsBa initial)) (fst Samples.fileBa))
    /\ Permutation (items Samples.groupBa) its.
Proof.
  apply (day_group_newest_first Samples.icuHost Samples.stillClock Samples.feedsBa
           Samples.fileBa Samples.groupBa).
  - exact rootCollation_consistent.
  - vm_compute. left. reflexivity.
  - vm_compute. left. reflexivity.
Defined.

(** C1, as stated, fails: on a host with ICU collation two items anchored
    at the same instant and titled [B] and [a] are written with [a] first,
    though [B] is the smaller title code unit by code unit. *)
Lemma title_tie_break_not_code_unit_order :
  ConsistentCollation (localeCompare Samples.icuHost) /\
  str_lt (lit "B") (lit "a") /\
  exists file g,
    In file (dayFiles (build Samples.icuHost Samples.stillClock Samples.feedsBa)) /\
    In g (groups (snd file)) /\
    map titleOf (items g) = [lit "a"; lit "B"] /\
    map createdAt (items g) = [Samples.t0; Samples.t0] /\
    ~ newestFirst str_lt (items g).
Proof.
  split; [exact rootCollation_consistent|].
  split; [reflexivity|].
  eexists. eexists.
  split; [vm_compute; left; reflexivity|].
  split; [vm_compute; left; reflexivity|].
  split; [reflexivity|]. split; [reflexivity|].
  intros H.
  destruct (H 1%nat 0%nat _ _ eq_refl eq_refl) as [_ H2].
  specialize (H2 eq_refl eq_refl). lia.
Qed.

End DayOrder.

(** ** Order within a course group of the flat file *)

Section FlatOrder.
Import JS Clock Host Records.

(** C10: in the flat file every course group is sorted by due instant,
    earliest first, items without a due date after all those with one, ties
    broken by the comparison of titles; the comparator puts the earlier due
    date first where the day builder's puts the later anchor first. *)
Theorem flat_group_due_first
    (h : Services) (toLowerCase : JSString -> JSString)
    (feeds : list CourseFeed) (g : FlatBuilder.Group) :
  ConsistentCollation (localeCompare h) ->
  In g (FlatBuilder.buildGroups h toLowerCase feeds) ->
  FlatBuilder.dueFirst h (FlatBuilder.items g) /\
  (forall (a b : FlatBuilder.Item) s t,
      FlatBuilder.dueAt a = Some s -> FlatBuilder.dueAt b = Some t -> s < t ->
      FlatBuilder.compareItems h a b < 0) /\
  (forall (a b : FlatBuilder.Item) s,
      FlatBuilder.dueAt a = Some s -> FlatBuilder.dueAt b = None ->
      FlatBuilder.compareItems h a b < 0) /\
  (forall x y : DayBuilder.Item,
      DayBuilder.createdAt x < DayBuilder.createdAt y ->
      0 < DayBuilder.compareItems h x y).
Proof.
  intros Hc Hg. split; [|split; [|split]].
  - unfold FlatBuilder.buildGroups in Hg.
    apply in_map_iff in Hg as (feed & <- & _).
    unfold FlatBuilder.courseGroup. simpl.
    now apply flat_sort_dueFirst.
  - intros a b s t Ha Hb Hlt.
    unfold FlatBuilder.compareItems, FlatBuilder.dueKey. rewrite Ha, Hb. simpl.
    replace (s =? t) with false by (symmetry; apply Z.eqb_neq; lia).
    simpl. lia.
  - intros a b s Ha Hb.
    unfold FlatBuilder.compareItems, FlatBuilder.dueKey. rewrite Ha, Hb. simpl. lia.
  - intros x y Hlt. unfold DayBuilder.compareItems.
    replace (DayBuilder.createdAt x =? DayBuilder.createdAt y) with false
      by (symmetry; apply Z.eqb_neq; lia).
    simpl. lia.
Qed.

Lemma flat_group_due_first_witness :
  FlatBuilder.dueFirst Samples.icuHost (FlatBuilder.items Samples.flatGroupDue) /\
  (forall (a b : FlatBuilder.Item) s t,
      FlatBuilder.dueAt a = Some s -> FlatBuilder.dueAt b = Some t -> s < t ->
      FlatBuilder.compareItems Samples.icuHost a b < 0) /\
  (forall (a b : FlatBuilder.Item) s,
      FlatBuilder.dueAt a = Some s -> FlatBuilder.dueAt b = None ->
      FlatBuilder.compareItems Samples.icuHost a b < 0) /\
  (forall x y : DayBuilder.Item,
      DayBuilder.createdAt x < DayBuilder.createdAt y ->
      0 < DayBuilder.compareItems Samples.icuHost x y).
Proof.
  apply (flat_group_due_first Samples.icuHost Samples.asciiLower [Samples.feedDue]
           Samples.flatGroupDue).
  - exact rootCollation_consistent.
  - left. reflexivity.
Defined.

(** The sample group: the two pieces of coursework with a due date, the
    earlier first, then the two items without one, by title. *)
Example flat_group_sample :
  map FlatBuilder.titleOf (FlatBuilder.items Samples.flatGroupDue)
  = [lit "Lab"; lit "Quiz"; lit "Essay"; lit "Homework due Friday"].
Proof. vm_compute. reflexivity. Qed.

End FlatOrder.

(** ** Day keys and the index file *)

Section ManifestFacts.
Import JS Clock Host Records DayBuilder.

Lemma stringOrder_total (a b : JSString) :
  signOf (lexCompare a b) <= 0 \/ signOf (lexCompare b a) <= 0.
Proof.
  rewrite (lexCompare_antisym a b). destruct (lexCompare a b); simpl; lia.
Qed.

Lemma stringOrder_trans (a b c : JSString) :
  signOf (lexCompare a b) <= 0 -> signOf (lexCompare b c) <= 0 ->
  signOf (lexCompare a c) <= 0.
Proof. rewrite !signOf_le0. apply lexCompare_trans_le. Qed.

Lemma sortStrings_perm (l : list JSString) : Permutation (sortStrings l) l.
Proof. apply sort_perm. Qed.

Lemma StronglySorted_weaken {A : Type} (P Q : A -> A -> Prop) (l : list A) :
  (forall a b, P a b -> Q a b) -> StronglySorted P l -> StronglySorted Q l.
Proof.
  intros HPQ. induction 1 as [|x r Hr IH Hx]; constructor; auto.
  rewrite Forall_forall in *. auto.
Qed.

Lemma sortStrings_sorted (l : list JSString) : StronglySorted str_le (sortStrings l).
Proof.
  apply (StronglySorted_weaken
           (notAfter (fun a b : JSString => signOf (lexCompare a b)))).
  - intros a b Hab. unfold str_le. now apply signOf_le0.
  - apply sort_sorted; [apply stringOrder_total | apply stringOrder_trans].
Qed.

(** Sorted keys that are not repeated ascend strictly. *)
Lemma sorted_distinct_strict (l : list JSString) :
  StronglySorted str_le l -> NoDup l -> StronglySorted str_lt l.
Proof.
  induction 1 as [|x r Hr IH Hx]; intros Hnd; constructor;
    inversion Hnd as [|? ? Hn Hnr]; subst; auto.
  rewrite Forall_forall in *. intros y Hy. specialize (Hx y Hy).
  unfold str_le, str_lt in *.
  destruct (lexCompare x y) eqn:E; [|reflexivity|congruence].
  apply lexCompare_eq in E. subst. contradiction.
Qed.

(** The last of a sorted list is its greatest element. *)
Lemma last_greatest (l : list JSString) :
  StronglySorted str_le l ->
  match last (map Some l) None with
  | Some m => In m l /\ forall k, In k l -> str_le k m
  | None => l = []
  end.
Proof.
  induction 1 as [|x r Hr IH Hx]; [reflexivity|].
  simpl. destruct r as [|y r'].
  - simpl. split; [now left|]. intros k [<- | []].
    unfold str_le. now rewrite lexCompare_refl.
  - change (map Some (y :: r')) with (Some y :: map Some r') in *.
    destruct (last (Some y :: map Some r') None) as [m|] eqn:E; [|discriminate].
    destruct IH as [Hm Hle]. split; [now right|].
    intros k [<- | Hk]; [|now apply Hle].
    rewrite Forall_forall in Hx. now apply Hx.
Qed.

(** Decimal digits hold no hyphen. *)
Lemma uint_digits (u : Decimal.uint) : Forall isDigit (lit (NilEmpty.string_of_uint u)).
Proof.
  induction u; simpl; constructor; auto; unfold isDigit; simpl; lia.
Qed.

Lemma decimal_digits (n : N) : Forall isDigit (decimal n).
Proof.
  unfold decimal, NilZero.string_of_uint.
  destruct (N.to_uint n) eqn:E; try (rewrite <- E; apply uint_digits).
  simpl. constructor; [unfold isDigit; simpl; lia | constructor].
Qed.

Lemma relabel_digits (s : JSString) :
  Forall isDigit s -> replaceAll 45%N 46%N s = s.
Proof.
  induction 1 as [|c r Hc Hr IH]; simpl; [reflexivity|].
  rewrite IH. unfold unit_eqb.
  replace (c =? 45)%N with false; [reflexivity|].
  symmetry. apply N.eqb_neq. unfold isDigit in Hc. lia.
Qed.

Lemma twoDigit_digits (n : Z) : Forall isDigit (twoDigit n).
Proof.
  unfold twoDigit. destruct (n <? 10); [|apply decimal_digits].
  simpl. constructor; [unfold isDigit; lia | apply decimal_digits].
Qed.

Lemma numericYear_digits (y : Z) : Forall isDigit (numericYear y).
Proof. unfold numericYear. destruct (1 <=? y); apply decimal_digits. Qed.

(** The label of a day key: the same digits, with dots for the hyphens. *)
Lemma kstLabel_formatDay (d : Z) :
  kstLabel (formatDay d)
  = numericYear (YearFromDay d) ++ lit "." ++ twoDigit (MonthFromDay d + 1)
      ++ lit "." ++ twoDigit (DateFromDay d).
Proof.
  unfold kstLabel, formatDay, replaceAll. rewrite !map_app.
  fold (replaceAll 45%N 46%N (numericYear (YearFromDay d))).
  fold (replaceAll 45%N 46%N (twoDigit (MonthFromDay d + 1))).
  fold (replaceAll 45%N 46%N (twoDigit (DateFromDay d))).
  rewrite !relabel_digits
    by first [apply numericYear_digits | apply twoDigit_digits].
  reflexivity.
Qed.

Lemma formatDay_nonempty (d : Z) : truthy (Some (formatDay d)) = true.
Proof.
  unfold formatDay. destruct (numericYear (YearFromDay d)); reflexivity.
Qed.

End ManifestFacts.

Section Manifest.
Import JS Clock Host Records DayBuilder.

Variable h : Services.
Variable clock : ClockReadings.

(** The keys of well-formed buckets are the day keys of the items held. *)
Lemma key_observed (b : Buckets) (k : JSString) :
  bucketsOk h b ->
  In k (JSMap.keys b) <->
  exists it, In it (allItems b) /\
             kstDayKey (seoulOffset h) (ValidDate (createdAt it)) = Some k.
Proof.
  intros [_ Hall]. split.
  - intros Hk. apply in_map_iff in Hk as ([k' bc] & Hfst & He). simpl in Hfst. subst k'.
    destruct (Hall _ He) as (_ & Hne & Hgroups). simpl in *.
    destruct bc as [|[cn its] bc']; [congruence|].
    destruct (Hgroups (cn, its) (or_introl eq_refl)) as [Hits Hkeys]. simpl in *.
    destruct its as [|it its']; [congruence|].
    exists it. split; [|apply Hkeys; now left].
    unfold allItems. apply in_flat_map. exists (k, (cn, it :: its') :: bc').
    split; [exact He|]. simpl. now left.
  - intros (it & Hit & Hk). unfold allItems in Hit.
    apply in_flat_map in Hit as (e & He & Hit).
    apply in_flat_map in Hit as (e' & He' & Hit).
    destruct (Hall _ He) as (_ & _ & Hgroups).
    destruct (Hgroups _ He') as [_ Hkeys].
    rewrite (Hkeys _ Hit) in Hk. injection Hk as <-.
    unfold JSMap.keys. now apply in_map.
Qed.

Lemma build_indexFile (feeds : list CourseFeed) :
  let dayKeys := sortStrings (JSMap.keys (dayBuckets (collect h clock feeds initial))) in
  latestDay (indexFile (build h clock feeds)) = latestOf dayKeys /\
  days (indexFile (build h clock feeds))
  = map (fun d => mkDayEntry d (kstLabel d)) dayKeys.
Proof.
  unfold build. destruct (writeDays _ _ _ _ _). simpl. auto.
Qed.

(** C8: the index file lists the day keys observed in the run, each once,
    in ascending order and with its dotted label, and names the greatest of
    them as the latest day, or none when there is none. *)
Theorem manifest_lists_observed_days (feeds : list CourseFeed) :
  let o := build h clock feeds in
  let b := dayBuckets (collect h clock feeds initial) in
  let listed := map entryDay (days (indexFile o)) in
  days (indexFile o) = map (fun d => mkDayEntry d (kstLabel d)) listed /\
  StronglySorted str_lt listed /\
  (forall k, In k listed <->
             exists it, In it (allItems b) /\
                        kstDayKey (seoulOffset h) (ValidDate (createdAt it)) = Some k) /\
  (forall e, In e (days (indexFile o)) ->
             exists d, entryDay e = formatDay d /\
                       label e = numericYear (YearFromDay d) ++ lit "."
                                   ++ twoDigit (MonthFromDay d + 1) ++ lit "."
                                   ++ twoDigit (DateFromDay d)) /\
  match latestDay (indexFile o) with
  | Some m => In m listed /\ forall k, In k listed -> str_le k m
  | None => listed = []
  end /\
  latestOf (sortStrings [lit "2024-01-02"; lit "2024-01-10"; lit "2023-12-31"])
  = Some (lit "2024-01-10").
Proof.
  intros o b listed.
  destruct (build_indexFile feeds) as [Hlatest Hdays]. fold o b in Hlatest, Hdays.
  pose proof (collect_ok h clock feeds) as Hok. fold b in Hok.
  assert (Hlisted : listed = sortStrings (JSMap.keys b)).
  { unfold listed. rewrite Hdays, map_map. simpl. apply map_id. }
  assert (Hformat : forall k, In k listed -> exists d, k = formatDay d).
  { intros k Hk. rewrite Hlisted in Hk.
    apply (Permutation_in _ (sortStrings_perm _)) in Hk.
    apply (key_observed b k Hok) in Hk as (it & _ & Hk).
    simpl in Hk. injection Hk as <-. eauto. }
  split; [now rewrite Hdays, Hlisted|].
  split.
  { rewrite Hlisted. apply sorted_distinct_strict; [apply sortStrings_sorted|].
    apply (Permutation_NoDup (Permutation_sym (sortStrings_perm _))).
    exact (proj1 Hok). }
  split.
  { intros k. rewrite <- (key_observed b k Hok). rewrite Hlisted. split.
    - apply Permutation_in, sortStrings_perm.
    - apply Permutation_in, Permutation_sym, sortStrings_perm. }
  split.
  { intros e He. rewrite Hdays in He. apply in_map_iff in He as (k & <- & Hk).
    rewrite <- Hlisted in Hk. destruct (Hformat k Hk) as [d ->].
    exists d. simpl. split; [reflexivity | apply kstLabel_formatDay]. }
  split; [|vm_compute; reflexivity].
  rewrite Hlatest. unfold latestOf. rewrite <- Hlisted.
  pose proof (last_greatest listed) as Hlast.
  rewrite Hlisted in Hlast at 1. specialize (Hlast (sortStrings_sorted _)).
  destruct (last (map Some listed) None) as [m|] eqn:E.
  - destruct Hlast as [Hm Hle].
    destruct (Hformat m Hm) as [d ->].
    unfold orNull. rewrite formatDay_nonempty. auto.
  - exact Hlast.
Qed.

End Manifest.

(** ** From the buckets to the files *)

Section OutputFacts.
Import JS Clock Host Records DayBuilder.

Variable h : Services.
Variable clock : ClockReadings.

Lemma flat_map_pointwise {A B : Type} (f g : A -> list B) (l : list A) :
  (forall x, In x l -> Permutation (f x) (g x)) ->
  Permutation (flat_map f l) (flat_map g l).
Proof.
  induction l as [|x r IH]; intros H; simpl; [constructor|].
  apply Permutation_app; [apply H; now left|].
  apply IH. intros y Hy. apply H. now right.
Qed.

Lemma flat_map_of_map {A B C : Type} (f : B -> list C) (g : A -> B) (l : list A) :
  flat_map f (map g l) = flat_map (fun x => f (g x)) l.
Proof. induction l as [|x r IH]; simpl; [reflexivity | now rewrite IH]. Qed.

Lemma groupsOf_items (byCourse : JSMap.t (list Item)) :
  Permutation (flat_map items (groupsOf h byCourse)) (flat_map snd byCourse).
Proof.
  unfold groupsOf, JSMap.entries. rewrite flat_map_of_map. simpl.
  apply flat_map_pointwise. intros e _. apply sort_perm.
Qed.

(** The files hold the items of the buckets, each as often as the buckets
    do. *)
Lemma outputItems_perm (feeds : list CourseFeed) :
  Permutation (outputItems (build h clock feeds))
              (allItems (dayBuckets (collect h clock feeds initial))).
Proof.
  pose proof (collect_ok h clock feeds) as [Hnd _].
  unfold outputItems. rewrite build_dayFiles.
  set (b := dayBuckets (collect h clock feeds initial)) in *.
  set (files := fst (writeDays h clock b (sortStrings (JSMap.keys b))
                       (tick (collect h clock feeds initial)))).
  assert (E : flat_map (fun f => flat_map items (groups (snd f))) files
              = flat_map (fun k => flat_map items (groupsOf h (bucketOf b k)))
                         (sortStrings (JSMap.keys b))).
  { transitivity
      (flat_map (fun p : JSString * (JSString * list Group) =>
                   flat_map items (snd (snd p)))
                (map (fun f => (fst f, withoutStamp (snd f))) files)).
    - now rewrite flat_map_of_map.
    - unfold files. rewrite writeDays_files. now rewrite flat_map_of_map. }
  rewrite E.
  eapply perm_trans; [apply Permutation_flat_map, sortStrings_perm|].
  unfold JSMap.keys. rewrite flat_map_of_map. unfold allItems.
  apply flat_map_pointwise. intros [k bc] He. simpl.
  unfold bucketOf. rewrite (In_get k bc b Hnd He).
  apply groupsOf_items.
Qed.

Lemma item_written (feeds : list CourseFeed) (it : Item) :
  In it (allItems (dayBuckets (collect h clock feeds initial))) <->
  In it (outputItems (build h clock feeds)).
Proof.
  split; apply Permutation_in;
    [apply Permutation_sym|]; apply outputItems_perm.
Qed.

End OutputFacts.

(** ** Two runs over the same remote data *)

Section Determinism.
Import JS Clock Host Records DayBuilder.

Variable h : Services.

Lemma anchorDate_stamped (clock : ClockReadings) (n : nat)
    (u c : option JsDate) (d : JsDate) :
  whenIso u c = Some d -> anchorDate clock n u c = (d, n).
Proof. unfold anchorDate. now intros ->. Qed.

Lemma courseWorkLoop_clock (c1 c2 : ClockReadings) (c : Course)
    (ws : list RawWorkItem) (st : RunState) :
  (forall w, In w ws -> whenIso (w_updateTime w) (w_creationTime w) <> None) ->
  courseWorkLoop h c1 c ws st = courseWorkLoop h c2 c ws st.
Proof.
  revert st. induction ws as [|w rest IH]; intros st Hs; simpl; [reflexivity|].
  destruct (whenIso (w_updateTime w) (w_creationTime w)) as [d|] eqn:E;
    [|exfalso; apply (Hs w); [now left | exact E]].
  rewrite !(anchorDate_stamped _ _ _ _ d E).
  destruct (courseWorkItem h c w d) as [[dk it]|]; [|reflexivity].
  apply IH. intros w' Hw'. apply Hs. now right.
Qed.

Lemma announcementLoop_clock (c1 c2 : ClockReadings) (c : Course)
    (anns : list RawAnnouncement) (st : RunState) :
  (forall a, In a anns -> whenIso (a_updateTime a) (a_creationTime a) <> None) ->
  announcementLoop h c1 c anns st = announcementLoop h c2 c anns st.
Proof.
  revert st. induction anns as [|a rest IH]; intros st Hs; simpl; [reflexivity|].
  assert (Hrest : forall a', In a' rest ->
                    whenIso (a_updateTime a') (a_creationTime a') <> None)
    by (intros a' Ha'; apply Hs; now right).
  destruct (normalizeText (a_text a)) as [|u txt]; [now apply IH|].
  destruct (whenIso (a_updateTime a) (a_creationTime a)) as [d|] eqn:E;
    [|exfalso; apply (Hs a); [now left | exact E]].
  rewrite !(anchorDate_stamped _ _ _ _ d E).
  destruct (announcementItem h c a (u :: txt) d) as [[dk it]|]; [|reflexivity].
  now apply IH.
Qed.

Lemma courseStep_clock (c1 c2 : ClockReadings) (st : RunState) (feed : CourseFeed) :
  feedStamped feed -> courseStep h c1 st feed = courseStep h c2 st feed.
Proof.
  intros [Hw Ha]. unfold courseStep.
  assert (E : match courseWork feed with
              | Threw => st
              | Listed l => courseWorkLoop h c1 (course feed) (orEmptyList l) st
              end
              = match courseWork feed with
                | Threw => st
                | Listed l => courseWorkLoop h c2 (course feed) (orEmptyList l) st
                end).
  { destruct (courseWork feed); [reflexivity|]. now apply courseWorkLoop_clock. }
  rewrite E. destruct (announcements feed); [reflexivity|].
  now apply announcementLoop_clock.
Qed.

Lemma collect_clock (c1 c2 : ClockReadings) (feeds : list CourseFeed) (st : RunState) :
  (forall feed, In feed feeds -> feedStamped feed) ->
  collect h c1 feeds st = collect h c2 feeds st.
Proof.
  revert st. induction feeds as [|f r IH]; intros st Hs; simpl; [reflexivity|].
  rewrite (courseStep_clock c1 c2 st f) by (apply Hs; now left).
  apply IH. intros f' Hf'. apply Hs. now right.
Qed.

Lemma unstamped_build (clock : ClockReadings) (feeds : list CourseFeed) :
  let b := dayBuckets (collect h clock feeds initial) in
  let dayKeys := sortStrings (JSMap.keys b) in
  unstamped (build h clock feeds)
  = (map (fun k => (k, (k, groupsOf h (bucketOf b k)))) dayKeys,
     (latestOf dayKeys, map (fun d => mkDayEntry d (kstLabel d)) dayKeys)).
Proof.
  intros b dayKeys. unfold unstamped.
  destruct (build_indexFile h clock feeds) as [-> ->].
  rewrite build_dayFiles, writeDays_files. reflexivity.
Qed.

(** C9, as amended: when every record delivered carries an update or a
    creation time, two runs over the same remote data, whatever their
    clocks read, leave the same documents apart from [generatedAt]. *)
Theorem runs_agree_when_stamped
    (c1 c2 : ClockReadings) (disk : Disk) (coursesRes : Fetched CourseFeed) :
  allStamped coursesRes ->
  documents (main h c1 disk coursesRes) = documents (main h c2 disk coursesRes).
Proof.
  intros Hs. destruct coursesRes as [|l]; [reflexivity|].
  assert (E : unstamped (build h c1 (orEmptyList l))
              = unstamped (build h c2 (orEmptyList l))).
  { rewrite !unstamped_build.
    now rewrite (collect_clock c1 c2 (orEmptyList l) initial Hs). }
  assert (L : List.length (dayFiles (build h c1 (orEmptyList l)))
              = List.length (dayFiles (build h c2 (orEmptyList l)))).
  { apply (f_equal (fun u => List.length (fst u))) in E. unfold unstamped in E.
    simpl in E. now rewrite !length_map in E. }
  unfold main, accepts. cbv zeta. rewrite L.
  destruct (mkdirOk disk && _); [|reflexivity].
  simpl. now rewrite E.
Qed.

End Determinism.

Section DeterminismSamples.
Import JS Clock Host Records DayBuilder.

Lemma runs_agree_when_stamped_witness :
  documents (main Samples.icuHost Samples.stillClock Samples.soundDisk
               (Listed (Some Samples.feedsBa)))
  = documents (main Samples.icuHost Samples.laterClock Samples.soundDisk
                 (Listed (Some Samples.feedsBa))).
Proof.
  apply (runs_agree_when_stamped Samples.icuHost Samples.stillClock
           Samples.laterClock Samples.soundDisk (Listed (Some Samples.feedsBa))).
  intros feed [<- | []]. split.
  - intros w [<- | [<- | []]]; vm_compute; discriminate.
  - intros a [].
Defined.

(** C9, as stated, fails: a record that carries neither time is anchored at
    the reading of the clock, so two runs a millisecond apart write
    different [createdAt], and two runs a day apart write different day
    files and name different latest days. *)
Lemma runs_differ_on_unstamped_record :
  documents (main Samples.icuHost (Samples.clockAt Samples.t0) Samples.soundDisk
               (Listed (Some Samples.feedsUnstamped)))
  <> documents (main Samples.icuHost (Samples.clockAt (Samples.t0 + 1))
                  Samples.soundDisk (Listed (Some Samples.feedsUnstamped))) /\
  map createdAt (outputItems (build Samples.icuHost (Samples.clockAt Samples.t0)
                                Samples.feedsUnstamped)) = [Samples.t0] /\
  map createdAt (outputItems (build Samples.icuHost (Samples.clockAt (Samples.t0 + 1))
                                Samples.feedsUnstamped)) = [Samples.t0 + 1] /\
  latestDay (indexFile (build Samples.icuHost Samples.stillClock
                          Samples.feedsUnstamped)) = Some (lit "1970-01-01") /\
  latestDay (indexFile (build Samples.icuHost Samples.laterClock
                          Samples.feedsUnstamped)) = Some (lit "1970-01-02").
Proof.
  split; [vm_compute; discriminate|].
  repeat split; vm_compute; reflexivity.
Qed.

End DeterminismSamples.

(** ** Failures of the per-course list calls *)

Section FaultIsolation.
Import JS Clock Host Records DayBuilder.

Variable h : Services.
Variable clock : ClockReadings.

Lemma holds_push (it : Item) (dk cn : JSString) (it' : Item) (b : Buckets) :
  holds it b -> holds it (pushItem dk cn it' b).
Proof.
  unfold holds. intros H.
  apply (Permutation_in _ (Permutation_sym (pushItem_allItems dk cn it' b))).
  now right.
Qed.

Lemma holds_pushed (it : Item) (dk cn : JSString) (b : Buckets) :
  holds it (pushItem dk cn it b).
Proof.
  unfold holds.
  apply (Permutation_in _ (Permutation_sym (pushItem_allItems dk cn it b))).
  now left.
Qed.

Lemma courseWorkLoop_adds (c : Course) (ws : list RawWorkItem) (st : RunState)
    (w : RawWorkItem) (dk : JSString) (it : Item) :
  (forall w', In w' ws -> courseWorkPasses h c w') ->
  In w ws -> courseWorkYield h c w = Some (dk, it) ->
  holds it (dayBuckets (courseWorkLoop h clock c ws st)).
Proof.
  revert st. induction ws as [|w' rest IH]; intros st Hp Hin Hy; [destruct Hin|].
  simpl.
  assert (Hp' : courseWorkPasses h c w') by (apply Hp; now left).
  unfold courseWorkPasses, courseWorkYield in Hp'.
  destruct (whenIso (w_updateTime w') (w_creationTime w')) as [when|] eqn:Ew;
    [|congruence].
  rewrite (anchorDate_stamped clock _ _ _ when Ew).
  destruct (courseWorkItem h c w' when) as [[dk' it']|] eqn:Ei; [|congruence].
  destruct Hin as [-> | Hin].
  - unfold courseWorkYield in Hy. rewrite Ew, Ei in Hy. injection Hy as -> ->.
    apply (courseWorkLoop_keeps h clock (holds it)).
    + intros; now apply holds_push.
    + simpl. apply holds_pushed.
  - apply IH; auto. intros w'' Hw''. apply Hp. now right.
Qed.

Lemma announcementLoop_adds (c : Course) (anns : list RawAnnouncement)
    (st : RunState) (a : RawAnnouncement) (dk : JSString) (it : Item) :
  (forall a', In a' anns -> announcementPasses h c a') ->
  In a anns -> announcementYield h c a = Some (dk, it) ->
  holds it (dayBuckets (announcementLoop h clock c anns st)).
Proof.
  revert st. induction anns as [|a' rest IH]; intros st Hp Hin Hy; [destruct Hin|].
  simpl.
  assert (Hrest : forall a'', In a'' rest -> announcementPasses h c a'')
    by (intros a'' Ha''; apply Hp; now right).
  assert (Hp' : announcementPasses h c a') by (apply Hp; now left).
  unfold announcementPasses, announcementYield in Hp'.
  destruct (normalizeText (a_text a')) as [|u txt] eqn:Et.
  - destruct Hin as [-> | Hin]; [|now apply IH].
    unfold announcementYield in Hy. rewrite Et in Hy. discriminate.
  - destruct Hp' as [Hp' | Hp']; [discriminate|].
    destruct (whenIso (a_updateTime a') (a_creationTime a')) as [when|] eqn:Ew;
      [|congruence].
    rewrite (anchorDate_stamped clock _ _ _ when Ew).
    destruct (announcementItem h c a' (u :: txt) when) as [[dk' it']|] eqn:Ei;
      [|congruence].
    destruct Hin as [-> | Hin]; [|now apply IH].
    unfold announcementYield in Hy. rewrite Et, Ew, Ei in Hy. injection Hy as -> ->.
    apply (announcementLoop_keeps h clock (holds it)).
    + intros; now apply holds_push.
    + simpl. apply holds_pushed.
Qed.

Lemma collect_app (l1 l2 : list CourseFeed) (st : RunState) :
  collect h clock (l1 ++ l2) st = collect h clock l2 (collect h clock l1 st).
Proof. apply fold_left_app. Qed.

(** An item that one course's turn puts into the buckets is in the files,
    whatever the turns of the other courses do. *)
Lemma course_contribution (feeds : list CourseFeed) (f : CourseFeed) (it : Item) :
  In f feeds ->
  (forall st, holds it (dayBuckets (courseStep h clock st f))) ->
  In it (outputItems (build h clock feeds)).
Proof.
  intros Hin Hstep. apply item_written.
  apply in_split in Hin as (pre & post & ->).
  rewrite collect_app. simpl.
  apply (collect_keeps h clock (holds it)).
  - intros; now apply holds_push.
  - apply Hstep.
Qed.

(** C5: a list call that throws for one course counts as an empty list for
    that course and kind; the run ends as it would with the empty list, on
    whatever disk, and on a disk that takes its writes it completes with
    exit status 0 whichever calls throw; and a list that was delivered and
    whose records can all be processed has every item it yields in the
    files, whatever the other calls of the run came to. *)
Theorem fetch_failure_is_swallowed
    (pre post : list CourseFeed) (c : Course)
    (cw : Fetched RawWorkItem) (anns : Fetched RawAnnouncement) :
  build h clock (pre ++ mkFeed c Threw anns :: post)
    = build h clock (pre ++ mkFeed c (Listed (Some [])) anns :: post) /\
  build h clock (pre ++ mkFeed c cw Threw :: post)
    = build h clock (pre ++ mkFeed c cw (Listed (Some [])) :: post) /\
  (forall disk,
      main h clock disk (Listed (Some (pre ++ mkFeed c Threw anns :: post)))
      = main h clock disk
          (Listed (Some (pre ++ mkFeed c (Listed (Some [])) anns :: post))) /\
      main h clock disk (Listed (Some (pre ++ mkFeed c cw Threw :: post)))
      = main h clock disk
          (Listed (Some (pre ++ mkFeed c cw (Listed (Some [])) :: post)))) /\
  (forall disk feeds,
      mkdirOk disk = true -> (forall n, writeOk disk n = true) ->
      main h clock disk (Listed (Some feeds)) = Completed (build h clock feeds) /\
      exitStatus (main h clock disk (Listed (Some feeds))) = 0) /\
  (forall w dk it,
      (forall w', In w' (delivered cw) -> courseWorkPasses h c w') ->
      In w (delivered cw) -> courseWorkYield h c w = Some (dk, it) ->
      In it (outputItems (build h clock (pre ++ mkFeed c cw anns :: post)))) /\
  (forall a dk it,
      (forall a', In a' (delivered anns) -> announcementPasses h c a') ->
      In a (delivered anns) -> announcementYield h c a = Some (dk, it) ->
      In it (outputItems (build h clock (pre ++ mkFeed c cw anns :: post)))).
Proof.
  assert (E1 : build h clock (pre ++ mkFeed c Threw anns :: post)
               = build h clock (pre ++ mkFeed c (Listed (Some [])) anns :: post))
    by (unfold build; rewrite !collect_app; reflexivity).
  assert (E2 : build h clock (pre ++ mkFeed c cw Threw :: post)
               = build h clock (pre ++ mkFeed c cw (Listed (Some [])) :: post))
    by (unfold build; rewrite !collect_app; simpl; unfold courseStep; simpl;
        reflexivity).
  split; [exact E1 | split; [exact E2 | split; [|split; [|split]]]].
  - intros disk. unfold main. simpl orEmptyList. cbv zeta.
    now rewrite E1, E2.
  - intros disk feeds Hm Hw.
    assert (A : accepts disk (build h clock feeds) = true).
    { unfold accepts. rewrite Hm.
      change (true && ?b) with b. rewrite forallb_forall.
      intros n _. apply Hw. }
    unfold main. simpl orEmptyList. cbv zeta. rewrite A. split; reflexivity.
  - intros w dk it Hp Hin Hy.
    apply (course_contribution _ (mkFeed c cw anns)); [apply in_elt|].
    intros st. unfold courseStep. simpl.
    destruct cw as [|l]; [destruct Hin|]. simpl in *.
    assert (H1 : holds it (dayBuckets (courseWorkLoop h clock c (orEmptyList l) st)))
      by (eapply courseWorkLoop_adds; eauto).
    destruct anns; [exact H1|].
    apply (announcementLoop_keeps h clock (holds it)); [|exact H1].
    intros; now apply holds_push.
  - intros a dk it Hp Hin Hy.
    apply (course_contribution _ (mkFeed c cw anns)); [apply in_elt|].
    intros st. unfold courseStep. simpl.
    destruct anns as [|l]; [destruct Hin|]. simpl in *.
    eapply announcementLoop_adds; eauto.
Qed.

End FaultIsolation.

(** ** Normalising the text of an announcement *)

Section TextFacts.
Import JS Clock Host Records.

Lemma trimStart_rev_blank (t : JSString) (s : JSString) :
  Forall blank t -> trimStart (rev t ++ s) = trimStart s.
Proof.
  intros Ht. apply Forall_rev in Ht. induction Ht as [|c r Hc Hr IH]; simpl; auto.
  unfold blank in Hc. now rewrite Hc.
Qed.

(** [trimEnd] removes a blank tail and nothing more. *)
Lemma trimEnd_unique (s t : JSString) :
  endsSolid s -> Forall blank t -> trimEnd (s ++ t) = s.
Proof.
  intros Hs Ht. unfold trimEnd. rewrite rev_app_distr, trimStart_rev_blank by assumption.
  destruct Hs as [-> | (l & c & -> & Hc)]; [reflexivity|].
  rewrite rev_app_distr. simpl. unfold solid in Hc. rewrite Hc.
  change (c :: rev l) with ([c] ++ rev l).
  now rewrite rev_app_distr, rev_involutive.
Qed.

Lemma splitWords_nonempty (w s : JSString) : w <> [] -> splitWords w s <> [].
Proof.
  revert w. induction s as [|c r IH]; intros w Hw; simpl.
  - destruct w; congruence.
  - destruct (isWhiteSpace c).
    + destruct w; [congruence | discriminate].
    + apply IH. destruct w; discriminate.
Qed.

Lemma joinWords_cons (w : JSString) (ws : list JSString) :
  ws <> [] -> joinWords (w :: ws) = w ++ space :: joinWords ws.
Proof. destruct ws; [congruence | reflexivity]. Qed.

(** The collapsed text after a word in progress, and after a run in
    progress, is the joined words followed by a blank tail. *)
Lemma collapse_words (s : JSString) :
  (forall w, w <> [] ->
     exists t, Forall blank t /\
               w ++ collapseFrom false s = joinWords (splitWords w s) ++ t) /\
  (exists t, Forall blank t /\
             space :: collapseFrom true s
             = match splitWords [] s with
               | [] => []
               | _ :: _ => space :: joinWords (splitWords [] s)
               end ++ t).
Proof.
  induction s as [|c r [IHw IHr]].
  - split.
    + intros w Hw. exists []. split; [constructor|].
      simpl. destruct w; [congruence | reflexivity].
    + exists [space]. split; [|reflexivity].
      constructor; [reflexivity | constructor].
  - split.
    + intros w Hw. simpl. destruct (isWhiteSpace c) eqn:Ec.
      * destruct IHr as (t & Ht & E). exists t. split; [exact Ht|].
        destruct w as [|u w']; [congruence|].
        rewrite E. destruct (splitWords [] r) as [|x xs] eqn:Es.
        -- simpl. reflexivity.
        -- rewrite (joinWords_cons (u :: w') (x :: xs)) by discriminate.
           now rewrite <- app_assoc.
      * destruct (IHw (w ++ [c])) as (t & Ht & E); [destruct w; discriminate|].
        exists t. split; [exact Ht|]. rewrite <- E, <- app_assoc. reflexivity.
    + simpl. destruct (isWhiteSpace c) eqn:Ec; [exact IHr|].
      destruct (IHw [c]) as (t & Ht & E); [discriminate|].
      exists t. split; [exact Ht|]. simpl in E. rewrite E.
      pose proof (splitWords_nonempty [c] r ltac:(discriminate)) as Hne.
      simpl. destruct (splitWords [c] r); [congruence | reflexivity].
Qed.

(** The words hold no white space and are not empty, so what they join to
    ends in a code unit that is not white space. *)
Lemma splitWords_solid (s w : JSString) :
  Forall solid w ->
  Forall (fun x => x <> [] /\ Forall solid x) (splitWords w s).
Proof.
  revert w. induction s as [|c r IH]; intros w Hw; simpl.
  - destruct w; constructor; [split; [discriminate | exact Hw] | constructor].
  - destruct (isWhiteSpace c) eqn:Ec.
    + destruct w; [apply IH; constructor|].
      constructor; [split; [discriminate | exact Hw]|]. apply IH. constructor.
    + apply IH. apply Forall_app. split; [exact Hw|].
      constructor; [exact Ec | constructor].
Qed.

Lemma solid_word_ends (x : JSString) : x <> [] -> Forall solid x -> endsSolid x.
Proof.
  intros Hx Hs. right. destruct (exists_last Hx) as (l & c & ->).
  exists l, c. split; [reflexivity|].
  apply Forall_app in Hs as [_ Hc]. now inversion Hc.
Qed.

Lemma endsSolid_app (l x : JSString) : x <> [] -> endsSolid x -> endsSolid (l ++ x).
Proof.
  intros Hx [-> | (l' & c & -> & Hc)]; [congruence|].
  right. exists (l ++ l'), c. now rewrite app_assoc.
Qed.

Lemma joinWords_endsSolid (ws : list JSString) :
  Forall (fun x => x <> [] /\ Forall solid x) ws -> endsSolid (joinWords ws).
Proof.
  induction 1 as [|w r [Hw Hs] Hr IH]; [now left|].
  destruct r as [|w' r'].
  - simpl. now apply solid_word_ends.
  - rewrite joinWords_cons by discriminate.
    change (w ++ space :: joinWords (w' :: r'))
      with (w ++ [space] ++ joinWords (w' :: r')).
    rewrite app_assoc. apply endsSolid_app; [|exact IH].
    inversion Hr as [|? ? [Hw' _] _]; subst.
    destruct r'; [exact Hw'|]. simpl. destruct w'; [congruence | discriminate].
Qed.

Lemma trimStart_collapse (b : bool) (s : JSString) :
  exists t, Forall blank t /\
            trimStart (collapseFrom b s) = joinWords (wordsOf s) ++ t.
Proof.
  unfold wordsOf. revert b. induction s as [|c r IH]; intros b.
  - exists []. split; [constructor | reflexivity].
  - simpl. destruct (isWhiteSpace c) eqn:Ec.
    + destruct (IH true) as (t & Ht & E). exists t. split; [exact Ht|].
      destruct b; simpl; exact E.
    + simpl. rewrite Ec.
      destruct (proj1 (collapse_words r) [c]) as (t & Ht & E); [discriminate|].
      exists t. split; [exact Ht | exact E].
Qed.

(** The normalised text is the words of the text joined by single spaces. *)
Lemma normalizeText_words (text : option JSString) :
  normalizeText text = joinWords (wordsOf (orEmpty text)).
Proof.
  unfold normalizeText, trim, collapseWhiteSpace.
  destruct (trimStart_collapse false (orEmpty text)) as (t & Ht & ->).
  apply trimEnd_unique; [|exact Ht].
  apply joinWords_endsSolid, splitWords_solid. constructor.
Qed.


End TextFacts.

(** ** Items made of announcements *)

Section AnnouncementItems.
Import JS Clock Host Records DayBuilder.


End AnnouncementItems.

(** ** Ids and titles of the items of a run *)

Section ItemIds.
Import JS Clock Host Records DayBuilder.

Lemma colon_split (c1 c2 n1 n2 : JSString) :
  colonFree c1 -> colonFree c2 ->
  c1 ++ 58%N :: n1 = c2 ++ 58%N :: n2 -> c1 = c2 /\ n1 = n2.
Proof.
  unfold colonFree. revert c2.
  induction c1 as [|x c1 IH]; intros [|y c2] H1 H2 E; simpl in *.
  - injection E as ->. auto.
  - injection E as <- _. exfalso. apply H2. now left.
  - injection E as -> _. exfalso. apply H1. now left.
  - injection E as -> E. destruct (IH c2) as [-> ->]; auto.
Qed.

Lemma itemId_inj (kind : string) (c1 c2 n1 n2 : JSString) :
  colonFree c1 -> colonFree c2 ->
  itemId kind c1 n1 = itemId kind c2 n2 -> c1 = c2 /\ n1 = n2.
Proof.
  unfold itemId. intros H1 H2 E.
  apply app_inv_head in E. simpl in E. injection E as E.
  now apply colon_split.
Qed.

Lemma itemId_native_inj (kind : string) (c n1 n2 : JSString) :
  itemId kind c n1 = itemId kind c n2 -> n1 = n2.
Proof.
  unfold itemId. intros E.
  apply app_inv_head in E. simpl in E. injection E as E.
  apply app_inv_head in E. now injection E.
Qed.

Lemma itemId_kinds (c1 c2 n1 n2 : JSString) :
  itemId "cw" c1 n1 <> itemId "ann" c2 n2.
Proof. unfold itemId. simpl. discriminate. Qed.

Lemma NoDup_map_native {A : Type} (f : A -> JSString) (g : JSString -> JSString)
    (l : list A) :
  (forall x y, g x = g y -> x = y) ->
  NoDup (map f l) -> NoDup (map (fun a => g (f a)) l).
Proof.
  intros Hg. induction l as [|a r IH]; simpl; intros Hnd; [constructor|].
  inversion Hnd as [|? ? Hn Hr]; subst. constructor; [|now apply IH].
  intros Hin. apply in_map_iff in Hin as (b & Hb & Hin).
  apply Hg in Hb. apply Hn. rewrite <- Hb. now apply in_map.
Qed.

Lemma candidateIds_shape (f : CourseFeed) (x : JSString) :
  In x (candidateIds f) ->
  exists n, x = itemId "cw" (c_id (course f)) n \/ x = itemId "ann" (c_id (course f)) n.
Proof.
  unfold candidateIds. intros H.
  apply in_app_or in H as [H | H]; apply in_map_iff in H as (r & <- & _); eauto.
Qed.

(** Distinct remote ids give distinct candidate ids. *)
Lemma candidateIds_distinct (feeds : list CourseFeed) :
  remoteIdsDistinct feeds -> NoDup (flat_map candidateIds feeds).
Proof.
  induction feeds as [|f r IH]; intros [Hc Hf]; simpl; [constructor|].
  inversion Hc as [|? ? Hn Hr]; subst.
  destruct (Hf f (or_introl eq_refl)) as (Hfree & Hw & Ha).
  apply NoDup_app.
  - unfold candidateIds. apply NoDup_app.
    + apply (NoDup_map_native w_id (itemId "cw" (c_id (course f)))); [|exact Hw].
      intros x y. apply itemId_native_inj.
    + apply (NoDup_map_native a_id (itemId "ann" (c_id (course f)))); [|exact Ha].
      intros x y. apply itemId_native_inj.
    + intros x H1 H2.
      apply in_map_iff in H1 as (w & <- & _). apply in_map_iff in H2 as (a & E & _).
      symmetry in E. now apply itemId_kinds in E.
  - apply IH. split; [exact Hr|]. intros f' Hf'. apply Hf. now right.
  - intros x H1 H2. apply in_flat_map in H2 as (f' & Hf' & H2).
    destruct (Hf f' (or_intror Hf')) as (Hfree' & _ & _).
    apply candidateIds_shape in H1 as [n H1]. apply candidateIds_shape in H2 as [n' H2].
    assert (E : c_id (course f) = c_id (course f')).
    { destruct H1 as [-> | ->], H2 as [H2 | H2].
      - now apply itemId_inj in H2.
      - now apply itemId_kinds in H2.
      - symmetry in H2. now apply itemId_kinds in H2.
      - now apply itemId_inj in H2. }
    apply Hn. rewrite E. apply (in_map (fun f => c_id (course f))). exact Hf'.
Qed.

End ItemIds.

Section ItemOrigins.
Import JS Clock Host Records DayBuilder.

Variable h : Services.
Variable clock : ClockReadings.

Lemma courseWorkItem_shape (c : Course) (w : RawWorkItem) (when : JsDate)
    (dk : JSString) (it : Item) :
  courseWorkItem h c w when = Some (dk, it) ->
  id it = itemId "cw" (c_id c) (w_id w) /\ title it = w_title w.
Proof.
  unfold courseWorkItem.
  destruct (kstDayKey _ when); [|discriminate].
  destruct (dueText _); [|discriminate].
  destruct (toISOString when); [|discriminate].
  intros [= <- <-]. simpl. auto.
Qed.

Lemma announcementItem_shape (c : Course) (a : RawAnnouncement) (txt : JSString)
    (when : JsDate) (dk : JSString) (it : Item) :
  announcementItem h c a txt when = Some (dk, it) ->
  id it = itemId "ann" (c_id c) (a_id a) /\ title it = Some (displayTitle txt).
Proof.
  unfold announcementItem.
  destruct (kstDayKey _ when); [|discriminate].
  destruct (toISOString when); [|discriminate].
  intros [= <- <-]. simpl. auto.
Qed.

Lemma displayTitle_nonempty (u : CodeUnit) (r : JSString) :
  exists u' r', displayTitle (u :: r) = u' :: r'.
Proof.
  unfold displayTitle. destruct (120 <? List.length (u :: r))%nat; simpl; eauto.
Qed.

Lemma within_weaken (seen seen' : list JSString) (Q : Item -> Prop) (b : Buckets) :
  incl seen seen' -> within seen Q b -> within seen' Q b.
Proof.
  intros Hi (H1 & H2 & H3). repeat split; auto. eapply incl_tran; eauto.
Qed.

Lemma within_push (seen : list JSString) (Q : Item -> Prop)
    (dk cn : JSString) (it : Item) (b : Buckets) :
  within seen Q b -> ~ In (id it) seen -> Q it ->
  within (seen ++ [id it]) Q (pushItem dk cn it b).
Proof.
  intros (H1 & H2 & H3) Hnew Hq.
  pose proof (pushItem_allItems dk cn it b) as Hp.
  pose proof (Permutation_map id Hp) as Hm. simpl in Hm.
  split; [|split].
  - apply (Permutation_NoDup (Permutation_sym Hm)).
    constructor; [|exact H1]. intros Hin. apply Hnew. now apply H2.
  - intros x Hx. apply (Permutation_in _ Hm) in Hx.
    apply in_or_app. destruct Hx as [<- | Hx]; [right; now left | left; now apply H2].
  - intros x Hx. apply (Permutation_in _ Hp) in Hx.
    destruct Hx as [<- | Hx]; auto.
Qed.

Lemma fresh_head (seen : list JSString) (x : JSString) (rest : list JSString) :
  NoDup (seen ++ x :: rest) -> ~ In x seen /\ NoDup ((seen ++ [x]) ++ rest).
Proof.
  intros H. split.
  - apply NoDup_remove_2 in H. intros Hin. apply H. apply in_or_app. now left.
  - now rewrite <- app_assoc.
Qed.

Lemma courseWorkLoop_within (c : Course) (Q : Item -> Prop)
    (ws : list RawWorkItem) (st : RunState) (seen : list JSString) :
  (forall w when dk it,
      In w ws -> courseWorkItem h c w when = Some (dk, it) -> Q it) ->
  within seen Q (dayBuckets st) ->
  NoDup (seen ++ map (fun w => itemId "cw" (c_id c) (w_id w)) ws) ->
  within (seen ++ map (fun w => itemId "cw" (c_id c) (w_id w)) ws) Q
         (dayBuckets (courseWorkLoop h clock c ws st)).
Proof.
  revert st seen. induction ws as [|w rest IH]; intros st seen Hq Hw Hnd; simpl.
  - now rewrite app_nil_r.
  - destruct (anchorDate clock (tick st) (w_updateTime w) (w_creationTime w))
      as [when n].
    destruct (fresh_head _ _ _ Hnd) as [Hfresh Hnd'].
    destruct (courseWorkItem h c w when) as [[dk it]|] eqn:E.
    + destruct (courseWorkItem_shape c w when dk it E) as [Hid _].
      change (seen ++ itemId "cw" (c_id c) (w_id w) :: ?r)
        with (seen ++ [itemId "cw" (c_id c) (w_id w)] ++ r).
      rewrite app_assoc. apply IH.
      * intros w' when' dk' it' Hin. apply Hq. now right.
      * simpl. rewrite <- Hid. apply within_push; auto.
        -- now rewrite Hid.
        -- eapply Hq; [now left | exact E].
      * exact Hnd'.
    + simpl. eapply within_weaken; [|exact Hw]. now apply incl_appl, incl_refl.
Qed.

Lemma announcementLoop_within (c : Course) (Q : Item -> Prop)
    (anns : list RawAnnouncement) (st : RunState) (seen : list JSString) :
  (forall a u txt when dk it,
      In a anns -> normalizeText (a_text a) = u :: txt ->
      announcementItem h c a (u :: txt) when = Some (dk, it) -> Q it) ->
  within seen Q (dayBuckets st) ->
  NoDup (seen ++ map (fun a => itemId "ann" (c_id c) (a_id a)) anns) ->
  within (seen ++ map (fun a => itemId "ann" (c_id c) (a_id a)) anns) Q
         (dayBuckets (announcementLoop h clock c anns st)).
Proof.
  revert st seen. induction anns as [|a rest IH]; intros st seen Hq Hw Hnd; simpl.
  - now rewrite app_nil_r.
  - destruct (fresh_head _ _ _ Hnd) as [Hfresh Hnd'].
    assert (Hq' : forall a' u txt when dk it,
               In a' rest -> normalizeText (a_text a') = u :: txt ->
               announcementItem h c a' (u :: txt) when = Some (dk, it) -> Q it)
      by (intros a' u txt when dk it Hin; apply Hq; now right).
    change (seen ++ itemId "ann" (c_id c) (a_id a) :: ?r)
      with (seen ++ [itemId "ann" (c_id c) (a_id a)] ++ r).
    rewrite app_assoc.
    destruct (normalizeText (a_text a)) as [|u txt] eqn:Et.
    + apply IH; auto.
      eapply within_weaken; [|exact Hw]. now apply incl_appl, incl_refl.
    + destruct (anchorDate clock (tick st) (a_updateTime a) (a_creationTime a))
        as [when n].
      destruct (announcementItem h c a (u :: txt) when) as [[dk it]|] eqn:E.
      * destruct (announcementItem_shape c a _ when dk it E) as [Hid _].
        apply IH; auto. simpl. rewrite <- Hid. apply within_push; auto.
        -- now rewrite Hid.
        -- eapply Hq; [now left | exact Et | exact E].
      * simpl. eapply within_weaken; [|exact Hw].
        rewrite <- app_assoc. now apply incl_appl, incl_refl.
Qed.

Lemma courseStep_delivered (st : RunState) (f : CourseFeed) :
  courseStep h clock st f
  = announcementLoop h clock (course f) (delivered (announcements f))
      (courseWorkLoop h clock (course f) (delivered (courseWork f)) st).
Proof.
  unfold courseStep. destruct (courseWork f), (announcements f); reflexivity.
Qed.

Lemma collect_within (feeds0 feeds : list CourseFeed) (st : RunState)
    (seen : list JSString) :
  incl feeds feeds0 ->
  within seen (origin feeds0) (dayBuckets st) ->
  NoDup (seen ++ flat_map candidateIds feeds) ->
  within (seen ++ flat_map candidateIds feeds) (origin feeds0)
         (dayBuckets (collect h clock feeds st)).
Proof.
  revert st seen. induction feeds as [|f r IH]; intros st seen Hin Hw Hnd; simpl.
  - now rewrite app_nil_r.
  - simpl in Hnd. rewrite app_assoc in *.
    assert (Hf : In f feeds0) by (apply Hin; now left).
    apply IH.
    + intros x Hx. apply Hin. now right.
    + rewrite courseStep_delivered. unfold candidateIds. rewrite app_assoc.
      apply NoDup_app_remove_r in Hnd. unfold candidateIds in Hnd.
      rewrite app_assoc in Hnd.
      apply announcementLoop_within.
      * intros a u txt when dk it Ha Et E. right.
        destruct (announcementItem_shape _ _ _ _ _ _ E) as [Hid Ht].
        split; [now exists f, a, u, txt|].
        destruct (displayTitle_nonempty u txt) as (u' & r' & Ed).
        exists u', r'. now rewrite Ht, Ed.
      * apply courseWorkLoop_within.
        -- intros w when dk it Hw' E. left.
           destruct (courseWorkItem_shape _ _ _ _ _ E) as [Hid Ht].
           now exists f, w.
        -- exact Hw.
        -- now apply NoDup_app_remove_r in Hnd.
      * exact Hnd.
    + exact Hnd.
Qed.

(** Every item the buckets hold is of [Q], whatever the ids are. *)
Lemma all_push (Q : Item -> Prop) (dk cn : JSString) (it : Item) (b : Buckets) :
  (forall x, In x (allItems b) -> Q x) -> Q it ->
  forall x, In x (allItems (pushItem dk cn it b)) -> Q x.
Proof.
  intros Hb Hq x Hx.
  apply (Permutation_in _ (pushItem_allItems dk cn it b)) in Hx.
  destruct Hx as [<- | Hx]; auto.
Qed.

Lemma courseWorkLoop_all (c : Course) (Q : Item -> Prop)
    (ws : list RawWorkItem) (st : RunState) :
  (forall w when dk it,
      In w ws -> courseWorkItem h c w when = Some (dk, it) -> Q it) ->
  (forall x, In x (allItems (dayBuckets st)) -> Q x) ->
  forall x, In x (allItems (dayBuckets (courseWorkLoop h clock c ws st))) -> Q x.
Proof.
  revert st. induction ws as [|w rest IH]; intros st Hq Hst; simpl; [exact Hst|].
  destruct (anchorDate clock (tick st) (w_updateTime w) (w_creationTime w))
    as [when n].
  destruct (courseWorkItem h c w when) as [[dk it]|] eqn:E; [|exact Hst].
  apply IH.
  - intros w' when' dk' it' Hin. apply Hq. now right.
  - simpl. apply all_push; [exact Hst|]. eapply Hq; [now left | exact E].
Qed.

Lemma announcementLoop_all (c : Course) (Q : Item -> Prop)
    (anns : list RawAnnouncement) (st : RunState) :
  (forall a u txt when dk it,
      In a anns -> normalizeText (a_text a) = u :: txt ->
      announcementItem h c a (u :: txt) when = Some (dk, it) -> Q it) ->
  (forall x, In x (allItems (dayBuckets st)) -> Q x) ->
  forall x, In x (allItems (dayBuckets (announcementLoop h clock c anns st))) -> Q x.
Proof.
  revert st. induction anns as [|a rest IH]; intros st Hq Hst; simpl; [exact Hst|].
  assert (Hq' : forall a' u txt when dk it,
             In a' rest -> normalizeText (a_text a') = u :: txt ->
             announcementItem h c a' (u :: txt) when = Some (dk, it) -> Q it)
    by (intros a' u txt when dk it Hin; apply Hq; now right).
  destruct (normalizeText (a_text a)) as [|u txt] eqn:Et; [now apply IH|].
  destruct (anchorDate clock (tick st) (a_updateTime a) (a_creationTime a))
    as [when n].
  destruct (announcementItem h c a (u :: txt) when) as [[dk it]|] eqn:E;
    [|exact Hst].
  apply IH; [exact Hq'|]. simpl. apply all_push; [exact Hst|].
  eapply Hq; [now left | exact Et | exact E].
Qed.

(** Whatever the ids of the remote are, every item in the buckets comes
    from a record delivered, with the id and the title that record gives. *)
Lemma collect_origin (feeds0 feeds : list CourseFeed) (st : RunState) :
  incl feeds feeds0 ->
  (forall x, In x (allItems (dayBuckets st)) -> origin feeds0 x) ->
  forall x, In x (allItems (dayBuckets (collect h clock feeds st))) ->
            origin feeds0 x.
Proof.
  revert st. induction feeds as [|f r IH]; intros st Hin Hst; simpl; [exact Hst|].
  assert (Hf : In f feeds0) by (apply Hin; now left).
  apply IH; [intros x Hx; apply Hin; now right|].
  rewrite courseStep_delivered.
  apply announcementLoop_all.
  - intros a u txt when dk it Ha Et E. right.
    destruct (announcementItem_shape _ _ _ _ _ _ E) as [Hid Ht].
    split; [now exists f, a, u, txt|].
    destruct (displayTitle_nonempty u txt) as (u' & r' & Ed).
    exists u', r'. now rewrite Ht, Ed.
  - apply courseWorkLoop_all; [|exact Hst].
    intros w when dk it Hw' E. left.
    destruct (courseWorkItem_shape _ _ _ _ _ E) as [Hid Ht].
    now exists f, w.
Qed.

(** C7, as amended: in every run an item written comes from a record
    delivered and has the id made of that record's kind, course id and
    native id; an item made of an announcement has a title that is not
    empty, and an item made of coursework has the title of its record, as
    it is; and the ids of the items written are pairwise distinct when the
    course ids are distinct and hold no colon and the native ids are
    distinct within each list of each course. *)
Theorem item_ids_distinct_and_titles
    (feeds : list CourseFeed) :
  (remoteIdsDistinct feeds ->
   NoDup (map id (outputItems (build h clock feeds)))) /\
  forall it, In it (outputItems (build h clock feeds)) ->
    fromCourseWork feeds it \/
    (fromAnnouncement feeds it /\ exists u r, title it = Some (u :: r)).
Proof.
  split.
  - intros Hd.
    destruct (collect_within feeds feeds initial [] (incl_refl _)) as (H1 & _ & _).
    + repeat split; [constructor | intros x [] | intros it []].
    + simpl. now apply candidateIds_distinct.
    + apply (Permutation_NoDup
               (Permutation_sym (Permutation_map id (outputItems_perm h clock feeds)))).
      exact H1.
  - intros it Hit.
    apply (collect_origin feeds feeds initial (incl_refl _)).
    + intros x [].
    + now apply item_written.
Qed.

End ItemOrigins.

Section ItemIdSamples.
Import JS Clock Host Records DayBuilder.

Lemma twoCourses_distinct : remoteIdsDistinct Samples.feedsTwoCourses.
Proof.
  split.
  - repeat constructor; simpl; intuition discriminate.
  - intros f [<- | [<- | []]]; (split; [|split]);
      try (unfold colonFree; simpl; intuition discriminate);
      repeat constructor; simpl; intuition discriminate.
Qed.

(** The ids of a record listed twice are not distinct. *)
Lemma repeated_not_distinct : ~ remoteIdsDistinct Samples.feedsRepeated.
Proof.
  intros [_ H]. destruct (H _ (or_introl eq_refl)) as (_ & Hw & _).
  simpl in Hw. inversion Hw as [|? ? Hn _]; subst. apply Hn. now left.
Qed.

Lemma item_ids_distinct_and_titles_witness :
  (remoteIdsDistinct Samples.feedsTwoCourses /\
   NoDup (map id (outputItems (build Samples.icuHost Samples.stillClock
                                 Samples.feedsTwoCourses)))) /\
  (forall it, In it (outputItems (build Samples.icuHost Samples.stillClock
                                    Samples.feedsTwoCourses)) ->
     fromCourseWork Samples.feedsTwoCourses it \/
     (fromAnnouncement Samples.feedsTwoCourses it /\
      exists u r, title it = Some (u :: r))) /\
  (~ remoteIdsDistinct Samples.feedsRepeated /\
   forall it, In it (outputItems (build Samples.icuHost Samples.stillClock
                                    Samples.feedsRepeated)) ->
     fromCourseWork Samples.feedsRepeated it \/
     (fromAnnouncement Samples.feedsRepeated it /\
      exists u r, title it = Some (u :: r))).
Proof.
  destruct (item_ids_distinct_and_titles Samples.icuHost Samples.stillClock
              Samples.feedsTwoCourses) as [H1 H2].
  destruct (item_ids_distinct_and_titles Samples.icuHost Samples.stillClock
              Samples.feedsRepeated) as [_ H3].
  split; [split; [exact twoCourses_distinct | exact (H1 twoCourses_distinct)]|].
  split; [exact H2|]. split; [exact repeated_not_distinct | exact H3].
Defined.

Example twoCourses_ids :
  map id (outputItems (build Samples.icuHost Samples.stillClock
                         Samples.feedsTwoCourses))
  = [lit "cw:101:2"; lit "ann:101:1"; lit "cw:101:1"; lit "ann:202:1"].
Proof. vm_compute. reflexivity. Qed.

(** C7, as stated, fails: coursework without a title gives an item without
    one, and a record the remote lists twice gives two items of one id. *)
Lemma coursework_title_may_be_empty :
  (exists it,
      In it (outputItems (build Samples.icuHost Samples.stillClock
                            Samples.feedsUntitled)) /\
      id it = lit "cw:101:1" /\ title it = None /\ titleOf it = []) /\
  ~ NoDup (map id (outputItems (build Samples.icuHost Samples.stillClock
                                  Samples.feedsRepeated))).
Proof.
  split.
  - eexists. split; [vm_compute; left; reflexivity|]. repeat split.
  - vm_compute. intros H. inversion H as [|? ? Hn _]; subst.
    apply Hn. now left.
Qed.

End ItemIdSamples.

(** ** The device flow *)

Section DeviceFlowFacts.
Import JS DeviceFlow DeviceReplies.

Lemma timerDelay_positive (ms : Z) : 1 <= timerDelay ms.
Proof.
  unfold timerDelay.
  destruct (Z.ltb_spec ms 1); simpl; [lia|].
  destruct (2147483647 <? ms); lia.
Qed.

Variable ep : Endpoint.
Hypothesis latency_nonneg : forall n, 0 <= latency ep n.

(** With enough turns the loop comes to a result, whatever the replies. *)
Lemma pollLoop_returns (delay expiresAt : Z) (fuel n : nat) (now : Z) :
  (Z.to_nat (expiresAt - now) < fuel)%nat ->
  snd (pollLoop ep delay expiresAt fuel n now) <> None.
Proof.
  revert n now. induction fuel as [|fuel IH]; intros n now Hf; [lia|].
  simpl. destruct (Z.ltb_spec now expiresAt) as [Hlt | Hge]; [|discriminate].
  destruct (reply ep n) as [|tok|error]; try discriminate.
  destruct (retryable error); [|discriminate].
  pose proof (timerDelay_positive delay). pose proof (latency_nonneg n).
  specialize (IH (S n) (now + timerDelay delay + latency ep n) ltac:(lia)).
  destruct (pollLoop ep delay expiresAt fuel (S n)
              (now + timerDelay delay + latency ep n)). exact IH.
Qed.

(** With only pending replies the loop ends by the expiry. *)
Lemma pollLoop_times_out (delay expiresAt : Z) (fuel n : nat) (now : Z) :
  onlyPending ep ->
  (Z.to_nat (expiresAt - now) < fuel)%nat ->
  snd (pollLoop ep delay expiresAt fuel n now) = Some TimedOut.
Proof.
  intros Hp. revert n now. induction fuel as [|fuel IH]; intros n now Hf; [lia|].
  simpl. destruct (Z.ltb_spec now expiresAt) as [Hlt | Hge]; [|reflexivity].
  destruct (Hp n) as (error & -> & ->).
  pose proof (timerDelay_positive delay). pose proof (latency_nonneg n).
  specialize (IH (S n) (now + timerDelay delay + latency ep n) ltac:(lia)).
  destruct (pollLoop ep delay expiresAt fuel (S n)
              (now + timerDelay delay + latency ep n)). exact IH.
Qed.

Lemma pollLoop_unfold (delay expiresAt : Z) (fuel n : nat) (now : Z) :
  pollLoop ep delay expiresAt (S fuel) n now
  = if now <? expiresAt then
      match reply ep n with
      | HttpOk tok => ([now + timerDelay delay], Some (Credential tok))
      | HttpError error =>
          if retryable error
          then (now + timerDelay delay
                  :: fst (pollLoop ep delay expiresAt fuel (S n)
                            (now + timerDelay delay + latency ep n)),
                snd (pollLoop ep delay expiresAt fuel (S n)
                       (now + timerDelay delay + latency ep n)))
          else ([now + timerDelay delay], Some Failed)
      | NetworkError => ([now + timerDelay delay], Some Failed)
      end
    else ([], Some TimedOut).
Proof.
  simpl. destruct (now <? expiresAt); [|reflexivity].
  destruct (reply ep n) as [|tok|error]; try reflexivity.
  destruct (retryable error); [|reflexivity].
  now destruct (pollLoop _ _ _ _ _ _).
Qed.

Lemma timerDelay_in_range (ms : Z) : 1 <= ms <= 2147483647 -> timerDelay ms = ms.
Proof.
  unfold timerDelay. intros [H1 H2].
  replace (ms <? 1) with false by (symmetry; apply Z.ltb_ge; lia).
  now replace (2147483647 <? ms) with false by (symmetry; apply Z.ltb_ge; lia).
Qed.

Lemma sendInstants_succ (wait start : Z) (k : nat) :
  sendInstants ep wait start (S k)
  = sendInstants ep wait start k ++ [loopInstant ep wait start k + wait].
Proof. unfold sendInstants. now rewrite seq_S, map_app. Qed.

Lemma sendInstants_length (wait start : Z) (k : nat) :
  List.length (sendInstants ep wait start k) = k.
Proof. unfold sendInstants. now rewrite length_map, length_seq. Qed.

(** While the replies are retries and the expiry has not come, the loop
    sends its requests one wait after it has come round, and goes on from
    the instant the last reply arrived. *)
Lemma pollLoop_prefix (delay expiresAt start : Z) (k fuel : nat) :
  (forall j, (j < k)%nat ->
     pending ep j = true /\
     loopInstant ep (timerDelay delay) start j < expiresAt) ->
  pollLoop ep delay expiresAt (k + fuel) 0 start
  = (sendInstants ep (timerDelay delay) start k
       ++ fst (pollLoop ep delay expiresAt fuel k
                 (loopInstant ep (timerDelay delay) start k)),
     snd (pollLoop ep delay expiresAt fuel k
            (loopInstant ep (timerDelay delay) start k))).
Proof.
  revert fuel. induction k as [|k IH]; intros fuel Hk.
  - simpl. now destruct (pollLoop ep delay expiresAt fuel 0 start).
  - replace (S k + fuel)%nat with (k + S fuel)%nat by lia.
    rewrite IH by (intros j Hj; apply Hk; lia).
    destruct (Hk k (Nat.lt_succ_diag_r k)) as [Hp Hlt].
    rewrite pollLoop_unfold.
    replace (loopInstant ep (timerDelay delay) start k <? expiresAt) with true
      by (symmetry; now apply Z.ltb_lt).
    unfold pending in Hp.
    destruct (reply ep k) as [|tok|error]; try discriminate.
    rewrite Hp. cbn [fst snd]. rewrite sendInstants_succ, <- app_assoc.
    reflexivity.
Qed.

(** C3, as amended: with an interval that the timer can wait, 5 seconds
    when the device code names none, the flow sends each request one
    interval after the loop has come round; while the replies are pending
    or slow-down and the expiry, 600 seconds when the device code names
    none, has not come, the next request follows after the same interval;
    a granted token ends the flow with the credential of that reply, any
    other error reply or a failed request ends it as failed, and when the
    loop comes round at or after the expiry the flow ends as timed out;
    with enough turns the flow always ends, timed out when every reply is
    pending. *)
Theorem device_flow_polling (device : DeviceCode) (start : Z) (k fuel : nat) :
  let delay := intervalMs device in
  let expiresAt := start + expiryMs device in
  1 <= delay <= 2147483647 ->
  (k < fuel)%nat ->
  (forall j, (j < k)%nat ->
     pending ep j = true /\ loopInstant ep delay start j < expiresAt) ->
  (interval device = None -> delay = 5000) /\
  (expires_in device = None -> expiresAt = start + 600000) /\
  (interval device = Some 0 -> delay = 5000) /\
  (expires_in device = Some 0 -> expiresAt = start + 600000) /\
  (forall v, interval device = Some v -> v <> 0 -> delay = v * 1000) /\
  (forall v, expires_in device = Some v -> v <> 0 -> expiresAt = start + v * 1000) /\
  firstn k (fst (startDeviceAuth ep device start fuel))
  = sendInstants ep delay start k /\
  (loopInstant ep delay start k < expiresAt ->
   (forall tok, reply ep k = HttpOk tok ->
      startDeviceAuth ep device start fuel
      = (sendInstants ep delay start (S k), Some (Credential tok))) /\
   (refused ep k = true ->
      startDeviceAuth ep device start fuel
      = (sendInstants ep delay start (S k), Some Failed)) /\
   (pending ep k = true ->
      firstn (S k) (fst (startDeviceAuth ep device start fuel))
      = sendInstants ep delay start (S k) /\
      loopInstant ep delay start (S k)
      = loopInstant ep delay start k + delay + latency ep k /\
      ((S k < fuel)%nat -> loopInstant ep delay start (S k) < expiresAt ->
       nth_error (fst (startDeviceAuth ep device start fuel)) (S k)
       = Some (loopInstant ep delay start (S k) + delay)) /\
      ((S k < fuel)%nat -> expiresAt <= loopInstant ep delay start (S k) ->
       startDeviceAuth ep device start fuel
       = (sendInstants ep delay start (S k), Some TimedOut)))) /\
  (expiresAt <= loopInstant ep delay start k ->
   startDeviceAuth ep device start fuel
   = (sendInstants ep delay start k, Some TimedOut)) /\
  ((enoughFuel device <= fuel)%nat ->
   snd (startDeviceAuth ep device start fuel) <> None) /\
  (onlyPending ep -> (enoughFuel device <= fuel)%nat ->
   snd (startDeviceAuth ep device start fuel) = Some TimedOut).
Proof.
  intros delay expiresAt Hrange Hfuel Hpre.
  assert (Hfl : forall fuel0, (enoughFuel device <= fuel0)%nat ->
                  (Z.to_nat (expiresAt - start) < fuel0)%nat).
  { unfold enoughFuel, expiresAt. intros fuel0 Hf.
    replace (start + expiryMs device - start) with (expiryMs device) by lia. lia. }
  pose proof (timerDelay_in_range delay Hrange) as Hw.
  assert (Run : forall k' m,
            (forall j, (j < k')%nat ->
               pending ep j = true /\ loopInstant ep delay start j < expiresAt) ->
            fuel = (k' + m)%nat ->
            startDeviceAuth ep device start fuel
            = (sendInstants ep delay start k'
                 ++ fst (pollLoop ep delay expiresAt m k'
                           (loopInstant ep delay start k')),
               snd (pollLoop ep delay expiresAt m k'
                      (loopInstant ep delay start k')))).
  { intros k' m Hk' ->. unfold startDeviceAuth. fold delay expiresAt.
    rewrite (pollLoop_prefix delay expiresAt start k' m); rewrite Hw;
      [reflexivity | exact Hk']. }
  assert (Step : forall m,
            pollLoop ep delay expiresAt (S m) k (loopInstant ep delay start k)
            = if loopInstant ep delay start k <? expiresAt then
                match reply ep k with
                | HttpOk tok =>
                    ([loopInstant ep delay start k + delay], Some (Credential tok))
                | HttpError error =>
                    if retryable error
                    then (loopInstant ep delay start k + delay
                            :: fst (pollLoop ep delay expiresAt m (S k)
                                      (loopInstant ep delay start (S k))),
                          snd (pollLoop ep delay expiresAt m (S k)
                                 (loopInstant ep delay start (S k))))
                    else ([loopInstant ep delay start k + delay], Some Failed)
                | NetworkError =>
                    ([loopInstant ep delay start k + delay], Some Failed)
                end
              else ([], Some TimedOut)).
  { intros m. rewrite pollLoop_unfold, Hw. reflexivity. }
  destruct (Nat.lt_exists_pred 0 (fuel - k) ltac:(lia)) as (m & Hm & _).
  assert (Ef : fuel = (k + S m)%nat) by lia.
  pose proof (Run k (S m) Hpre Ef) as R. rewrite Step in R.
  split; [|split; [|split; [|split; [|split; [|split; [|split; [|split; [|split;
    [|split]]]]]]]]].
  - unfold delay, intervalMs. now intros ->.
  - unfold expiresAt, expiryMs. now intros ->.
  - unfold delay, intervalMs. now intros ->.
  - unfold expiresAt, expiryMs. now intros ->.
  - unfold delay, intervalMs, numberOr. intros v -> Hv.
    now replace (v =? 0) with false by (symmetry; now apply Z.eqb_neq).
  - unfold expiresAt, expiryMs, numberOr. intros v -> Hv.
    now replace (v =? 0) with false by (symmetry; now apply Z.eqb_neq).
  - rewrite R. cbn [fst].
    rewrite firstn_app, sendInstants_length, Nat.sub_diag, firstn_O, app_nil_r.
    apply firstn_all2. rewrite sendInstants_length. lia.
  - intros Hlt.
    assert (T : (loopInstant ep delay start k <? expiresAt) = true)
      by now apply Z.ltb_lt.
    rewrite T in R. split; [|split].
    + intros tok Hr. rewrite R, Hr. cbn [fst snd]. now rewrite sendInstants_succ.
    + intros Hr. rewrite R. unfold refused in Hr. rewrite sendInstants_succ.
      destruct (reply ep k) as [|tok|error]; try discriminate; [reflexivity|].
      destruct (retryable error); [discriminate | reflexivity].
    + intros Hp.
      assert (Hpre' : forall j, (j < S k)%nat ->
                pending ep j = true /\ loopInstant ep delay start j < expiresAt).
      { intros j Hj. destruct (Nat.eq_dec j k) as [-> | Hne]; [now split|].
        apply Hpre. lia. }
      split; [|split; [|split]].
      * rewrite R. unfold pending in Hp.
        destruct (reply ep k) as [|tok|error]; try discriminate.
        rewrite Hp. cbn [fst]. rewrite sendInstants_succ.
        rewrite firstn_app, sendInstants_length.
        replace (S k - k)%nat with 1%nat by lia.
        rewrite (firstn_all2 (n := S k)) by (rewrite sendInstants_length; lia).
        reflexivity.
      * reflexivity.
      * intros Hsk Hlt'.
        destruct (Nat.lt_exists_pred 0 (fuel - S k) ltac:(lia)) as (m' & Hm' & _).
        rewrite (Run (S k) (S m') Hpre' ltac:(lia)). cbn [fst].
        rewrite nth_error_app2 by (rewrite sendInstants_length; lia).
        rewrite sendInstants_length, Nat.sub_diag.
        rewrite pollLoop_unfold, Hw.
        replace (loopInstant ep delay start (S k) <? expiresAt) with true
          by (symmetry; now apply Z.ltb_lt).
        destruct (reply ep (S k)) as [|tok|error]; try reflexivity.
        destruct (retryable error); reflexivity.
      * intros Hsk Hge.
        destruct (Nat.lt_exists_pred 0 (fuel - S k) ltac:(lia)) as (m' & Hm' & _).
        rewrite (Run (S k) (S m') Hpre' ltac:(lia)).
        rewrite pollLoop_unfold.
        replace (loopInstant ep delay start (S k) <? expiresAt) with false
          by (symmetry; now apply Z.ltb_ge).
        cbn [fst snd]. now rewrite app_nil_r.
  - intros Hge. rewrite R.
    replace (loopInstant ep delay start k <? expiresAt) with false
      by (symmetry; now apply Z.ltb_ge).
    cbn [fst snd]. now rewrite app_nil_r.
  - intros Hf. apply pollLoop_returns. now apply Hfl.
  - intros Hp Hf. apply pollLoop_times_out; [exact Hp | now apply Hfl].
Qed.

End DeviceFlowFacts.

Section DeviceFlowSamples.
Import JS DeviceFlow DeviceReplies.

Lemma device_flow_polling_witness :
  (forall n, 0 <= latency Samples.grantsSecond n) /\
  1 <= intervalMs Samples.defaultDevice <= 2147483647 /\
  (forall j, (j < 1)%nat ->
     pending Samples.grantsSecond j = true /\
     loopInstant Samples.grantsSecond (intervalMs Samples.defaultDevice) 0 j
     < 0 + expiryMs Samples.defaultDevice) /\
  startDeviceAuth Samples.grantsSecond Samples.defaultDevice 0
    (enoughFuel Samples.defaultDevice)
  = (sendInstants Samples.grantsSecond (intervalMs Samples.defaultDevice) 0 2,
     Some (Credential Samples.someTokens)).
Proof.
  assert (H : forall n, 0 <= latency Samples.grantsSecond n)
    by (intros n; simpl; lia).
  assert (R : 1 <= intervalMs Samples.defaultDevice <= 2147483647)
    by (vm_compute; split; discriminate).
  assert (L : (1 < enoughFuel Samples.defaultDevice)%nat)
    by (unfold enoughFuel; change (expiryMs Samples.defaultDevice) with 600000; lia).
  assert (P : forall j, (j < 1)%nat ->
            pending Samples.grantsSecond j = true /\
            loopInstant Samples.grantsSecond (intervalMs Samples.defaultDevice) 0 j
            < 0 + expiryMs Samples.defaultDevice).
  { intros j Hj. assert (j = 0%nat) as -> by lia. split; reflexivity. }
  split; [exact H | split; [exact R | split; [exact P|]]].
  destruct (device_flow_polling Samples.grantsSecond H Samples.defaultDevice 0 1
              (enoughFuel Samples.defaultDevice) R L P)
    as (_ & _ & _ & _ & _ & _ & _ & G & _).
  apply G; reflexivity.
Defined.

(** C3, as stated, fails: an interval of more than 2^31 - 1 milliseconds,
    or a negative one, is not waited; the timer takes it for 1 ms, so the
    requests go out a millisecond apart. *)
Lemma interval_out_of_range_is_not_waited :
  intervalMs (mkDeviceCode (Some 2147484) None) = 2147484000 /\
  startDeviceAuth Samples.grantsSecond (mkDeviceCode (Some 2147484) None) 0 3
  = ([1; 2], Some (Credential Samples.someTokens)) /\
  fst (startDeviceAuth Samples.grantsSecond (mkDeviceCode (Some 2147484) None) 0 3)
  <> sendInstants Samples.grantsSecond
       (intervalMs (mkDeviceCode (Some 2147484) None)) 0 2 /\
  startDeviceAuth Samples.grantsSecond (mkDeviceCode (Some (-1)) None) 0 3
  = ([1; 2], Some (Credential Samples.someTokens)).
Proof. vm_compute. repeat split. discriminate. Qed.

(** A pending reply at second 5 and a grant at second 10 give the
    credential. *)
Example pending_then_granted :
  startDeviceAuth Samples.grantsSecond Samples.defaultDevice 0
    (enoughFuel Samples.defaultDevice)
  = ([5000; 10000], Some (Credential Samples.someTokens)).
Proof. reflexivity. Qed.

(** Pending replies past an expiry of 12 seconds give a timeout after the
    requests of seconds 5, 10 and 15. *)
Example pending_until_expiry :
  startDeviceAuth Samples.neverGrants Samples.shortDevice 0
    (enoughFuel Samples.shortDevice)
  = ([5000; 10000; 15000], Some TimedOut).
Proof. vm_compute. reflexivity. Qed.

End DeviceFlowSamples.

(** ** The loopback listener *)

Section LoopbackFacts.
Import JS Loopback.

Lemma carriesCode_serve (st : Listener) (req : Request) (c : JSString) :
  carriesCode req = Some c ->
  serve st req
  = (mkListener false (resolve c (codePromise st)),
     Some (mkResponse 200 (Some (lit "text/plain"))
                      (lit "OK. You can close this tab."))).
Proof.
  unfold serve, carriesCode. intros H.
  destruct req as [|p [[|u r]|]]; try discriminate.
  destruct (str_eqb p callbackPath) eqn:E; [|discriminate].
  injection H as <-. unfold handler. now rewrite E.
Qed.

Lemma noCode_serve (st : Listener) (req : Request) :
  carriesCode req = None -> req <> BadUrl ->
  serve st req = (st, snd (serve st req)) /\
  snd (serve st req) <> None /\
  fst (serve st req) = st.
Proof.
  unfold serve, carriesCode. intros H Hb.
  destruct req as [|p code]; [congruence|]. unfold handler.
  destruct (str_eqb p callbackPath) eqn:E; simpl; [|repeat split; discriminate].
  destruct code as [[|u r]|]; try discriminate; repeat split; discriminate.
Qed.

(** Once the promise is resolved and the listener closed, no request that
    still reaches the handler changes either. *)
Lemma resolved_stays (c : JSString) (req : Request) :
  fst (serve (mkListener false (Resolved c)) req) = mkListener false (Resolved c).
Proof.
  unfold serve, handler. destruct req as [|p code]; [reflexivity|].
  destruct (negb (str_eqb p callbackPath)); [reflexivity|].
  destruct code as [[|u r]|]; reflexivity.
Qed.

Lemma serveAll_resolved (c : JSString) (reqs : list Request) :
  serveAll (mkListener false (Resolved c)) reqs = mkListener false (Resolved c).
Proof.
  induction reqs as [|r rest IH]; [reflexivity|].
  change (serveAll (fst (serve (mkListener false (Resolved c)) r)) rest
          = mkListener false (Resolved c)).
  now rewrite resolved_stays.
Qed.

(** C4, as amended: of the requests that reach the handler, one to another
    path is answered 404 and one to the callback path without a code 400,
    both leaving the listener and the flow as they are; one with a code is
    answered 200 with the static text, closes the listener and hands the
    code on if the flow still awaits one; one on which the handler throws
    gets no answer and fails a flow that still awaits, the listener staying
    as it is; so that of any sequence of requests the first with a code,
    none before it making the handler throw, is the one whose code the flow
    gets, whatever reaches the handler after it. *)
Theorem callback_responses (st : Listener) (p : JSString) (code : option JSString) :
  (p <> callbackPath ->
   serve st (Url p code) = (st, Some (mkResponse 404 None (lit "Not found")))) /\
  (p = callbackPath -> truthy code = false ->
   serve st (Url p code) = (st, Some (mkResponse 400 None (lit "Missing code"))) /\
   listening (fst (serve st (Url p code))) = listening st /\
   flowState (fst (serve st (Url p code))) = flowState st) /\
  (p = callbackPath -> forall c, code = Some c -> c <> [] ->
   serve st (Url p code)
   = (mkListener false (resolve c (codePromise st)),
      Some (mkResponse 200 (Some (lit "text/plain"))
                       (lit "OK. You can close this tab."))) /\
   (codePromise st = Pending ->
    flowState (fst (serve st (Url p code))) = CodeReceived c) /\
   (codePromise st <> Pending ->
    flowState (fst (serve st (Url p code))) = flowState st)) /\
  (serve st BadUrl = (mkListener (listening st) (reject (codePromise st)), None) /\
   (codePromise st = Pending -> flowState (fst (serve st BadUrl)) = Failed)) /\
  (forall pre r post c,
      carriesCode r = Some c ->
      (forall r', In r' pre -> carriesCode r' = None /\ r' <> BadUrl) ->
      serveAll started (pre ++ r :: post) = mkListener false (Resolved c)).
Proof.
  split; [|split; [|split; [|split]]].
  - intros Hp. unfold serve, handler.
    now replace (str_eqb p callbackPath) with false
      by (symmetry; now apply str_eqb_neq).
  - intros -> Hc.
    assert (E : serve st (Url callbackPath code)
                = (st, Some (mkResponse 400 None (lit "Missing code")))).
    { unfold serve, handler. rewrite str_eqb_refl. simpl.
      destruct code as [[|u r]|]; try reflexivity. discriminate. }
    rewrite E. auto.
  - intros -> c -> Hc.
    assert (E : serve st (Url callbackPath (Some c))
                = (mkListener false (resolve c (codePromise st)),
                   Some (mkResponse 200 (Some (lit "text/plain"))
                                    (lit "OK. You can close this tab.")))).
    { apply carriesCode_serve. unfold carriesCode.
      destruct c; [congruence|]. now rewrite str_eqb_refl. }
    rewrite E. split; [reflexivity|]. unfold flowState. simpl. split.
    + now intros ->.
    + intros Hp. destruct (codePromise st); [congruence | reflexivity | reflexivity].
  - split; [reflexivity|]. intros Hp. unfold flowState. simpl. now rewrite Hp.
  - intros pre r post c Hc Hpre. unfold serveAll. rewrite fold_left_app.
    assert (E : fold_left (fun s r0 => fst (serve s r0)) pre started = started).
    { induction pre as [|x pre' IH]; [reflexivity|]. simpl.
      destruct (Hpre x (or_introl eq_refl)) as [Hx1 Hx2].
      destruct (noCode_serve started x Hx1 Hx2) as (_ & _ & ->).
      apply IH. intros r' Hr'. apply Hpre. now right. }
    rewrite E. simpl. rewrite (carriesCode_serve started r c Hc). simpl.
    now apply (serveAll_resolved c post).
Qed.

Lemma callback_responses_witness :
  serveAll started
    [Url (lit "/favicon.ico") None; Url callbackPath None;
     Url callbackPath (Some (lit "4/0AX4"));
     Url callbackPath (Some (lit "4/0BY5"))]
  = mkListener false (Resolved (lit "4/0AX4")).
Proof.
  destruct (callback_responses started callbackPath None)
    as (_ & _ & _ & _ & H).
  apply (H [Url (lit "/favicon.ico") None; Url callbackPath None]).
  - reflexivity.
  - intros r' [<- | [<- | []]]; split; (reflexivity || discriminate).
Defined.

(** C4, as stated, fails: a request to the callback path without a code is
    answered 400 and leaves the flow awaiting a redirect, not failed; and
    when the handler throws the flow fails while the listener stays open. *)
Lemma missing_code_keeps_waiting :
  serve started (Url callbackPath None)
  = (started, Some (mkResponse 400 None (lit "Missing code"))) /\
  flowState (fst (serve started (Url callbackPath None))) = AwaitingRedirect /\
  flowState (fst (serve started (Url callbackPath None))) <> Failed /\
  flowState (fst (serve started BadUrl)) = Failed /\
  listening (fst (serve started BadUrl)) = true.
Proof. repeat split. discriminate. Qed.

End LoopbackFacts.

(** ** The order of day keys *)

Section CalendarOrder.
Import JS Clock Calendar.

Ltac div_lia := Z.div_mod_to_equations; lia.

Ltac eval_monthStart :=
  repeat match goal with
         | |- context [monthStart ?l (Z.pos ?p)] =>
             let v := eval vm_compute in (monthStart l (Z.pos p)) in
             change (monthStart l (Z.pos p)) with v
         | |- context [monthStart ?l 0] =>
             let v := eval vm_compute in (monthStart l 0) in
             change (monthStart l 0) with v
         end.

Ltac settle_tests :=
  repeat match goal with
         | |- context [?a <? ?b] =>
             first [ replace (a <? b) with true by (symmetry; apply Z.ltb_lt; lia)
                   | replace (a <? b) with false by (symmetry; apply Z.ltb_ge; lia) ]
         end; cbv iota.

Ltac eval_eqb :=
  repeat match goal with
         | |- context [?a =? ?b] =>
             let v := eval vm_compute in (a =? b) in change (a =? b) with v
         end; cbv iota; cbn [orb].

(** The month a day of the year falls in, and its day of the month. *)
Lemma month_of_day (leap : bool) (y w : Z) :
  InLeapYear y = leap ->
  0 <= w < (if leap then 366 else 365) ->
  let M :=
    (if w <? monthStart leap 1 then 0
     else if w <? monthStart leap 2 then 1
     else if w <? monthStart leap 3 then 2
     else if w <? monthStart leap 4 then 3
     else if w <? monthStart leap 5 then 4
     else if w <? monthStart leap 6 then 5
     else if w <? monthStart leap 7 then 6
     else if w <? monthStart leap 8 then 7
     else if w <? monthStart leap 9 then 8
     else if w <? monthStart leap 10 then 9
     else if w <? monthStart leap 11 then 10
     else 11) in
  0 <= M <= 11 /\
  1 <= w - monthStart leap M + 1 <= daysInMonth y (M + 1).
Proof.
  intros El Hw. cbv zeta. unfold daysInMonth. rewrite El.
  destruct leap; eval_monthStart.
  - assert (C : w < 31 \/ 31 <= w < 60 \/ 60 <= w < 91 \/ 91 <= w < 121 \/
                121 <= w < 152 \/ 152 <= w < 182 \/ 182 <= w < 213 \/
                213 <= w < 244 \/ 244 <= w < 274 \/ 274 <= w < 305 \/
                305 <= w < 335 \/ 335 <= w) by lia.
    repeat (destruct C as [C | C];
            [settle_tests; eval_monthStart; eval_eqb; lia|]).
    settle_tests; eval_monthStart; eval_eqb; lia.
  - assert (C : w < 31 \/ 31 <= w < 59 \/ 59 <= w < 90 \/ 90 <= w < 120 \/
                120 <= w < 151 \/ 151 <= w < 181 \/ 181 <= w < 212 \/
                212 <= w < 243 \/ 243 <= w < 273 \/ 273 <= w < 304 \/
                304 <= w < 334 \/ 334 <= w) by lia.
    repeat (destruct C as [C | C];
            [settle_tests; eval_monthStart; eval_eqb; lia|]).
    settle_tests; eval_monthStart; eval_eqb; lia.
Qed.

(** Every day number is the day of a date that exists. *)
Lemma day_decompose (n : Z) :
  let y := YearFromDay n in
  let m := MonthFromDay n + 1 in
  let d := DateFromDay n in
  1 <= m <= 12 /\ 1 <= d <= daysInMonth y m /\ MakeDay y (m - 1) d = n.
Proof.
  intros y m d.
  pose proof (YearFromDay_spec n) as Hs. fold y in Hs.
  rewrite DayFromYear_succ in Hs.
  assert (Hw : 0 <= DayWithinYear n < (if InLeapYear y then 366 else 365))
    by (unfold DayWithinYear, DaysInYear in *; fold y; lia).
  pose proof (month_of_day (InLeapYear y) y (DayWithinYear n) eq_refl Hw) as HM.
  fold y in HM. change (0 <= MonthFromDay n <= 11 /\
                        1 <= DateFromDay n <= daysInMonth y (MonthFromDay n + 1)) in HM.
  destruct HM as [HM HD]. fold m d in HD.
  split; [unfold m; lia|]. split; [exact HD|].
  unfold MakeDay. replace ((m - 1) / 12) with 0 by (unfold m; div_lia).
  replace ((m - 1) mod 12) with (m - 1) by (unfold m; div_lia).
  rewrite Z.add_0_r. unfold d, DateFromDay, m, DayWithinYear. fold y.
  replace (MonthFromDay n + 1 - 1) with (MonthFromDay n) by lia. lia.
Qed.


Lemma monthStart_next (leap : bool) (y M M' : Z) :
  InLeapYear y = leap -> 0 <= M -> M < M' <= 11 ->
  monthStart leap M + daysInMonth y (M + 1) <= monthStart leap M'.
Proof.
  intros El H0 H1. unfold daysInMonth. rewrite El.
  assert (C : M = 0 \/ M = 1 \/ M = 2 \/ M = 3 \/ M = 4 \/ M = 5 \/ M = 6 \/
              M = 7 \/ M = 8 \/ M = 9 \/ M = 10) by lia.
  assert (C' : M' = 1 \/ M' = 2 \/ M' = 3 \/ M' = 4 \/ M' = 5 \/ M' = 6 \/
               M' = 7 \/ M' = 8 \/ M' = 9 \/ M' = 10 \/ M' = 11) by lia.
  destruct leap;
    repeat (destruct C as [C | C]); subst M;
    repeat (destruct C' as [C' | C']); subst M'; try lia;
    vm_compute; discriminate.
Qed.

Lemma year_order (n1 n2 : Z) : n1 <= n2 -> YearFromDay n1 <= YearFromDay n2.
Proof.
  intros H. pose proof (YearFromDay_spec n1) as S1. pose proof (YearFromDay_spec n2) as S2.
  destruct (Z_le_gt_dec (YearFromDay n1) (YearFromDay n2)) as [L | G]; [exact L|].
  pose proof (DayFromYear_mono (YearFromDay n2 + 1) (YearFromDay n1) ltac:(lia)). lia.
Qed.

(** Later days have later dates: the year, then the month, then the day of
    the month decide. *)
Lemma day_order (n1 n2 : Z) :
  n1 < n2 ->
  YearFromDay n1 < YearFromDay n2 \/
  (YearFromDay n1 = YearFromDay n2 /\ MonthFromDay n1 < MonthFromDay n2) \/
  (YearFromDay n1 = YearFromDay n2 /\ MonthFromDay n1 = MonthFromDay n2 /\
   DateFromDay n1 < DateFromDay n2).
Proof.
  intros H. pose proof (year_order n1 n2 ltac:(lia)) as Hy.
  destruct (Z.eq_dec (YearFromDay n1) (YearFromDay n2)) as [E | N]; [|left; lia].
  right.
  destruct (day_decompose n1) as (Hm1 & Hd1 & E1).
  destruct (day_decompose n2) as (Hm2 & Hd2 & E2).
  unfold MakeDay in E1, E2.
  replace ((MonthFromDay n1 + 1 - 1) / 12) with 0 in E1 by div_lia.
  replace ((MonthFromDay n1 + 1 - 1) mod 12) with (MonthFromDay n1) in E1 by div_lia.
  replace ((MonthFromDay n2 + 1 - 1) / 12) with 0 in E2 by div_lia.
  replace ((MonthFromDay n2 + 1 - 1) mod 12) with (MonthFromDay n2) in E2 by div_lia.
  rewrite Z.add_0_r in E1, E2. rewrite <- E in *.
  set (y := YearFromDay n1) in *.
  destruct (Z.lt_trichotomy (MonthFromDay n1) (MonthFromDay n2)) as [L | [Em | G]].
  - left. auto.
  - right. rewrite Em in *. repeat split; auto. lia.
  - exfalso.
    pose proof (monthStart_next (InLeapYear y) y (MonthFromDay n2) (MonthFromDay n1)
                  eq_refl ltac:(lia) ltac:(lia)). lia.
Qed.

Lemma lexCompare_trans_lt (s t u : list N) :
  lexCompare s t = Lt -> lexCompare t u = Lt -> lexCompare s u = Lt.
Proof.
  intros H1 H2.
  assert (Hle : lexCompare s u <> Gt)
    by (apply (lexCompare_trans_le s t u); congruence).
  destruct (lexCompare s u) eqn:E; [|reflexivity|congruence].
  apply lexCompare_eq in E. subst u.
  rewrite (lexCompare_antisym s t), H1 in H2. discriminate.
Qed.

(** A function that ascends from each integer to the next ascends. *)
Lemma ascends_by_steps (f : Z -> JSString) (lo hi : Z) :
  (forall z, lo <= z < hi -> str_lt (f z) (f (z + 1))) ->
  forall a b, lo <= a -> a < b -> b <= hi -> str_lt (f a) (f b).
Proof.
  intros Hstep a b Ha Hab Hb.
  replace b with (a + 1 + Z.of_nat (Z.to_nat (b - a - 1))) by lia.
  assert (Hk : a + 1 + Z.of_nat (Z.to_nat (b - a - 1)) <= hi) by lia.
  revert Hk. generalize (Z.to_nat (b - a - 1)) as k. induction k as [|k IH]; intros Hk.
  - rewrite Z.add_0_r. apply Hstep. lia.
  - unfold str_lt in *. eapply lexCompare_trans_lt; [apply IH; lia|].
    replace (a + 1 + Z.of_nat (S k)) with (a + 1 + Z.of_nat k + 1) by lia.
    apply Hstep. lia.
Qed.

Lemma numericYear_ascends (a b : Z) :
  1000 <= a -> a < b -> b <= 9999 -> str_lt (numericYear a) (numericYear b).
Proof.
  apply ascends_by_steps. intros z Hz.
  assert (H : str_ltb (numericYear z) (numericYear (z + 1)) = true).
  { apply (checkRange_sound
             (fun z => str_ltb (numericYear z) (numericYear (z + 1))) 1000 9998);
      [vm_compute; reflexivity | lia]. }
  unfold str_ltb, str_lt in *. destruct (lexCompare _ _); congruence.
Qed.

Lemma twoDigit_ascends (a b : Z) :
  1 <= a -> a < b -> b <= 99 -> str_lt (twoDigit a) (twoDigit b).
Proof.
  apply ascends_by_steps. intros z Hz.
  assert (H : str_ltb (twoDigit z) (twoDigit (z + 1)) = true).
  { apply (checkRange_sound
             (fun z => str_ltb (twoDigit z) (twoDigit (z + 1))) 1 98);
      [vm_compute; reflexivity | lia]. }
  unfold str_ltb, str_lt in *. destruct (lexCompare _ _); congruence.
Qed.

Lemma numericYear_length (y : Z) :
  1000 <= y <= 9999 -> List.length (numericYear y) = 4%nat.
Proof.
  intros H. apply Nat.eqb_eq.
  apply (checkRange_sound (fun z => Nat.eqb (List.length (numericYear z)) 4) 1000 9999);
    [vm_compute; reflexivity | lia].
Qed.

Lemma twoDigit_length (n : Z) :
  0 <= n <= 99 -> List.length (twoDigit n) = 2%nat.
Proof.
  intros H. apply Nat.eqb_eq.
  apply (checkRange_sound (fun z => Nat.eqb (List.length (twoDigit z)) 2) 0 99);
    [vm_compute; reflexivity | lia].
Qed.

Lemma lex_app_same (a r1 r2 : list N) :
  lexCompare (a ++ r1) (a ++ r2) = lexCompare r1 r2.
Proof.
  induction a as [|x a IH]; simpl; [reflexivity|]. now rewrite N.compare_refl.
Qed.

Lemma lex_app_lt (a b r1 r2 : list N) :
  List.length a = List.length b -> lexCompare a b = Lt ->
  lexCompare (a ++ r1) (b ++ r2) = Lt.
Proof.
  revert b. induction a as [|x a IH]; intros [|y b] Hl H; simpl in *;
    try discriminate.
  destruct (N.compare x y); try congruence. apply IH; [lia | exact H].
Qed.

Lemma year_in_range (n : Z) :
  DayFromYear 1000 <= n < DayFromYear 10000 -> 1000 <= YearFromDay n <= 9999.
Proof.
  intros H. pose proof (YearFromDay_spec n) as S. split.
  - destruct (Z_le_gt_dec 1000 (YearFromDay n)) as [L | G]; [exact L|].
    pose proof (DayFromYear_mono (YearFromDay n + 1) 1000 ltac:(lia)). lia.
  - destruct (Z_le_gt_dec (YearFromDay n) 9999) as [L | G]; [exact L|].
    pose proof (DayFromYear_mono 10000 (YearFromDay n) ltac:(lia)). lia.
Qed.

(** The keys of days of four-digit years ascend with the days. *)
Lemma formatDay_ascends (n1 n2 : Z) :
  DayFromYear 1000 <= n1 -> n1 < n2 -> n2 < DayFromYear 10000 ->
  str_lt (formatDay n1) (formatDay n2).
Proof.
  intros Hlo Hlt Hhi.
  pose proof (year_in_range n1 ltac:(lia)) as Hy1.
  pose proof (year_in_range n2 ltac:(lia)) as Hy2.
  destruct (day_decompose n1) as (Hm1 & Hd1 & _).
  destruct (day_decompose n2) as (Hm2 & Hd2 & _).
  pose proof (daysInMonth_bounds (YearFromDay n1) (MonthFromDay n1 + 1)).
  pose proof (daysInMonth_bounds (YearFromDay n2) (MonthFromDay n2 + 1)).
  unfold str_lt, formatDay.
  destruct (day_order n1 n2 Hlt) as [Hy | [[Ey Hm] | (Ey & Em & Hd)]].
  - apply lex_app_lt.
    + now rewrite !numericYear_length.
    + apply numericYear_ascends; lia.
  - rewrite Ey, lex_app_same, lex_app_same. apply lex_app_lt.
    + rewrite !twoDigit_length; lia.
    + apply twoDigit_ascends; lia.
  - rewrite Ey, Em, !lex_app_same. apply twoDigit_ascends; lia.
Qed.
End CalendarOrder.

Section DayKeyFacts.
Import JS Clock Calendar.

Lemma localDay_in_range (zone : Z -> Z) (t : Z) :
  zone t = kstOffset -> firstInstant <= t < endInstant ->
  DayFromYear 1000 <= localDay zone t < DayFromYear 10000.
Proof.
  unfold localDay, firstInstant, endInstant, kstOffset, msPerDay, msPerMinute.
  intros -> H.
  change (DayFromYear 1000) with (-354285) in *.
  change (DayFromYear 10000) with 2932897 in *.
  Z.div_mod_to_equations. lia.
Qed.

(** X1: whatever the instant and the zone, the day key names a date that
    exists, the one the instant falls on in the zone: digits of the year, a
    hyphen, the month as two digits from 01 to 12, a hyphen, the day as two
    digits from 01 to the length of that month; only the invalid date has
    no key. *)
Theorem day_key_names_a_date (zone : Z -> Z) (t : Z) :
  kstDayKey zone InvalidDate = None /\
  exists y m d,
    1 <= m <= 12 /\ 1 <= d <= daysInMonth y m /\
    MakeDay y (m - 1) d = localDay zone t /\
    kstDayKey zone (ValidDate t)
    = Some (numericYear y ++ [hyphen] ++ twoDigit m ++ [hyphen] ++ twoDigit d) /\
    Forall isDigit (numericYear y) /\ numericYear y <> [] /\
    Forall isDigit (twoDigit m) /\ List.length (twoDigit m) = 2%nat /\
    Forall isDigit (twoDigit d) /\ List.length (twoDigit d) = 2%nat.
Proof.
  split; [reflexivity|].
  destruct (day_decompose (localDay zone t)) as (Hm & Hd & E).
  pose proof (daysInMonth_bounds (YearFromDay (localDay zone t))
                (MonthFromDay (localDay zone t) + 1)) as Hb.
  exists (YearFromDay (localDay zone t)), (MonthFromDay (localDay zone t) + 1),
    (DateFromDay (localDay zone t)).
  repeat split; try lia; try exact E.
  - apply numericYear_digits.
  - unfold numericYear, decimal, NilZero.string_of_uint.
    destruct (1 <=? _); destruct (N.to_uint _); discriminate.
  - apply twoDigit_digits.
  - apply twoDigit_length. lia.
  - apply twoDigit_digits.
  - apply twoDigit_length. lia.
Qed.

(** X2: between the years 1000 and 9999 of a Seoul zone nine hours east of
    UTC the day keys ascend, code unit by code unit, with the instants: a
    later instant never has a smaller key, and two instants have the same
    key exactly when they fall on the same day in Seoul. *)
Theorem day_keys_ascend_with_time (zone : Z -> Z) (t1 t2 : Z) :
  zone t1 = kstOffset -> zone t2 = kstOffset ->
  firstInstant <= t1 -> t1 <= t2 -> t2 < endInstant ->
  exists k1 k2,
    kstDayKey zone (ValidDate t1) = Some k1 /\
    kstDayKey zone (ValidDate t2) = Some k2 /\
    str_le k1 k2 /\
    (k1 = k2 <-> localDay zone t1 = localDay zone t2).
Proof.
  intros Z1 Z2 Hlo Hle Hhi.
  pose proof (localDay_in_range zone t1 Z1 ltac:(lia)) as R1.
  pose proof (localDay_in_range zone t2 Z2 ltac:(lia)) as R2.
  assert (Hn : localDay zone t1 <= localDay zone t2).
  { unfold localDay. rewrite Z1, Z2. apply Z.div_le_mono; [reflexivity | lia]. }
  exists (formatDay (localDay zone t1)), (formatDay (localDay zone t2)).
  split; [reflexivity|]. split; [reflexivity|].
  destruct (Z.eq_dec (localDay zone t1) (localDay zone t2)) as [E | N].
  - rewrite E. split; [|tauto]. unfold str_le. now rewrite lexCompare_refl.
  - assert (Hlt : str_lt (formatDay (localDay zone t1)) (formatDay (localDay zone t2)))
      by (apply formatDay_ascends; lia).
    unfold str_lt, str_le in *. split; [congruence|]. split; [|tauto].
    intros Ek. rewrite Ek, lexCompare_refl in Hlt. discriminate.
Qed.

Lemma day_keys_ascend_with_time_witness :
  exists k1 k2,
    kstDayKey fixedKst (ValidDate Samples.t0) = Some k1 /\
    kstDayKey fixedKst (ValidDate (Samples.t0 + 86400000)) = Some k2 /\
    str_le k1 k2 /\
    (k1 = k2 <-> localDay fixedKst Samples.t0
                 = localDay fixedKst (Samples.t0 + 86400000)).
Proof.
  apply (day_keys_ascend_with_time fixedKst Samples.t0 (Samples.t0 + 86400000));
    try reflexivity; vm_compute; discriminate.
Defined.

(** X3: a due date without a time of day, in a year from 1000 to 9998, is
    read as the last minute of that day in Korean Standard Time: where the
    host's Seoul zone stands nine hours east of UTC, its instant and the
    59999 milliseconds after it have the day key of the date, and the
    instant a minute later has a greater key; where the zone stands ten
    hours east, as under summer time, the due instant itself has a greater
    key than the date. *)
Theorem due_without_time_ends_the_day (zone : Z -> Z) (dd : DueDate) :
  1000 <= year dd <= 9998 -> validDate dd ->
  exists t,
    googleDueToDate (Some dd) None defaultTzOffsetMinutes = Some (ValidDate t) /\
    (zone t = kstOffset ->
     kstDayKey zone (ValidDate t) = Some (isoDay (year dd) (month dd) (day dd))) /\
    (zone (t + 59999) = kstOffset ->
     kstDayKey zone (ValidDate (t + 59999))
     = Some (isoDay (year dd) (month dd) (day dd))) /\
    (zone (t + 60000) = kstOffset ->
     exists k, kstDayKey zone (ValidDate (t + 60000)) = Some k /\
               str_lt (isoDay (year dd) (month dd) (day dd)) k) /\
    (zone t = kstOffset + msPerHour ->
     exists k, kstDayKey zone (ValidDate t) = Some k /\
               str_lt (isoDay (year dd) (month dd) (day dd)) k).
Proof.
  intros Hy Hv.
  assert (Ht : validTime None) by (unfold validTime; simpl; lia).
  pose proof (due_instant dd None ltac:(lia) Hv Ht) as E.
  destruct Hv as [Hm Hd].
  pose proof (daysInMonth_bounds (year dd) (month dd)) as Hb.
  destruct (civil_roundtrip (year dd) (month dd) (day dd) Hm Hd) as (E1 & E2 & E3).
  set (n := MakeDay (year dd) (month dd - 1) (day dd)) in *.
  assert (Hkey : formatDay n = isoDay (year dd) (month dd) (day dd)).
  { unfold formatDay, isoDay. rewrite E1, E2, E3.
    rewrite numericYear_four by lia.
    rewrite (twoDigit_pad (month dd)) by lia.
    now rewrite (twoDigit_pad (day dd)) by lia. }
  assert (Hrange : DayFromYear 1000 <= n /\ n + 1 < DayFromYear 10000).
  { pose proof (YearFromDay_spec n) as S. rewrite E1 in S.
    pose proof (DayFromYear_mono 1000 (year dd) ltac:(lia)).
    pose proof (DayFromYear_mono (year dd + 1) 9999 ltac:(lia)).
    pose proof (DayFromYear_succ 9999) as S9.
    change (9999 + 1) with 10000 in S9. unfold DaysInYear in S9.
    destruct (InLeapYear 9999); lia. }
  eexists. split; [exact E|].
  simpl hourOf. simpl minuteOf.
  unfold kstDayKey. rewrite <- Hkey.
  split; [|split; [|split]].
  - intros ->. unfold kstOffset, MakeDate, MakeTime, msPerDay, msPerHour, msPerMinute.
    f_equal. f_equal. Z.div_mod_to_equations. lia.
  - intros ->. unfold kstOffset, MakeDate, MakeTime, msPerDay, msPerHour, msPerMinute.
    f_equal. f_equal. Z.div_mod_to_equations. lia.
  - intros ->. exists (formatDay (n + 1)). split.
    + unfold kstOffset, MakeDate, MakeTime, msPerDay, msPerHour, msPerMinute.
      f_equal. f_equal. Z.div_mod_to_equations. lia.
    + apply formatDay_ascends; lia.
  - intros ->. exists (formatDay (n + 1)). split.
    + unfold kstOffset, MakeDate, MakeTime, msPerDay, msPerHour, msPerMinute.
      f_equal. f_equal. Z.div_mod_to_equations. lia.
    + apply formatDay_ascends; lia.
Qed.

Lemma due_without_time_ends_the_day_witness :
  exists t,
    googleDueToDate (Some (mkDueDate 2024 2 29)) None defaultTzOffsetMinutes
    = Some (ValidDate t) /\
    (fixedKst t = kstOffset ->
     kstDayKey fixedKst (ValidDate t) = Some (isoDay 2024 2 29)) /\
    (fixedKst (t + 59999) = kstOffset ->
     kstDayKey fixedKst (ValidDate (t + 59999)) = Some (isoDay 2024 2 29)) /\
    (fixedKst (t + 60000) = kstOffset ->
     exists k, kstDayKey fixedKst (ValidDate (t + 60000)) = Some k /\
               str_lt (isoDay 2024 2 29) k) /\
    (fixedKst t = kstOffset + msPerHour ->
     exists k, kstDayKey fixedKst (ValidDate t) = Some k /\
               str_lt (isoDay 2024 2 29) k).
Proof.
  apply (due_without_time_ends_the_day fixedKst (mkDueDate 2024 2 29)).
  - vm_compute; split; discriminate.
  - vm_compute; repeat split; discriminate.
Defined.

(** X4: the label of a day key has the length of the key, holds a dot
    wherever the key holds a hyphen and the key's code unit everywhere
    else, and so holds no hyphen; labelling a label changes nothing. *)
Theorem label_swaps_hyphens_for_dots (dayKey : JSString) :
  List.length (kstLabel dayKey) = List.length dayKey /\
  (forall i c, nth_error dayKey i = Some c ->
     nth_error (kstLabel dayKey) i = Some (if N.eqb c hyphen then dot else c)) /\
  ~ In hyphen (kstLabel dayKey) /\
  kstLabel (kstLabel dayKey) = kstLabel dayKey.
Proof.
  unfold kstLabel, replaceAll, unit_eqb, hyphen, dot.
  split; [apply length_map|]. split; [|split].
  - intros i c H. now rewrite nth_error_map, H.
  - intros H. apply in_map_iff in H as (c & Hc & _).
    destruct (N.eqb_spec c 45); [discriminate | congruence].
  - rewrite map_map. apply map_ext. intros c.
    destruct (N.eqb_spec c 45); [reflexivity|].
    destruct (N.eqb_spec c 45); [contradiction | reflexivity].
Qed.

End DayKeyFacts.

(** ** Words and titles *)

Section WordFacts.
Import JS Clock Host Records Words.

Lemma splitWords_through (w cur rest : JSString) :
  Forall solid w -> splitWords cur (w ++ rest) = splitWords (cur ++ w) rest.
Proof.
  intros Hw. revert cur. induction Hw as [|c w Hc Hw IH]; intros cur; simpl.
  - now rewrite app_nil_r.
  - unfold solid in Hc. rewrite Hc, IH, <- app_assoc. reflexivity.
Qed.

Lemma splitWords_space (cur rest : JSString) :
  cur <> [] -> splitWords cur (space :: rest) = cur :: splitWords [] rest.
Proof. intros H. destruct cur; [congruence | reflexivity]. Qed.

(** Splitting what words join to gives the words back. *)
Lemma splitWords_joinWords (w : JSString) (ws : list JSString) (cur : JSString) :
  Forall goodWord (w :: ws) ->
  splitWords cur (joinWords (w :: ws)) = (cur ++ w) :: ws.
Proof.
  revert w cur. induction ws as [|w' r IH]; intros w cur Hg.
  - inversion Hg as [|? ? [Hne Hs] _]; subst. simpl.
    rewrite <- (app_nil_r w) at 1. rewrite splitWords_through by assumption.
    simpl. destruct (cur ++ w) eqn:E; [|reflexivity].
    apply app_eq_nil in E as [_ ->]. congruence.
  - inversion Hg as [|? ? [Hne Hs] Hr]; subst.
    rewrite joinWords_cons by discriminate.
    rewrite splitWords_through by assumption.
    rewrite splitWords_space by (intros E; apply app_eq_nil in E as [_ ->]; congruence).
    now rewrite (IH w' [] Hr).
Qed.

Lemma wordsOf_joinWords (ws : list JSString) :
  Forall goodWord ws -> wordsOf (joinWords ws) = ws.
Proof.
  destruct ws as [|w r]; [reflexivity|]. intros Hg.
  unfold wordsOf. now rewrite splitWords_joinWords.
Qed.

Lemma wordsOf_good (s : JSString) : Forall goodWord (wordsOf s).
Proof. apply splitWords_solid. constructor. Qed.

Lemma filter_solid_word (w : JSString) : Forall solid w -> filter isSolid w = w.
Proof.
  induction 1 as [|c w Hc Hw IH]; simpl; [reflexivity|].
  unfold isSolid, solid in *. now rewrite Hc, IH.
Qed.

Lemma filter_joinWords (ws : list JSString) :
  Forall goodWord ws -> filter isSolid (joinWords ws) = List.concat ws.
Proof.
  induction 1 as [|w r [_ Hs] Hr IH]; [reflexivity|].
  destruct r as [|w' r'].
  - simpl. rewrite app_nil_r. now apply filter_solid_word.
  - rewrite joinWords_cons by discriminate.
    rewrite filter_app, filter_solid_word by assumption.
    replace (filter isSolid (space :: joinWords (w' :: r')))
      with (filter isSolid (joinWords (w' :: r'))) by reflexivity.
    now rewrite IH.
Qed.

Lemma filter_splitWords (s cur : JSString) :
  Forall solid cur ->
  List.concat (splitWords cur s) = cur ++ filter isSolid s.
Proof.
  revert cur. induction s as [|c r IH]; intros cur Hc; simpl.
  - destruct cur; simpl; now rewrite ?app_nil_r.
  - unfold isSolid at 1. destruct (isWhiteSpace c) eqn:E; simpl.
    + destruct cur; simpl; rewrite (IH [] (Forall_nil _)); reflexivity.
    + rewrite IH, <- app_assoc; [reflexivity|].
      apply Forall_app. split; [exact Hc|]. now constructor.
Qed.

Lemma noDoubleBlank_split (s l1 l2 : JSString) (a b : CodeUnit) :
  noDoubleBlank s -> s = l1 ++ a :: b :: l2 -> ~ (blank a /\ blank b).
Proof.
  revert s. induction l1 as [|x l1 IH]; intros s H ->; simpl in H.
  - tauto.
  - destruct H as [_ H]. now apply (IH _ H).
Qed.

Lemma noDoubleBlank_word (w rest : JSString) :
  Forall solid w -> noDoubleBlank rest -> noDoubleBlank (w ++ rest).
Proof.
  induction 1 as [|c w Hc Hw IH]; intros Hr; simpl; [exact Hr|].
  split; [|now apply IH].
  destruct (w ++ rest); [exact I|].
  intros [Hb _]. unfold solid, blank in *. congruence.
Qed.

(** What words join to: it starts with a code unit that is not white
    space, and its white space is single spaces between such code units. *)
Lemma joinWords_spacing (ws : list JSString) :
  Forall goodWord ws ->
  match joinWords ws with [] => True | c :: _ => solid c end /\
  (forall c, In c (joinWords ws) -> blank c -> c = space) /\
  noDoubleBlank (joinWords ws).
Proof.
  induction 1 as [|w r [Hne Hs] Hr (IH1 & IH2 & IH3)].
  - simpl. split; [exact I|]. split; [intros c []|exact I].
  - assert (Hhead : forall rest, match w ++ rest with [] => True | c :: _ => solid c end).
    { intros rest. destruct w as [|c w']; [congruence|]. simpl. now inversion Hs. }
    assert (Hin : forall c, In c w -> blank c -> c = space).
    { intros c Hc Hb. rewrite Forall_forall in Hs. specialize (Hs c Hc).
      unfold solid, blank in *. congruence. }
    destruct r as [|w' r'].
    + simpl. split; [rewrite <- (app_nil_r w); apply Hhead|].
      split; [exact Hin|].
      rewrite <- (app_nil_r w). now apply noDoubleBlank_word.
    + rewrite joinWords_cons by discriminate.
      set (J := joinWords (w' :: r')) in *.
      split; [apply Hhead|]. split.
      * intros c Hc Hb. apply in_app_or in Hc as [Hc | [<- | Hc]]; auto.
      * apply noDoubleBlank_word; [exact Hs|]. simpl. split; [|exact IH3].
        destruct J as [|j J']; [exact I|].
        intros [_ Hb]. unfold solid, blank in *. congruence.
Qed.

(** X5: normalising is idempotent, and the normalised text begins and ends
    with a code unit that is not white space, holds white space only as
    single spaces, never two in a row, and holds the code units of the text
    that are not white space, all of them and in their order. *)
Theorem normalized_text_shape (text : option JSString) :
  let txt := normalizeText text in
  normalizeText (Some txt) = txt /\
  match txt with [] => True | c :: _ => solid c end /\
  endsSolid txt /\
  (forall c, In c txt -> blank c -> c = space) /\
  (forall l1 a b l2, txt = l1 ++ a :: b :: l2 -> ~ (blank a /\ blank b)) /\
  filter isSolid txt = filter isSolid (orEmpty text).
Proof.
  intros txt. unfold txt. rewrite (normalizeText_words text).
  pose proof (wordsOf_good (orEmpty text)) as Hg.
  destruct (joinWords_spacing _ Hg) as (H1 & H2 & H3).
  split.
  { rewrite normalizeText_words. simpl orEmpty. now rewrite wordsOf_joinWords. }
  split; [exact H1|].
  split; [now apply joinWords_endsSolid|].
  split; [exact H2|].
  split.
  { intros l1 a b l2 E. exact (noDoubleBlank_split _ l1 l2 a b H3 E). }
  rewrite filter_joinWords by assumption.
  unfold wordsOf. now rewrite filter_splitWords by constructor.
Qed.

(** X6: a title is never longer than 120 code units: a text of up to 120
    is kept as it is, a longer one gives 118, its first 117 and the
    ellipsis; and a text that is not empty gives a title that is not. *)
Theorem title_length_bounded (txt : JSString) :
  (List.length (displayTitle txt) <= 120)%nat /\
  ((List.length txt <= 120)%nat -> displayTitle txt = txt) /\
  ((120 < List.length txt)%nat ->
   List.length (displayTitle txt) = 118%nat /\
   firstn 117 (displayTitle txt) = firstn 117 txt /\
   nth_error (displayTitle txt) 117 = Some ellipsis) /\
  (txt <> [] -> displayTitle txt <> []).
Proof.
  unfold displayTitle.
  destruct (Nat.ltb_spec 120 (List.length txt)) as [L | G].
  - assert (Hf : List.length (firstn 117 txt) = 117%nat)
      by (rewrite length_firstn; lia).
    repeat split; try lia.
    + rewrite length_app, Hf. simpl. lia.
    + rewrite length_app, Hf. simpl. lia.
    + rewrite firstn_app, Hf, Nat.sub_diag, firstn_O, app_nil_r.
      apply firstn_all2. lia.
    + rewrite nth_error_app2, Hf, Nat.sub_diag by lia. reflexivity.
    + intros _ E. apply app_eq_nil in E as [_ E]. discriminate.
  - repeat split; try lia; auto.
Qed.

End WordFacts.

(** ** Looking up what was pushed *)

Section PushFacts.
Import JS Clock Host Records DayBuilder DayFiles.

Lemma get_absent {V : Type} (k : JSString) (m : JSMap.t V) :
  JSMap.has k m = false -> JSMap.get k m = None.
Proof.
  induction m as [|[k' v] r IH]; simpl; [reflexivity|].
  destruct (str_eqb k k'); simpl; [discriminate | exact IH].
Qed.

Lemma get_set_other {V : Type} (k k' : JSString) (v : V) (m : JSMap.t V) :
  k' <> k -> JSMap.get k' (JSMap.set k v m) = JSMap.get k' m.
Proof.
  intros Hne. induction m as [|[k0 v0] r IH]; simpl.
  - now replace (str_eqb k' k) with false by (symmetry; now apply str_eqb_neq).
  - destruct (str_eqb k k0) eqn:E; simpl.
    + apply str_eqb_eq in E. subst k0.
      now replace (str_eqb k' k) with false by (symmetry; now apply str_eqb_neq).
    + now rewrite IH.
Qed.

Lemma keys_set {V : Type} (k : JSString) (v : V) (m : JSMap.t V) :
  JSMap.keys (JSMap.set k v m)
  = if JSMap.has k m then JSMap.keys m else JSMap.keys m ++ [k].
Proof.
  induction m as [|[k0 v0] r IH]; simpl; [reflexivity|].
  destruct (str_eqb k k0) eqn:E; simpl; [reflexivity|].
  rewrite IH. now destruct (JSMap.has k r).
Qed.

(** The pieces of [pushItem]: the day's map and the course's array it works
    on are those of the buckets, empty when missing. *)
Lemma pushItem_unfold (dk cn : JSString) (it : Item) (b : Buckets) :
  pushItem dk cn it b
  = JSMap.set dk
      (JSMap.set cn (itemsAt b dk cn ++ [it])
         (if JSMap.has cn (bucketOf b dk) then bucketOf b dk
          else JSMap.set cn [] (bucketOf b dk)))
      (if JSMap.has dk b then b else JSMap.set dk [] b).
Proof.
  unfold pushItem, itemsAt, bucketOf.
  destruct (JSMap.has dk b) eqn:Hd.
  - destruct (JSMap.get dk b) as [bc|]; simpl.
    + destruct (JSMap.has cn bc) eqn:Hc; [reflexivity|].
      now rewrite get_set_same, (get_absent cn bc Hc).
    + simpl. now rewrite str_eqb_refl.
  - rewrite get_set_same, (get_absent dk b Hd). simpl. now rewrite str_eqb_refl.
Qed.

Lemma bucketOf_pushItem (dk cn : JSString) (it : Item) (b : Buckets) :
  bucketOf (pushItem dk cn it b) dk
  = JSMap.set cn (itemsAt b dk cn ++ [it])
      (if JSMap.has cn (bucketOf b dk) then bucketOf b dk
       else JSMap.set cn [] (bucketOf b dk)).
Proof.
  rewrite pushItem_unfold. unfold bucketOf at 1. now rewrite get_set_same.
Qed.

Lemma bucketOf_pushItem_other (dk cn dk' : JSString) (it : Item) (b : Buckets) :
  dk' <> dk -> bucketOf (pushItem dk cn it b) dk' = bucketOf b dk'.
Proof.
  intros Hne. rewrite pushItem_unfold. unfold bucketOf.
  rewrite get_set_other by assumption.
  destruct (JSMap.has dk b); [reflexivity|]. now rewrite get_set_other.
Qed.

Lemma itemsAt_pushItem (dk cn : JSString) (it : Item) (b : Buckets) :
  itemsAt (pushItem dk cn it b) dk cn = itemsAt b dk cn ++ [it].
Proof.
  unfold itemsAt at 1. rewrite bucketOf_pushItem. now rewrite get_set_same.
Qed.

Lemma itemsAt_pushItem_other (dk cn dk' cn' : JSString) (it : Item) (b : Buckets) :
  (dk', cn') <> (dk, cn) ->
  itemsAt (pushItem dk cn it b) dk' cn' = itemsAt b dk' cn'.
Proof.
  intros Hne. unfold itemsAt.
  destruct (list_eq_dec N.eq_dec dk' dk) as [-> | Hd].
  - assert (Hc : cn' <> cn) by congruence.
    rewrite bucketOf_pushItem, get_set_other by assumption.
    destruct (JSMap.has cn (bucketOf b dk)); [reflexivity|].
    now rewrite get_set_other.
  - now rewrite bucketOf_pushItem_other.
Qed.

(** X7: [pushItem] puts the item at the end of the array of its day and
    course and leaves every other array as it was; the day key keeps its
    place among the days, or goes last when it is new, and so does the
    course name among the courses of the day. *)
Theorem pushItem_appends_in_place (dk cn : JSString) (it : Item) (b : Buckets) :
  itemsAt (pushItem dk cn it b) dk cn = itemsAt b dk cn ++ [it] /\
  (forall dk' cn', (dk', cn') <> (dk, cn) ->
     itemsAt (pushItem dk cn it b) dk' cn' = itemsAt b dk' cn') /\
  JSMap.keys (pushItem dk cn it b)
  = (if JSMap.has dk b then JSMap.keys b else JSMap.keys b ++ [dk]) /\
  JSMap.keys (bucketOf (pushItem dk cn it b) dk)
  = (if JSMap.has cn (bucketOf b dk) then JSMap.keys (bucketOf b dk)
     else JSMap.keys (bucketOf b dk) ++ [cn]) /\
  (forall dk', dk' <> dk -> bucketOf (pushItem dk cn it b) dk' = bucketOf b dk').
Proof.
  split; [apply itemsAt_pushItem|].
  split; [intros dk' cn'; apply itemsAt_pushItem_other|].
  split; [|split].
  - rewrite pushItem_unfold, keys_set.
    destruct (JSMap.has dk b) eqn:Hd; [now rewrite Hd|].
    now rewrite has_set_same, keys_set, Hd.
  - rewrite bucketOf_pushItem, keys_set.
    destruct (JSMap.has cn (bucketOf b dk)) eqn:Hc; [now rewrite Hc|].
    now rewrite has_set_same, keys_set, Hc.
  - intros dk'. apply bucketOf_pushItem_other.
Qed.

End PushFacts.

(** ** The day files of a run *)

Section DayFileFacts.
Import JS Clock Host Records DayBuilder DayFiles.

Variable h : Services.
Variable clock : ClockReadings.

Lemma groupsOf_names (byCourse : JSMap.t (list Item)) :
  map name (groupsOf h byCourse) = JSMap.keys byCourse.
Proof.
  unfold groupsOf, JSMap.entries, JSMap.keys. rewrite map_map. reflexivity.
Qed.

Lemma build_file_names (feeds : list CourseFeed) :
  map fst (dayFiles (build h clock feeds))
  = sortStrings (JSMap.keys (dayBuckets (collect h clock feeds initial))).
Proof.
  rewrite build_dayFiles.
  pose proof (writeDays_files h clock (dayBuckets (collect h clock feeds initial))
                (sortStrings (JSMap.keys (dayBuckets (collect h clock feeds initial))))
                (tick (collect h clock feeds initial))) as E.
  apply (f_equal (map fst)) in E. rewrite !map_map in E. simpl in E.
  rewrite map_id in E. exact E.
Qed.

Lemma bucketOf_entry (b : Buckets) (k : JSString) :
  In k (JSMap.keys b) -> In (k, bucketOf b k) b.
Proof.
  intros Hk. apply has_In in Hk. destruct (get_has k b Hk) as [bc Hg].
  unfold bucketOf. rewrite Hg. now apply get_In.
Qed.

(** X8: the day files of a run are written one per day, in strictly
    ascending order of their keys, and the index lists the same keys; each
    file is stamped with its key, has at least one group and no two groups
    of one name; each group has at least one item, and every item of a file
    is anchored on the day of the file. *)
Theorem day_files_well_formed (feeds : list CourseFeed) :
  let o := build h clock feeds in
  StronglySorted str_lt (map fst (dayFiles o)) /\
  map fst (dayFiles o) = map entryDay (days (indexFile o)) /\
  forall file, In file (dayFiles o) ->
    day (snd file) = fst file /\
    groups (snd file) <> [] /\
    NoDup (map name (groups (snd file))) /\
    forall g, In g (groups (snd file)) ->
      items g <> [] /\
      forall it, In it (items g) ->
        kstDayKey (seoulOffset h) (ValidDate (createdAt it)) = Some (fst file).
Proof.
  intros o. unfold o.
  pose proof (collect_ok h clock feeds) as [Hnd Hall].
  set (b := dayBuckets (collect h clock feeds initial)) in *.
  split; [|split].
  - rewrite build_file_names. fold b.
    apply sorted_distinct_strict; [apply sortStrings_sorted|].
    apply (Permutation_NoDup (Permutation_sym (sortStrings_perm _))). exact Hnd.
  - rewrite build_file_names.
    destruct (build_indexFile h clock feeds) as [_ ->].
    rewrite map_map. simpl. now rewrite map_id.
  - intros file Hfile.
    destruct (build_file h clock feeds file Hfile) as (Hk & Hday & Hgroups).
    fold b in Hk, Hgroups.
    pose proof (bucketOf_entry b (fst file) Hk) as He.
    destruct (Hall _ He) as (Hnames & Hne & Hgroup). simpl in *.
    split; [exact Hday|]. rewrite Hgroups. split; [|split].
    + unfold groupsOf, JSMap.entries. destruct (bucketOf b (fst file)); [congruence|].
      discriminate.
    + now rewrite groupsOf_names.
    + intros g Hg. unfold groupsOf, JSMap.entries in Hg.
      apply in_map_iff in Hg as (e & <- & Hin). simpl.
      destruct (Hgroup e Hin) as [Hitems Hkeys].
      pose proof (sort_perm (compareItems h) (snd e)) as Hp. split.
      * intros E. rewrite E in Hp. apply Permutation_nil in Hp. congruence.
      * intros it Hit. apply Hkeys. now apply (Permutation_in _ Hp).
Qed.

(** With every record taking its turn, a loop adds what its records
    yield. *)
Lemma courseWorkLoop_yields (c : Course) (ws : list RawWorkItem) (st : RunState) :
  (forall w, In w ws -> courseWorkPasses h c w) ->
  Permutation (allItems (dayBuckets (courseWorkLoop h clock c ws st)))
              (allItems (dayBuckets st)
               ++ flat_map (fun w => yielded (courseWorkYield h c w)) ws).
Proof.
  revert st. induction ws as [|w rest IH]; intros st Hp; simpl.
  - now rewrite app_nil_r.
  - assert (Hw : courseWorkPasses h c w) by (apply Hp; now left).
    unfold courseWorkPasses, courseWorkYield in *.
    destruct (whenIso (w_updateTime w) (w_creationTime w)) as [when|] eqn:Ew;
      [|congruence].
    rewrite (anchorDate_stamped clock _ _ _ when Ew).
    destruct (courseWorkItem h c w when) as [[dk it]|] eqn:Ei; [|congruence].
    eapply perm_trans; [apply IH; intros w' Hw'; apply Hp; now right|].
    simpl. eapply perm_trans;
      [apply Permutation_app_tail, pushItem_allItems|].
    simpl. apply Permutation_middle.
Qed.

Lemma announcementLoop_yields (c : Course) (anns : list RawAnnouncement)
    (st : RunState) :
  (forall a, In a anns -> announcementPasses h c a) ->
  Permutation (allItems (dayBuckets (announcementLoop h clock c anns st)))
              (allItems (dayBuckets st)
               ++ flat_map (fun a => yielded (announcementYield h c a)) anns).
Proof.
  revert st. induction anns as [|a rest IH]; intros st Hp; simpl.
  - now rewrite app_nil_r.
  - assert (Hrest : forall a', In a' rest -> announcementPasses h c a')
      by (intros a' Ha'; apply Hp; now right).
    assert (Ha : announcementPasses h c a) by (apply Hp; now left).
    unfold announcementPasses, announcementYield in *.
    destruct (normalizeText (a_text a)) as [|u txt] eqn:Et; [now apply IH|].
    destruct Ha as [Ha | Ha]; [discriminate|].
    destruct (whenIso (a_updateTime a) (a_creationTime a)) as [when|] eqn:Ew;
      [|congruence].
    rewrite (anchorDate_stamped clock _ _ _ when Ew).
    destruct (announcementItem h c a (u :: txt) when) as [[dk it]|] eqn:Ei;
      [|congruence].
    eapply perm_trans; [now apply IH|].
    simpl. eapply perm_trans;
      [apply Permutation_app_tail, pushItem_allItems|].
    simpl. apply Permutation_middle.
Qed.

Lemma collect_yields (feeds : list CourseFeed) (st : RunState) :
  (forall f, In f feeds -> feedPasses h f) ->
  Permutation (allItems (dayBuckets (collect h clock feeds st)))
              (allItems (dayBuckets st) ++ flat_map (feedYields h) feeds).
Proof.
  revert st. induction feeds as [|f r IH]; intros st Hp; simpl.
  - now rewrite app_nil_r.
  - destruct (Hp f (or_introl eq_refl)) as [Hw Ha].
    eapply perm_trans; [apply IH; intros f' Hf'; apply Hp; now right|].
    rewrite courseStep_delivered. unfold feedYields at 2.
    rewrite !app_assoc. apply Permutation_app_tail.
    eapply perm_trans; [now apply announcementLoop_yields|].
    apply Permutation_app_tail. now apply courseWorkLoop_yields.
Qed.

(** X9: when every record delivered takes its turn without a throw, the
    files hold the items the records yield, each as often as it is
    yielded: nothing is lost and nothing is written twice. *)
Theorem files_hold_what_records_yield (feeds : list CourseFeed) :
  (forall f, In f feeds -> feedPasses h f) ->
  Permutation (outputItems (build h clock feeds)) (flat_map (feedYields h) feeds).
Proof.
  intros Hp. eapply perm_trans; [apply outputItems_perm|].
  exact (collect_yields feeds initial Hp).
Qed.

(** A property that pushes keep and that the push of one item under one
    day and course brings about holds after the loop that yields the
    item. *)
Section Established.
Variable P : Buckets -> Prop.
Variable dk0 : JSString.
Variable c0 : Course.
Variable it0 : Item.
Hypothesis P_kept : forall dk cn it b, P b -> P (pushItem dk cn it b).
Hypothesis P_made : forall b, P (pushItem dk0 (c_name c0) it0 b).

Lemma P_kept_keyed :
  forall dk cn it b,
    kstDayKey (seoulOffset h) (ValidDate (createdAt it)) = Some dk ->
    P b -> P (pushItem dk cn it b).
Proof. intros dk cn it b _. apply P_kept. Qed.

Lemma courseWorkLoop_makes (ws : list RawWorkItem) (st : RunState) (w : RawWorkItem) :
  (forall w', In w' ws -> courseWorkPasses h c0 w') ->
  In w ws -> courseWorkYield h c0 w = Some (dk0, it0) ->
  P (dayBuckets (courseWorkLoop h clock c0 ws st)).
Proof.
  revert st. induction ws as [|w' rest IH]; intros st Hp Hin Hy; [destruct Hin|].
  simpl.
  assert (Hp' : courseWorkPasses h c0 w') by (apply Hp; now left).
  unfold courseWorkPasses, courseWorkYield in Hp'.
  destruct (whenIso (w_updateTime w') (w_creationTime w')) as [when|] eqn:Ew;
    [|congruence].
  rewrite (anchorDate_stamped clock _ _ _ when Ew).
  destruct (courseWorkItem h c0 w' when) as [[dk' it']|] eqn:Ei; [|congruence].
  destruct Hin as [-> | Hin].
  - unfold courseWorkYield in Hy. rewrite Ew, Ei in Hy. injection Hy as -> ->.
    apply (courseWorkLoop_keeps h clock P P_kept_keyed). simpl. apply P_made.
  - apply IH; auto. intros w'' Hw''. apply Hp. now right.
Qed.

Lemma announcementLoop_makes (anns : list RawAnnouncement) (st : RunState)
    (a : RawAnnouncement) :
  (forall a', In a' anns -> announcementPasses h c0 a') ->
  In a anns -> announcementYield h c0 a = Some (dk0, it0) ->
  P (dayBuckets (announcementLoop h clock c0 anns st)).
Proof.
  revert st. induction anns as [|a' rest IH]; intros st Hp Hin Hy; [destruct Hin|].
  simpl.
  assert (Hrest : forall a'', In a'' rest -> announcementPasses h c0 a'')
    by (intros a'' Ha''; apply Hp; now right).
  assert (Hp' : announcementPasses h c0 a') by (apply Hp; now left).
  unfold announcementPasses, announcementYield in Hp'.
  destruct (normalizeText (a_text a')) as [|u txt] eqn:Et.
  - destruct Hin as [-> | Hin]; [|now apply IH].
    unfold announcementYield in Hy. rewrite Et in Hy. discriminate.
  - destruct Hp' as [Hp' | Hp']; [discriminate|].
    destruct (whenIso (a_updateTime a') (a_creationTime a')) as [when|] eqn:Ew;
      [|congruence].
    rewrite (anchorDate_stamped clock _ _ _ when Ew).
    destruct (announcementItem h c0 a' (u :: txt) when) as [[dk' it']|] eqn:Ei;
      [|congruence].
    destruct Hin as [-> | Hin]; [|now apply IH].
    unfold announcementYield in Hy. rewrite Et, Ew, Ei in Hy. injection Hy as -> ->.
    apply (announcementLoop_keeps h clock P P_kept_keyed). simpl. apply P_made.
Qed.
End Established.

Lemma heldAt_kept (dk0 cn0 : JSString) (it0 : Item) :
  forall dk cn it b, heldAt dk0 cn0 it0 b -> heldAt dk0 cn0 it0 (pushItem dk cn it b).
Proof.
  intros dk cn it b H. unfold heldAt in *.
  destruct (list_eq_dec N.eq_dec dk0 dk) as [-> | Hd].
  - destruct (list_eq_dec N.eq_dec cn0 cn) as [-> | Hc].
    + rewrite itemsAt_pushItem. apply in_or_app. now left.
    + rewrite itemsAt_pushItem_other by congruence. exact H.
  - rewrite itemsAt_pushItem_other by congruence. exact H.
Qed.

Lemma heldAt_made (dk0 cn0 : JSString) (it0 : Item) (b : Buckets) :
  heldAt dk0 cn0 it0 (pushItem dk0 cn0 it0 b).
Proof.
  unfold heldAt. rewrite itemsAt_pushItem. apply in_or_app. right. now left.
Qed.

(** An item held under a day and course is written into the group of that
    course in the file of that day. *)
Lemma heldAt_written (feeds : list CourseFeed) (dk cn : JSString) (it : Item) :
  heldAt dk cn it (dayBuckets (collect h clock feeds initial)) ->
  exists file g,
    In file (dayFiles (build h clock feeds)) /\ fst file = dk /\
    In g (groups (snd file)) /\ name g = cn /\ In it (items g).
Proof.
  set (b := dayBuckets (collect h clock feeds initial)).
  unfold heldAt, itemsAt. intros H.
  destruct (JSMap.get cn (bucketOf b dk)) as [l|] eqn:Hc; [|destruct H].
  assert (Hk : In dk (JSMap.keys b)).
  { apply has_In. destruct (JSMap.has dk b) eqn:Hd; [reflexivity|].
    unfold bucketOf in Hc. rewrite (get_absent dk b Hd) in Hc. discriminate. }
  assert (Hf : In dk (map fst (dayFiles (build h clock feeds)))).
  { rewrite build_file_names. fold b.
    apply (Permutation_in _ (Permutation_sym (sortStrings_perm _))). exact Hk. }
  apply in_map_iff in Hf as (file & Hfst & Hfile).
  destruct (build_file h clock feeds file Hfile) as (_ & _ & Hgroups).
  fold b in Hgroups. rewrite Hfst in Hgroups.
  exists file, (mkGroup cn (sort (compareItems h) l)).
  split; [exact Hfile|]. split; [exact Hfst|]. split; [|split; [reflexivity|]].
  - rewrite Hgroups. unfold groupsOf, JSMap.entries.
    apply in_map_iff. exists (cn, l). split; [reflexivity | now apply get_In].
  - simpl. apply (Permutation_in _ (Permutation_sym (sort_perm _ l))). exact H.
Qed.

(** X10: what a record yields is written into the file of its day key, in
    the group named after its course, provided the records of its own list
    take their turns without a throw; the other lists of the run, and the
    calls that failed, do not matter.  Courses of one name share a group. *)
Theorem item_lands_in_its_day_and_course
    (pre post : list CourseFeed) (c : Course)
    (cw : Fetched RawWorkItem) (anns : Fetched RawAnnouncement)
    (dk : JSString) (it : Item) :
  ((forall w, In w (delivered cw) -> courseWorkPasses h c w) /\
   exists w, In w (delivered cw) /\ courseWorkYield h c w = Some (dk, it)) \/
  ((forall a, In a (delivered anns) -> announcementPasses h c a) /\
   exists a, In a (delivered anns) /\ announcementYield h c a = Some (dk, it)) ->
  exists file g,
    In file (dayFiles (build h clock (pre ++ mkFeed c cw anns :: post))) /\
    fst file = dk /\ day (snd file) = dk /\
    In g (groups (snd file)) /\ name g = c_name c /\ In it (items g).
Proof.
  intros Hy.
  assert (Hheld : heldAt dk (c_name c) it
                    (dayBuckets (collect h clock (pre ++ mkFeed c cw anns :: post)
                                   initial))).
  { rewrite collect_app. simpl.
    apply (collect_keeps h clock (heldAt dk (c_name c) it)).
    { intros dk' cn' it' b _. apply heldAt_kept. }
    rewrite courseStep_delivered. simpl.
    destruct Hy as [[Hp (w & Hw & Hy)] | [Hp (a & Ha & Hy)]].
    - apply (announcementLoop_keeps h clock (heldAt dk (c_name c) it)).
      { intros dk' cn' it' b _. apply heldAt_kept. }
      apply (courseWorkLoop_makes (heldAt dk (c_name c) it) dk c it
               (heldAt_kept dk (c_name c) it) (heldAt_made dk (c_name c) it)
               _ _ w Hp Hw Hy).
    - apply (announcementLoop_makes (heldAt dk (c_name c) it) dk c it
               (heldAt_kept dk (c_name c) it) (heldAt_made dk (c_name c) it)
               _ _ a Hp Ha Hy). }
  destruct (heldAt_written _ dk (c_name c) it Hheld)
    as (file & g & Hfile & Hfst & Hg & Hname & Hit).
  exists file, g. repeat split; auto.
  destruct (build_file h clock _ file Hfile) as (_ & Hday & _). congruence.
Qed.

(** X11: a record whose turn throws ends the loop of its list: the records
    after it are not looked at, and what the records before it pushed
    stays. *)
Theorem throwing_record_ends_its_list
    (c : Course) (st : RunState)
    (ws1 ws2 : list RawWorkItem) (w : RawWorkItem) (whenW : JsDate)
    (as1 as2 : list RawAnnouncement) (a : RawAnnouncement) (whenA : JsDate)
    (u : CodeUnit) (txt : JSString) :
  whenIso (w_updateTime w) (w_creationTime w) = Some whenW ->
  courseWorkItem h c w whenW = None ->
  normalizeText (a_text a) = u :: txt ->
  whenIso (a_updateTime a) (a_creationTime a) = Some whenA ->
  announcementItem h c a (u :: txt) whenA = None ->
  dayBuckets (courseWorkLoop h clock c (ws1 ++ w :: ws2) st)
  = dayBuckets (courseWorkLoop h clock c ws1 st) /\
  dayBuckets (announcementLoop h clock c (as1 ++ a :: as2) st)
  = dayBuckets (announcementLoop h clock c as1 st).
Proof.
  intros Ew Hw Et Ea Ha. split.
  - revert st. induction ws1 as [|w1 r IH]; intros st; simpl.
    + rewrite (anchorDate_stamped clock _ _ _ whenW Ew), Hw. reflexivity.
    + destruct (anchorDate clock (tick st) (w_updateTime w1) (w_creationTime w1))
        as [when n].
      destruct (courseWorkItem h c w1 when) as [[dk it]|]; [apply IH | reflexivity].
  - revert st. induction as1 as [|a1 r IH]; intros st; simpl.
    + rewrite Et, (anchorDate_stamped clock _ _ _ whenA Ea), Ha. reflexivity.
    + destruct (normalizeText (a_text a1)) as [|u1 t1]; [apply IH|].
      destruct (anchorDate clock (tick st) (a_updateTime a1) (a_creationTime a1))
        as [when n].
      destruct (announcementItem h c a1 (u1 :: t1) when) as [[dk it]|];
        [apply IH | reflexivity].
Qed.

End DayFileFacts.

Section DayFileSamples.
Import JS Clock Host Records DayBuilder DayFiles DayFilesSamples.

Lemma twoCourses_pass :
  forall f, In f Samples.feedsTwoCourses -> feedPasses Samples.icuHost f.
Proof.
  intros f [<- | [<- | []]]; split.
  - intros w [<- | [<- | []]]; vm_compute; discriminate.
  - intros a [<- | []]. right. vm_compute. discriminate.
  - intros w [].
  - intros a [<- | []]. right. vm_compute. discriminate.
Qed.

Lemma files_hold_what_records_yield_witness :
  Permutation
    (outputItems (build Samples.icuHost Samples.stillClock Samples.feedsTwoCourses))
    (flat_map (feedYields Samples.icuHost) Samples.feedsTwoCourses).
Proof.
  apply (files_hold_what_records_yield Samples.icuHost Samples.stillClock
           Samples.feedsTwoCourses).
  exact twoCourses_pass.
Defined.

Lemma item_lands_in_its_day_and_course_witness :
  exists file g,
    In file (dayFiles (build Samples.icuHost Samples.stillClock
                         ([mkFeed Samples.math
                             (Listed (Some [Samples.work "1" "Essay" (Some Samples.t0);
                                            Samples.work "2" "Quiz" (Some Samples.t1)]))
                             (Listed (Some [Samples.note "1" "Bring  your book"
                                              Samples.t0]))]
                          ++ mkFeed Samples.art Threw
                               (Listed (Some [Samples.note "1" "Homework due Friday"
                                                Samples.t1])) :: []))) /\
    fst file = lit "2024-01-02" /\ day (snd file) = lit "2024-01-02" /\
    In g (groups (snd file)) /\ name g = c_name Samples.art /\ In artNoteItem (items g).
Proof.
  apply (item_lands_in_its_day_and_course Samples.icuHost Samples.stillClock).
  right. split.
  - intros a [<- | []]. right. vm_compute. discriminate.
  - eexists. split; [left; reflexivity|]. vm_compute. reflexivity.
Defined.

Lemma throwing_record_ends_its_list_witness :
  dayBuckets (courseWorkLoop Samples.icuHost Samples.stillClock Samples.math
                ([Samples.work "1" "Essay" (Some Samples.t0)] ++ undatedWork
                 :: [Samples.work "2" "Quiz" (Some Samples.t1)]) initial)
  = dayBuckets (courseWorkLoop Samples.icuHost Samples.stillClock Samples.math
                  [Samples.work "1" "Essay" (Some Samples.t0)] initial) /\
  dayBuckets (announcementLoop Samples.icuHost Samples.stillClock Samples.math
                ([Samples.note "1" "Bring  your book" Samples.t0] ++ undatedNote
                 :: [Samples.note "2" "Homework due Friday" Samples.t1]) initial)
  = dayBuckets (announcementLoop Samples.icuHost Samples.stillClock Samples.math
                  [Samples.note "1" "Bring  your book" Samples.t0] initial).
Proof.
  apply (throwing_record_ends_its_list Samples.icuHost Samples.stillClock Samples.math
           initial _ _ undatedWork InvalidDate _ _ undatedNote InvalidDate
           81%N (lit "uiz on Monday")); reflexivity.
Defined.

End DayFileSamples.

(** ** The groups of the flat file *)

Section FlatFacts.
Import JS Clock Host Records FlatBuilder FlatFile.

Lemma courseWorkLoop_closed (c : Course) (ws : list RawWorkItem) (items : list Item) :
  courseWorkLoop c ws items = items ++ beforeThrow c ws.
Proof.
  revert items. induction ws as [|w rest IH]; intros items; simpl.
  - now rewrite app_nil_r.
  - unfold workYield.
    destruct (dueText _) as [due|]; [|now rewrite app_nil_r].
    rewrite IH, <- app_assoc. reflexivity.
Qed.

Lemma beforeThrow_all (c : Course) (ws : list RawWorkItem) :
  (forall w, In w ws -> workYield c w <> None) ->
  map Some (beforeThrow c ws) = map (workYield c) ws.
Proof.
  induction ws as [|w rest IH]; intros H; simpl; [reflexivity|].
  destruct (workYield c w) as [it|] eqn:E.
  - simpl. rewrite IH; [reflexivity|]. intros w' Hw'. apply H. now right.
  - exfalso. apply (H w); [now left | exact E].
Qed.

Lemma announcementLoop_step (lower : JSString -> JSString) (c : Course)
    (a : RawAnnouncement) (rest : list RawAnnouncement) (items : list Item) :
  announcementLoop lower c (a :: rest) items
  = announcementLoop lower c rest
      (if kept lower a then items ++ [noteItem c a] else items).
Proof.
  simpl. unfold kept, noteItem.
  destruct (normalizeText (a_text a)) as [|u txt]; [reflexivity|].
  destruct (looksLikeHomework lower (u :: txt)); reflexivity.
Qed.

Lemma announcementLoop_closed (lower : JSString -> JSString) (c : Course)
    (anns : list RawAnnouncement) (items : list Item) :
  announcementLoop lower c anns items
  = items ++ map (noteItem c) (filter (kept lower) anns).
Proof.
  revert items. induction anns as [|a rest IH]; intros items.
  - simpl. now rewrite app_nil_r.
  - rewrite announcementLoop_step, IH. simpl filter.
    destruct (kept lower a); simpl; rewrite <- ?app_assoc; reflexivity.
Qed.

Lemma startsWith_spec (p s : JSString) :
  startsWith p s = true <-> exists post, s = p ++ post.
Proof.
  revert s. induction p as [|a p IH]; intros s; simpl.
  - split; [intros _; now exists s | reflexivity].
  - destruct s as [|b s]; simpl.
    + split; [discriminate | intros [post E]; discriminate].
    + rewrite andb_true_iff, IH. unfold unit_eqb. rewrite N.eqb_eq. split.
      * intros [-> [post ->]]. now exists post.
      * intros [post E]. injection E as -> ->. split; [reflexivity | now exists post].
Qed.

(** [includes] finds exactly the substrings. *)
Lemma includes_spec (hay needle : JSString) :
  includes hay needle = true <-> exists pre post, hay = pre ++ needle ++ post.
Proof.
  induction hay as [|c hay IH]; simpl.
  - rewrite orb_false_r, startsWith_spec. split.
    + intros [post E]. now exists [], post.
    + intros (pre & post & E). destruct pre; [now exists post|discriminate].
  - rewrite orb_true_iff, startsWith_spec, IH. split.
    + intros [[post E] | (pre & post & E)].
      * now exists [], post.
      * exists (c :: pre), post. now rewrite E.
    + intros (pre & post & E). destruct pre as [|x pre].
      * left. now exists post.
      * right. injection E as -> E. now exists pre, post.
Qed.

(** X12: the flat file has one group for every course listed, in the order
    listed and named after the course, also when both its calls throw; a
    group holds, rearranged, the items of the coursework up to the first
    record whose due date cannot be written, and after them the items of
    the announcements kept; a call that throws counts as an empty list. *)
Theorem flat_groups_follow_courses
    (h : Services) (lower : JSString -> JSString) (feeds : list CourseFeed) :
  map name (buildGroups h lower feeds) = map (fun f => c_name (course f)) feeds /\
  (forall f,
      Permutation (items (courseGroup h lower f))
                  (beforeThrow (course f) (DayBuilder.delivered (courseWork f))
                   ++ map (noteItem (course f))
                        (filter (kept lower) (DayBuilder.delivered (announcements f))))) /\
  (forall c anns,
      courseGroup h lower (mkFeed c Threw anns)
      = courseGroup h lower (mkFeed c (Listed (Some [])) anns)) /\
  (forall c cw,
      courseGroup h lower (mkFeed c cw Threw)
      = courseGroup h lower (mkFeed c cw (Listed (Some [])))) /\
  (forall c ws,
      (forall w, In w ws -> workYield c w <> None) ->
      map Some (beforeThrow c ws) = map (workYield c) ws).
Proof.
  split; [|split; [|split; [|split]]].
  - unfold buildGroups. rewrite map_map. reflexivity.
  - intros f. unfold courseGroup. simpl.
    eapply perm_trans; [apply sort_perm|].
    destruct (courseWork f) as [|lw], (announcements f) as [|la]; simpl;
      rewrite ?announcementLoop_closed, ?courseWorkLoop_closed, ?app_nil_r;
      apply Permutation_refl.
  - reflexivity.
  - reflexivity.
  - intros c ws. apply beforeThrow_all.
Qed.

(** X13: the flat file keeps an announcement exactly when its normalised
    text is not empty and, in lower case, contains one of the eight
    keywords somewhere; the announcements kept give their items in the
    order listed, and the others give none. *)
Theorem flat_announcements_filtered
    (lower : JSString -> JSString) (c : Course)
    (anns : list RawAnnouncement) (items : list Item) (a : RawAnnouncement) :
  announcementLoop lower c anns items
  = items ++ map (noteItem c) (filter (kept lower) anns) /\
  (kept lower a = true <->
   normalizeText (a_text a) <> [] /\
   exists k pre post,
     In k keywords /\ lower (normalizeText (a_text a)) = pre ++ k ++ post).
Proof.
  split; [apply announcementLoop_closed|].
  unfold kept, looksLikeHomework.
  destruct (normalizeText (a_text a)) as [|u txt].
  - split; [discriminate | intros [H _]; congruence].
  - rewrite existsb_exists. split.
    + intros (k & Hk & Hi). split; [discriminate|].
      apply includes_spec in Hi as (pre & post & E). now exists k, pre, post.
    + intros (_ & k & pre & post & Hk & E). exists k. split; [exact Hk|].
      apply includes_spec. now exists pre, post.
Qed.

End FlatFacts.

(** ** The loopback flow from the listener to the tokens *)

Section LocalAuthFacts.
Import JS Loopback DeviceFlow LocalAuth.

Lemma serveAll_snoc (st : Listener) (reqs : list Request) (r : Request) :
  serveAll st (reqs ++ [r]) = fst (serve (serveAll st reqs) r).
Proof. unfold serveAll. now rewrite fold_left_app. Qed.

Lemma serveAll_app (st : Listener) (pre post : list Request) :
  serveAll st (pre ++ post) = serveAll (serveAll st pre) post.
Proof. unfold serveAll. now rewrite fold_left_app. Qed.

Lemma idle_serve (st : Listener) (req : Request) :
  idle req = true -> fst (serve st req) = st.
Proof.
  intros Hi. apply noCode_serve.
  - unfold idle in Hi. destruct req; [discriminate|].
    now destruct (carriesCode _).
  - intros ->. discriminate.
Qed.

Lemma idle_serveAll (st : Listener) (reqs : list Request) :
  forallb idle reqs = true -> serveAll st reqs = st.
Proof.
  induction reqs as [|r rest IH]; simpl; [reflexivity|].
  rewrite andb_true_iff. intros [Hr Hrest].
  change (serveAll (fst (serve st r)) rest = st).
  rewrite (idle_serve st r Hr). now apply IH.
Qed.

(** A promise that is settled stays as it is. *)
Lemma settled_serve (st : Listener) (req : Request) :
  codePromise st <> Pending -> codePromise (fst (serve st req)) = codePromise st.
Proof.
  intros Hs. unfold serve, handler. destruct req as [|p code]; simpl.
  - destruct (codePromise st); [congruence | reflexivity | reflexivity].
  - destruct (negb (str_eqb p callbackPath)); [reflexivity|].
    destruct code as [[|u r]|]; try reflexivity. simpl.
    destruct (codePromise st); [congruence | reflexivity | reflexivity].
Qed.

Lemma settled_serveAll (st : Listener) (reqs : list Request) :
  codePromise st <> Pending -> codePromise (serveAll st reqs) = codePromise st.
Proof.
  revert st. induction reqs as [|r rest IH]; intros st Hs; [reflexivity|].
  change (codePromise (serveAll (fst (serve st r)) rest) = codePromise st).
  rewrite IH; rewrite (settled_serve st r Hs); [reflexivity | exact Hs].
Qed.

Lemma serve_stays_closed (st : Listener) (req : Request) :
  listening (fst (serve st req)) = true -> listening st = true.
Proof.
  unfold serve, handler. destruct req as [|p code]; simpl; [auto|].
  destruct (negb (str_eqb p callbackPath)); [auto|].
  destruct code as [[|u r]|]; simpl; auto. discriminate.
Qed.

(** The answer is 200 exactly for a request with a code, whatever the
    handler has seen before. *)
Lemma accepted_serve (st : Listener) (req : Request) :
  accepted (snd (serve st req)) = carries req.
Proof.
  unfold serve, handler, carries, carriesCode.
  destruct req as [|p code]; [reflexivity|].
  destruct (str_eqb p callbackPath); simpl; [|now destruct code as [[|u r]|]].
  destruct code as [[|u r]|]; reflexivity.
Qed.

(** What a request does to the listener and the promise. *)
Lemma serve_cases (st : Listener) (r : Request) :
  (idle r = true /\ fst (serve st r) = st) \/
  (r = BadUrl /\
   fst (serve st r) = mkListener (listening st) (reject (codePromise st))) \/
  (exists c, carriesCode r = Some c /\
   fst (serve st r) = mkListener false (resolve c (codePromise st))).
Proof.
  destruct (idle r) eqn:Hi; [left; split; [reflexivity | now apply idle_serve]|].
  right. unfold idle in Hi. destruct r as [|p code].
  - left. split; reflexivity.
  - right. destruct (carriesCode (Url p code)) as [c|] eqn:Hc; [|discriminate].
    exists c. split; [reflexivity|].
    now rewrite (carriesCode_serve st _ c Hc).
Qed.

(** X14: the loopback flow is decided by the first request that carries a
    code or makes the handler throw.  While no such request has come the
    flow waits and the listener stays open; when the first is one on which
    the handler throws the flow fails, whatever comes after it, also a
    code; when the first carries a code, the flow ends as the exchange of
    that code ends, with its tokens or failed, whatever comes after it. *)
Theorem local_flow_decided_by_first_request
    (getToken : JSString -> option Tokens) (pre post : list Request) :
  forallb idle pre = true ->
  (startLocalAuth getToken pre = Waiting /\
   serveAll started pre = started) /\
  startLocalAuth getToken (pre ++ BadUrl :: post) = Rejected /\
  (forall r c,
      carriesCode r = Some c ->
      startLocalAuth getToken (pre ++ r :: post)
      = match getToken c with Some tok => Granted tok | None => Rejected end).
Proof.
  intros Hpre. pose proof (idle_serveAll started pre Hpre) as E.
  split; [|split].
  - split; [|exact E]. unfold startLocalAuth. now rewrite E.
  - unfold startLocalAuth.
    rewrite serveAll_app, E.
    change (serveAll started (BadUrl :: post))
      with (serveAll (mkListener true RejectedWith) post).
    rewrite settled_serveAll; [reflexivity | discriminate].
  - intros r c Hc. unfold startLocalAuth.
    rewrite serveAll_app, E.
    change (serveAll started (r :: post))
      with (serveAll (fst (serve started r)) post).
    rewrite (carriesCode_serve started r c Hc). simpl fst.
    change (resolve c (codePromise started)) with (Resolved c).
    now rewrite serveAll_resolved.
Qed.

(** X15: the promise settles once and the listener closes for good, but the
    handler goes on answering.  Whatever requests reach the handler in
    whatever order, each is answered 200 exactly when it carries a code,
    also after an earlier one has closed the listener; a closed listener is
    never open again and a settled promise never changes; the promise is
    resolved only with a code that one of the requests carried and only
    with the listener closed, it is rejected only when the handler threw on
    one of them, and the listener is closed only with the promise
    settled. *)
Theorem listener_settles_once (reqs : list Request) :
  (forall st, map accepted (answers st reqs) = map carries reqs) /\
  (forall st, listening (serveAll st reqs) = true -> listening st = true) /\
  (forall st, codePromise st <> Pending ->
              codePromise (serveAll st reqs) = codePromise st) /\
  (forall c, codePromise (serveAll started reqs) = Resolved c ->
             listening (serveAll started reqs) = false /\
             exists r, In r reqs /\ carriesCode r = Some c) /\
  (codePromise (serveAll started reqs) = RejectedWith -> In BadUrl reqs) /\
  (listening (serveAll started reqs) = false ->
   codePromise (serveAll started reqs) <> Pending).
Proof.
  split; [|split; [|split]].
  - induction reqs as [|r rest IH]; intros st; [reflexivity|].
    simpl. now rewrite accepted_serve, IH.
  - induction reqs as [|r rest IH]; intros st H; [exact H|].
    apply (serve_stays_closed st r). apply IH. exact H.
  - intros st. apply settled_serveAll.
  - induction reqs as [|r reqs IH] using rev_ind.
    + repeat split; try discriminate.
    + rewrite serveAll_snoc.
      destruct IH as (IHres & IHrej & IHcl).
      set (st := serveAll started reqs) in *.
      destruct (serve_cases st r) as [[_ E] | [(-> & E) | (c' & Hc' & E)]];
        rewrite E.
      * split; [|split].
        -- intros c Hc. destruct (IHres c Hc) as (Hcl & r' & Hin & Hr').
           split; [exact Hcl|]. exists r'. split; [|exact Hr'].
           apply in_or_app. now left.
        -- intros H. apply in_or_app. left. now apply IHrej.
        -- exact IHcl.
      * simpl. split; [|split].
        -- intros c Hc. destruct (codePromise st) eqn:Hp; simpl in Hc; try discriminate.
           destruct (IHres c Hc) as (Hcl & r' & Hin & Hr').
           split; [exact Hcl|]. exists r'. split; [|exact Hr'].
           apply in_or_app. now left.
        -- intros _. apply in_or_app. right. now left.
        -- intros _. destruct (codePromise st); simpl; discriminate.
      * simpl. split; [|split].
        -- intros c Hc. split; [reflexivity|].
           destruct (codePromise st) eqn:Hp; simpl in Hc.
           ++ injection Hc as <-. exists r. split; [|exact Hc'].
              apply in_or_app. right. now left.
           ++ destruct (IHres c Hc) as (_ & r' & Hin & Hr').
              exists r'. split; [|exact Hr']. apply in_or_app. now left.
           ++ discriminate.
        -- intros H. apply in_or_app. left. apply IHrej.
           destruct (codePromise st); simpl in H; [discriminate | discriminate | reflexivity].
        -- intros _. destruct (codePromise st); simpl; discriminate.
Qed.

End LocalAuthFacts.

Section LocalAuthSamples.
Import JS Loopback DeviceFlow LocalAuth.

Lemma local_flow_decided_by_first_request_witness :
  forallb idle [Url (lit "/favicon.ico") None; Url callbackPath None] = true /\
  startLocalAuth (fun _ => Some Samples.someTokens)
    ([Url (lit "/favicon.ico") None; Url callbackPath None]
       ++ BadUrl :: [Url callbackPath (Some (lit "4/abc"))]) = Rejected.
Proof.
  split; [reflexivity|].
  exact (proj1 (proj2 (local_flow_decided_by_first_request
                         (fun _ => Some Samples.someTokens)
                         [Url (lit "/favicon.ico") None; Url callbackPath None]
                         [Url callbackPath (Some (lit "4/abc"))] eq_refl))).
Defined.

End LocalAuthSamples.

(** ** The requests of the device flow *)

Section DevicePolls.
Import JS DeviceFlow DeviceReplies.

Variable ep : Endpoint.

(** X16: the flow ends with the first reply that is neither pending nor
    slow-down, if the loop gets that far: every request but the last was
    answered pending or slow-down; the flow ends with a credential only
    when the last request was granted, and then with the tokens of that
    reply; it fails only when the last request failed or was refused; and
    when it times out or is still running every request so far was
    answered pending or slow-down. *)
Theorem device_flow_ends_on_first_decisive_reply
    (delay expiresAt : Z) (fuel n : nat) (now : Z) :
  let trace := fst (pollLoop ep delay expiresAt fuel n now) in
  let result := snd (pollLoop ep delay expiresAt fuel n now) in
  let k := List.length trace in
  (forall j, (S j < k)%nat -> pending ep (n + j) = true) /\
  match result with
  | Some (Credential tok) =>
      exists j, k = S j /\ reply ep (n + j) = HttpOk tok
  | Some Failed =>
      exists j, k = S j /\ refused ep (n + j) = true
  | Some TimedOut =>
      (forall j, (j < k)%nat -> pending ep (n + j) = true) /\
      expiresAt <= now + Z.of_nat k * timerDelay delay
                   + fold_right Z.add 0 (map (fun j => latency ep (n + j)) (seq 0 k))
  | None => forall j, (j < k)%nat -> pending ep (n + j) = true
  end.
Proof.
  revert n now. induction fuel as [|fuel IH]; intros n now.
  - simpl. split; intros j Hj; lia.
  - cbv zeta. rewrite pollLoop_unfold.
    destruct (Z.ltb_spec now expiresAt) as [Hlt | Hge].
    + destruct (reply ep n) as [|tok|error] eqn:Er.
      * simpl. split; [intros j Hj; lia|]. exists O. split; [reflexivity|].
        unfold refused. now rewrite Nat.add_0_r, Er.
      * simpl. split; [intros j Hj; lia|]. exists O. split; [reflexivity|].
        now rewrite Nat.add_0_r.
      * destruct (retryable error) eqn:Ee.
        -- specialize (IH (S n) (now + timerDelay delay + latency ep n)).
           cbv zeta in IH. destruct IH as [IH1 IH2].
           set (rest := pollLoop ep delay expiresAt fuel (S n)
                         (now + timerDelay delay + latency ep n)) in *.
           assert (H0 : pending ep n = true) by (unfold pending; now rewrite Er).
           assert (Hall : forall j, (j < List.length (fst rest))%nat ->
                                    pending ep (S n + j) = true ->
                                    pending ep (n + S j) = true).
           { intros j _. now rewrite Nat.add_succ_r. }
           simpl fst. simpl snd. simpl List.length. split.
           ++ intros [|j] Hj; [now rewrite Nat.add_0_r|].
              rewrite Nat.add_succ_r. apply IH1. lia.
           ++ destruct (snd rest) as [[tok| |]|].
              ** destruct IH2 as (j & Hk & Hr). exists (S j).
                 split; [now rewrite Hk|]. now rewrite Nat.add_succ_r.
              ** destruct IH2 as (j & Hk & Hr). exists (S j).
                 split; [now rewrite Hk|]. now rewrite Nat.add_succ_r.
              ** destruct IH2 as [Hp Hexp]. split.
                 --- intros [|j] Hj; [now rewrite Nat.add_0_r|].
                     rewrite Nat.add_succ_r. apply Hp. lia.
                 --- rewrite <- cons_seq, <- seq_shift. simpl map.
                     rewrite map_map, Nat.add_0_r.
                     rewrite (map_ext (fun j => latency ep (n + S j))
                                      (fun j => latency ep (S n + j)))
                       by (intros j; now rewrite Nat.add_succ_r).
                     simpl fold_right.
                     change (fun j => latency ep (S n + j))
                       with (fun j => latency ep (S (n + j))) in Hexp.
                     lia.
              ** intros [|j] Hj; [now rewrite Nat.add_0_r|].
                 rewrite Nat.add_succ_r. apply IH2. lia.
        -- simpl. split; [intros j Hj; lia|]. exists O. split; [reflexivity|].
           unfold refused. now rewrite Nat.add_0_r, Er, Ee.
    + simpl. split; [intros j Hj; lia|]. split; [intros j Hj; lia|]. lia.
Qed.

Lemma pollLoop_regular (delay expiresAt : Z) (fuel n : nat) (now : Z) (i : nat) (s : Z) :
  (forall m, latency ep m = 0) ->
  nth_error (fst (pollLoop ep delay expiresAt fuel n now)) i = Some s ->
  s = now + (Z.of_nat i + 1) * timerDelay delay.
Proof.
  intros Hz. revert n now i s. induction fuel as [|fuel IH]; intros n now i s.
  - simpl. destruct i; discriminate.
  - rewrite pollLoop_unfold.
    assert (One : nth_error [now + timerDelay delay] i = Some s ->
                  s = now + (Z.of_nat i + 1) * timerDelay delay).
    { intros H. destruct i as [|[|i]]; simpl in H; try discriminate.
      injection H as <-. lia. }
    destruct (now <? expiresAt); [|simpl; destruct i; discriminate].
    destruct (reply ep n) as [|tok|error]; try exact One.
    destruct (retryable error); [|exact One].
    simpl fst. destruct i as [|i]; simpl nth_error.
    + intros H. injection H as <-. lia.
    + intros H. apply IH in H. rewrite Hz in H. lia.
Qed.

Hypothesis latency_nonneg : forall n, 0 <= latency ep n.

Lemma pollLoop_spaced (delay expiresAt : Z) (fuel n : nat) (now : Z) (i : nat) (s : Z) :
  nth_error (fst (pollLoop ep delay expiresAt fuel n now)) i = Some s ->
  now + (Z.of_nat i + 1) * timerDelay delay <= s < expiresAt + timerDelay delay.
Proof.
  revert n now i s. induction fuel as [|fuel IH]; intros n now i s.
  - simpl. destruct i; discriminate.
  - rewrite pollLoop_unfold.
    pose proof (timerDelay_positive delay) as Hd.
    pose proof (latency_nonneg n) as Hn.
    assert (One : forall (l : list Z), nth_error [now + timerDelay delay] i = Some s ->
                  now < expiresAt ->
                  now + (Z.of_nat i + 1) * timerDelay delay <= s
                    < expiresAt + timerDelay delay).
    { intros _ H Hlt. destruct i as [|[|i]]; simpl in H; try discriminate.
      injection H as <-. lia. }
    destruct (Z.ltb_spec now expiresAt) as [Hlt | Hge].
    + destruct (reply ep n) as [|tok|error].
      * intros H. now apply (One []).
      * intros H. now apply (One []).
      * destruct (retryable error); [|intros H; now apply (One [])].
        simpl fst. destruct i as [|i]; simpl nth_error.
        -- intros H. injection H as <-. lia.
        -- intros H. apply IH in H. lia.
    + simpl. destruct i; discriminate.
Qed.

(** X17: with a network that takes no negative time, the [i]-th request
    (counted from 0) is sent no sooner than [i + 1] waits after the start
    and sooner than one wait after the expiry, so the requests are fewer
    than the waits that fit before the expiry, plus one; with the default
    interval and expiry that is at most 120 requests; and with a network
    that takes no time the requests are sent exactly one wait apart. *)
Theorem device_polls_spaced_and_bounded (device : DeviceCode) (start : Z) (fuel : nat) :
  let trace := fst (startDeviceAuth ep device start fuel) in
  let wait := timerDelay (intervalMs device) in
  (forall i s, nth_error trace i = Some s ->
               start + (Z.of_nat i + 1) * wait <= s < start + expiryMs device + wait) /\
  (trace <> [] -> (Z.of_nat (List.length trace) - 1) * wait < expiryMs device) /\
  (interval device = None -> expires_in device = None ->
   (List.length trace <= 120)%nat) /\
  ((forall n, latency ep n = 0) ->
   forall i s, nth_error trace i = Some s -> s = start + (Z.of_nat i + 1) * wait).
Proof.
  cbv zeta. unfold startDeviceAuth.
  set (trace := fst (pollLoop ep (intervalMs device) (start + expiryMs device) fuel 0 start)).
  assert (Hs : forall i s, nth_error trace i = Some s ->
            start + (Z.of_nat i + 1) * timerDelay (intervalMs device) <= s
              < start + expiryMs device + timerDelay (intervalMs device)).
  { intros i s. apply pollLoop_spaced. }
  assert (Hb : trace <> [] ->
               (Z.of_nat (List.length trace) - 1) * timerDelay (intervalMs device)
               < expiryMs device).
  { intros Hne.
    destruct (nth_error trace (List.length trace - 1)) as [s|] eqn:E.
    - apply Hs in E.
      replace (Z.of_nat (List.length trace - 1) + 1)
        with (Z.of_nat (List.length trace)) in E; [lia|].
      destruct trace; [congruence | simpl; lia].
    - apply nth_error_None in E. destruct trace; [congruence | simpl in E; lia]. }
  split; [exact Hs | split; [exact Hb | split]].
  - intros Hi He. destruct trace as [|s0 tr] eqn:Et; [simpl; lia|].
    assert (Hne : s0 :: tr <> []) by discriminate.
    specialize (Hb Hne). unfold intervalMs, expiryMs in Hb. rewrite Hi, He in Hb.
    change (timerDelay (numberOr None 5 * 1000)) with 5000 in Hb.
    change (numberOr None 600 * 1000) with 600000 in Hb. lia.
  - intros Hz i s. now apply pollLoop_regular.
Qed.

End DevicePolls.

Section DevicePollSamples.
Import JS DeviceFlow DeviceReplies.

Lemma device_polls_spaced_and_bounded_witness :
  (forall n, 0 <= latency Samples.grantsSecond n) /\
  (List.length (fst (startDeviceAuth Samples.grantsSecond Samples.defaultDevice 0
                       (enoughFuel Samples.defaultDevice))) <= 120)%nat.
Proof.
  assert (H : forall n, 0 <= latency Samples.grantsSecond n)
    by (intros n; simpl; lia).
  split; [exact H|].
  exact (proj1 (proj2 (proj2
           (device_polls_spaced_and_bounded Samples.grantsSecond H
              Samples.defaultDevice 0 (enoughFuel Samples.defaultDevice))))
           eq_refl eq_refl).
Defined.

End DevicePollSamples.

(** ** Stability of the sort *)

Section StableSort.
Import JS Stable.
Context {A : Type} (cmp : A -> A -> Z).

Hypothesis cmp_total : forall a b, cmp a b <= 0 \/ cmp b a <= 0.
Hypothesis cmp_trans : forall a b c, cmp a b <= 0 -> cmp b c <= 0 -> cmp a c <= 0.

Lemma tied_refl (x : A) : tied cmp x x = true.
Proof.
  unfold tied. destruct (cmp_total x x) as [H | H];
    apply Z.leb_le in H; now rewrite H.
Qed.

Lemma tied_sym (x y : A) : tied cmp x y = tied cmp y x.
Proof. unfold tied. apply andb_comm. Qed.

Lemma tied_spec (x y : A) : tied cmp x y = true <-> cmp x y <= 0 /\ cmp y x <= 0.
Proof. unfold tied. now rewrite andb_true_iff, !Z.leb_le. Qed.

Lemma tied_trans (x y z : A) :
  tied cmp x y = true -> tied cmp y z = true -> tied cmp x z = true.
Proof.
  rewrite !tied_spec. intros [H1 H2] [H3 H4]. split; eapply cmp_trans; eauto.
Qed.

Lemma insertSorted_other (x y : A) (l : list A) :
  tied cmp x y = false ->
  filter (tied cmp x) (insertSorted cmp y l) = filter (tied cmp x) l.
Proof.
  intros Hxy. induction l as [|z r IH]; simpl.
  - now rewrite Hxy.
  - destruct (cmp y z <=? 0); simpl.
    + now rewrite Hxy.
    + now rewrite IH.
Qed.

Lemma insertSorted_tied (x y : A) (l : list A) :
  tied cmp x y = true ->
  filter (tied cmp x) (insertSorted cmp y l) = y :: filter (tied cmp x) l.
Proof.
  intros Hxy. induction l as [|z r IH]; simpl.
  - now rewrite Hxy.
  - destruct (cmp y z <=? 0) eqn:E; simpl.
    + now rewrite Hxy.
    + destruct (tied cmp x z) eqn:Hxz; [|exact IH].
      exfalso. rewrite tied_sym in Hxy.
      pose proof (tied_trans _ _ _ Hxy Hxz) as Hyz.
      apply tied_spec in Hyz. apply Z.leb_gt in E. lia.
Qed.

(** The sort keeps the items that the comparator cannot tell apart in the
    order they had. *)
Lemma sort_stable (x : A) (l : list A) :
  filter (tied cmp x) (sort cmp l) = filter (tied cmp x) l.
Proof.
  induction l as [|y r IH]; simpl; [reflexivity|].
  destruct (tied cmp x y) eqn:E.
  - rewrite (insertSorted_tied x y _ E). now rewrite IH.
  - rewrite (insertSorted_other x y _ E). exact IH.
Qed.

Lemma filter_head_In (p : A -> bool) (l : list A) (b : A) (t : list A) :
  filter p l = b :: t -> In b l.
Proof.
  intros H. assert (Hin : In b (filter p l)) by (rewrite H; now left).
  now apply filter_In in Hin.
Qed.

(** Two sorted arrangements that keep the tied items in the same order are
    the same. *)
Lemma sorted_stable_unique (l1 l2 : list A) :
  StronglySorted (notAfter cmp) l1 -> StronglySorted (notAfter cmp) l2 ->
  (forall x, filter (tied cmp x) l1 = filter (tied cmp x) l2) ->
  l1 = l2.
Proof.
  revert l2. induction l1 as [|a r1 IH]; intros l2 S1 S2 H.
  - destruct l2 as [|b r2]; [reflexivity|].
    specialize (H b). simpl in H. rewrite tied_refl in H. discriminate.
  - destruct l2 as [|b r2].
    + specialize (H a). simpl in H. rewrite tied_refl in H. discriminate.
    + apply StronglySorted_inv in S1 as [S1 F1].
      apply StronglySorted_inv in S2 as [S2 F2].
      rewrite Forall_forall in F1, F2.
      assert (Hab : tied cmp a b = true).
      { destruct (tied cmp a b) eqn:E; [reflexivity|]. exfalso.
        pose proof (H a) as Ha. pose proof (H b) as Hb. simpl in Ha, Hb.
        rewrite tied_refl in Ha, Hb. rewrite E in Ha.
        rewrite tied_sym, E in Hb.
        symmetry in Ha. apply filter_head_In in Ha. apply filter_head_In in Hb.
        apply F2 in Ha. apply F1 in Hb. unfold notAfter in Ha, Hb.
        assert (T : tied cmp a b = true) by (apply tied_spec; now split).
        congruence. }
      assert (Eab : a = b).
      { pose proof (H a) as Ha. simpl in Ha. rewrite tied_refl, Hab in Ha.
        now injection Ha. }
      subst b. f_equal. apply IH; [exact S1 | exact S2 |].
      intros x. specialize (H x). simpl in H.
      destruct (tied cmp x a); [now injection H | exact H].
Qed.

End StableSort.

Section GroupStability.
Import JS Host Records Stable.

Variable h : Services.
Hypothesis collation : ConsistentCollation (localeCompare h).

(** X18: the sort of a group is stable and its outcome is the only one a
    stable sort can have.  In a day file and in the flat file alike, the
    items that the comparator cannot tell apart stand in the order in which
    they were pushed; and an arrangement of the pushed items that is sorted
    by the comparator and keeps such items in their order is the very
    arrangement written. *)
Theorem group_order_is_stable_and_unique :
  (forall (its : list DayBuilder.Item) x,
      filter (tied (DayBuilder.compareItems h) x) (sort (DayBuilder.compareItems h) its)
      = filter (tied (DayBuilder.compareItems h) x) its) /\
  (forall (its arranged : list DayBuilder.Item),
      StronglySorted (notAfter (DayBuilder.compareItems h)) arranged ->
      (forall x, filter (tied (DayBuilder.compareItems h) x) arranged
                 = filter (tied (DayBuilder.compareItems h) x) its) ->
      arranged = sort (DayBuilder.compareItems h) its) /\
  (forall (its : list FlatBuilder.Item) x,
      filter (tied (FlatBuilder.compareItems h) x) (sort (FlatBuilder.compareItems h) its)
      = filter (tied (FlatBuilder.compareItems h) x) its) /\
  (forall (its arranged : list FlatBuilder.Item),
      StronglySorted (notAfter (FlatBuilder.compareItems h)) arranged ->
      (forall x, filter (tied (FlatBuilder.compareItems h) x) arranged
                 = filter (tied (FlatBuilder.compareItems h) x) its) ->
      arranged = sort (FlatBuilder.compareItems h) its) /\
  (forall a b : DayBuilder.Item,
      tied (DayBuilder.compareItems h) a b = true <->
      DayBuilder.createdAt a = DayBuilder.createdAt b /\
      localeCompare h (DayBuilder.titleOf a) (DayBuilder.titleOf b) = 0).
Proof.
  pose proof (day_compare_total h collation) as Dt.
  pose proof (day_compare_trans h collation) as Dr.
  pose proof (flat_compare_total h collation) as Ft.
  pose proof (flat_compare_trans h collation) as Fr.
  split; [|split; [|split; [|split]]].
  - intros its x. now apply sort_stable.
  - intros its arranged S H. apply (sorted_stable_unique _ Dt).
    + exact S.
    + now apply sort_sorted.
    + intros x. rewrite H. symmetry. now apply sort_stable.
  - intros its x. now apply sort_stable.
  - intros its arranged S H. apply (sorted_stable_unique _ Ft).
    + exact S.
    + now apply sort_sorted.
    + intros x. rewrite H. symmetry. now apply sort_stable.
  - intros a b. rewrite tied_spec. unfold DayBuilder.compareItems, DayBuilder.titleOf.
    pose proof (collation_antisym _ collation
                  (orEmpty (DayBuilder.title a)) (orEmpty (DayBuilder.title b))) as Hs.
    destruct (Z.eqb_spec (DayBuilder.createdAt a) (DayBuilder.createdAt b)) as [E | E].
    + rewrite E, Z.eqb_refl. simpl. split.
      * intros [H1 H2]. split; [reflexivity|]. lia.
      * intros [_ H0]. rewrite H0 in Hs. simpl in Hs. lia.
    + replace (DayBuilder.createdAt b =? DayBuilder.createdAt a) with false
        by (symmetry; apply Z.eqb_neq; congruence).
      simpl. split; [lia | intros [H _]; congruence].
Qed.

End GroupStability.

Section GroupStabilitySamples.
Import JS Host Records Stable.

Lemma group_order_is_stable_and_unique_witness :
  ConsistentCollation (localeCompare Samples.icuHost) /\
  filter (tied (DayBuilder.compareItems Samples.icuHost) DayFilesSamples.artNoteItem)
         (sort (DayBuilder.compareItems Samples.icuHost)
               [DayFilesSamples.artNoteItem; DayFilesSamples.artNoteItem])
  = filter (tied (DayBuilder.compareItems Samples.icuHost) DayFilesSamples.artNoteItem)
           [DayFilesSamples.artNoteItem; DayFilesSamples.artNoteItem].
Proof.
  split; [exact rootCollation_consistent|].
  exact (proj1 (group_order_is_stable_and_unique Samples.icuHost
                  rootCollation_consistent) _ _).
Defined.

End GroupStabilitySamples.

(** ** Configuration, the stored credential and the choice of flow *)

Section StartupFacts.
Import JS Clock Host Records DeviceFlow LocalAuth Startup.

Lemma mustGetEnv_cases (env : Env) (name : JSString) :
  (truthy (env name) = true /\ exists v, env name = Some v /\ mustGetEnv env name = inl v) \/
  (truthy (env name) = false /\
   mustGetEnv env name = inr (lit "Missing env var: " ++ name)).
Proof.
  unfold mustGetEnv. destruct (env name) as [[|c r]|]; simpl.
  - now right.
  - left. split; [reflexivity|]. now exists (c :: r).
  - now right.
Qed.

Lemma readConfig_cases (env : Env) :
  (truthy (env (lit "GOOGLE_CLIENT_ID")) = false /\
   readConfig env = inr (lit "Missing env var: GOOGLE_CLIENT_ID")) \/
  (truthy (env (lit "GOOGLE_CLIENT_ID")) = true /\
   truthy (env (lit "GOOGLE_CLIENT_SECRET")) = false /\
   readConfig env = inr (lit "Missing env var: GOOGLE_CLIENT_SECRET")) \/
  (exists id secret,
      env (lit "GOOGLE_CLIENT_ID") = Some id /\ id <> [] /\
      env (lit "GOOGLE_CLIENT_SECRET") = Some secret /\ secret <> [] /\
      readConfig env
      = inl (mkConfig id secret
               (orElse (env (lit "GOOGLE_TOKEN_PATH")) (lit "./token.json")))).
Proof.
  unfold readConfig, mustGetEnv.
  destruct (env (lit "GOOGLE_CLIENT_ID")) as [[|c r]|];
    destruct (env (lit "GOOGLE_CLIENT_SECRET")) as [[|c' r']|];
    first [ now left
          | right; now left
          | right; right; exists (c :: r), (c' :: r'); repeat split; discriminate ].
Qed.

(** X19: the poller starts a consent flow only without a usable stored
    credential, and writes the token file only with tokens a flow has just
    granted.  With both variables set and a token file that holds a
    non-empty refresh or access token the stored credential is taken as it
    is, nothing is written and neither flow matters; otherwise the flow is
    the device flow exactly when GOOGLE_AUTH_METHOD reads "device" in lower
    case, the other flow does not matter, and what is written is the
    granted tokens, to GOOGLE_TOKEN_PATH or ./token.json; a missing or
    empty variable ends the run with the error that names the first one
    missing, whatever the files and flows. *)
Theorem stored_credential_or_one_flow
    (toLowerCase : JSString -> JSString) (env : Env) (files : Files)
    (device local : Outcome) :
  let stored := match files (orElse (env (lit "GOOGLE_TOKEN_PATH")) (lit "./token.json")) with
                | Unreadable => None
                | Parsed t => t
                end in
  let chosen := if useDevice toLowerCase env then device else local in
  (forall message,
      authorize toLowerCase env files device local = ConfigError message <->
      readConfig env = inr message) /\
  (forall cfg, readConfig env = inl cfg ->
      tokenPath cfg = orElse (env (lit "GOOGLE_TOKEN_PATH")) (lit "./token.json") /\
      (usable stored = true ->
       forall device' local',
         authorize toLowerCase env files device' local' = Authorized stored None) /\
      (usable stored = false ->
       (forall tok, chosen = Granted tok ->
          authorize toLowerCase env files device local
          = Authorized (Some tok) (Some (tokenPath cfg, tok))) /\
       (chosen = Rejected ->
          authorize toLowerCase env files device local = FlowRejected) /\
       (chosen = Waiting ->
          authorize toLowerCase env files device local = FlowWaiting) /\
       (forall other,
          authorize toLowerCase env files device local
          = if useDevice toLowerCase env
            then authorize toLowerCase env files device other
            else authorize toLowerCase env files other local))) /\
  (forall credential path tok,
      authorize toLowerCase env files device local
      = Authorized credential (Some (path, tok)) ->
      credential = Some tok /\ chosen = Granted tok /\ usable stored = false /\
      path = orElse (env (lit "GOOGLE_TOKEN_PATH")) (lit "./token.json")) /\
  ((truthy (env (lit "GOOGLE_CLIENT_ID")) = false ->
    readConfig env = inr (lit "Missing env var: GOOGLE_CLIENT_ID")) /\
   (truthy (env (lit "GOOGLE_CLIENT_ID")) = true ->
    truthy (env (lit "GOOGLE_CLIENT_SECRET")) = false ->
    readConfig env = inr (lit "Missing env var: GOOGLE_CLIENT_SECRET"))).
Proof.
  cbv zeta.
  assert (Hpath : forall cfg, readConfig env = inl cfg ->
            tokenPath cfg = orElse (env (lit "GOOGLE_TOKEN_PATH")) (lit "./token.json")).
  { intros cfg H.
    destruct (readConfig_cases env) as [[_ E] | [(_ & _ & E) | (id & sec & _ & _ & _ & _ & E)]];
      rewrite E in H; try discriminate.
    injection H as <-. reflexivity. }
  split; [|split; [|split]].
  - intros message. unfold authorize.
    destruct (readConfig env) as [cfg | msg].
    + split; [|discriminate].
      destruct (usable _); [discriminate|].
      destruct (if useDevice toLowerCase env then device else local); discriminate.
    + split; intros H; injection H as <-; reflexivity.
  - intros cfg Hc. split; [now apply Hpath|]. unfold authorize. rewrite Hc.
    rewrite (Hpath cfg Hc). split.
    + intros Hu device' local'. now rewrite Hu.
    + intros Hu. rewrite Hu. repeat split.
      * now intros tok ->.
      * now intros ->.
      * now intros ->.
      * intros other. now destruct (useDevice toLowerCase env).
  - intros credential path tok. unfold authorize.
    destruct (readConfig env) as [cfg | msg] eqn:Hc; [|discriminate].
    rewrite (Hpath cfg eq_refl).
    destruct (usable _) eqn:Hu; [discriminate|].
    destruct (if useDevice toLowerCase env then device else local) as [tok'| |];
      try discriminate.
    intros H. injection H as <- <- <-. repeat split.
  - destruct (readConfig_cases env)
      as [[H1 E] | [(H1 & H2 & E) | (id & sec & H1 & N1 & H2 & N2 & E)]].
    + split; [intros _; exact E | congruence].
    + split; [congruence | intros _ _; exact E].
    + split.
      * rewrite H1. destruct id; [congruence | discriminate].
      * rewrite H2. intros _. destruct sec; [congruence | discriminate].
Qed.


End StartupFacts.

(** ** The poller's report *)

Section ReportFacts.
Import JS Clock Host Records Words Report.

Lemma forEach_app {A : Type} (body : A -> Console unit) (xs ys : list A)
    (lines : list JSString) :
  forEach body (xs ++ ys) lines
  = match forEach body xs lines with
    | (lines', Some _) => forEach body ys lines'
    | (lines', None) => (lines', None)
    end.
Proof.
  revert lines. induction xs as [|x rest IH]; intros lines; [reflexivity|].
  simpl. unfold bind. destruct (body x lines) as [l1 [[]|]]; [apply IH | reflexivity].
Qed.

Lemma forEach_lines {A : Type} (line : A -> option JSString) (xs : list A)
    (lines : list JSString) :
  forallb (fun x => match line x with Some _ => true | None => false end) xs = true ->
  forEach (fun x => bind (orThrow (line x)) log) xs lines
  = (lines ++ linesOf line xs, Some tt).
Proof.
  revert lines. induction xs as [|x rest IH]; intros lines; simpl.
  - intros _. unfold ret. now rewrite app_nil_r.
  - destruct (line x) as [l|] eqn:E; [|discriminate]. simpl. intros H.
    unfold bind at 1. unfold bind at 1. simpl. unfold log at 1.
    rewrite IH by exact H. unfold linesOf. now rewrite <- app_assoc.
Qed.

(** The lines up to the first record that throws are written. *)
Lemma forEach_throws {A : Type} (line : A -> option JSString) (pre : list A) (x : A)
    (post : list A) (lines : list JSString) :
  forallb (fun x => match line x with Some _ => true | None => false end) pre = true ->
  line x = None ->
  forEach (fun x => bind (orThrow (line x)) log) (pre ++ x :: post) lines
  = (lines ++ linesOf line pre, None).
Proof.
  intros Hpre Hx. rewrite forEach_app, (forEach_lines line pre lines Hpre).
  simpl. unfold bind. now rewrite Hx.
Qed.

Lemma courseReport_block (formatLocal : Z -> JSString) (feed : PolledFeed)
    (lines : list JSString) :
  reportable formatLocal feed = true ->
  courseReport formatLocal feed lines = (lines ++ blockOf formatLocal feed, Some tt).
Proof.
  unfold reportable. rewrite !andb_true_iff. intros [[[Hw Ha] Hwl] Hal].
  unfold courseReport, blockOf.
  destruct (p_courseWork feed) as [|lw]; [discriminate|].
  destruct (p_announcements feed) as [|la]; [discriminate|].
  simpl listed in *. simpl awaitList.
  unfold bind at 1. unfold log at 1.
  unfold bind at 1. unfold ret at 1.
  unfold bind at 1. unfold log at 1.
  unfold bind at 1. rewrite (forEach_lines _ _ _ Hwl).
  unfold bind at 1. unfold ret at 1.
  unfold bind at 1. unfold log at 1.
  rewrite (forEach_lines _ _ _ Hal).
  f_equal. rewrite <- !app_assoc. reflexivity.
Qed.

Lemma visit_blocks (formatLocal : Z -> JSString) (feeds : list PolledFeed)
    (lines : list JSString) :
  forallb (reportable formatLocal) feeds = true ->
  forEach (courseReport formatLocal) feeds lines
  = (lines ++ flat_map (blockOf formatLocal) feeds, Some tt).
Proof.
  revert lines. induction feeds as [|feed rest IH]; intros lines; simpl.
  - intros _. unfold ret. now rewrite app_nil_r.
  - rewrite andb_true_iff. intros [Hf Hrest].
    unfold bind. rewrite (courseReport_block _ _ _ Hf).
    rewrite (IH _ Hrest). now rewrite <- app_assoc.
Qed.

Lemma forEach_fails {A : Type} (line : A -> option JSString) (xs : list A)
    (lines : list JSString) :
  forallb (fun x => match line x with Some _ => true | None => false end) xs = false ->
  snd (forEach (fun x => bind (orThrow (line x)) log) xs lines) = None.
Proof.
  revert lines. induction xs as [|x rest IH]; intros lines; simpl; [discriminate|].
  unfold bind at 1. unfold bind at 1.
  destruct (line x) as [l|]; simpl; [|reflexivity].
  intros H. unfold log at 1. now apply IH.
Qed.

(** A course with a call or a date that throws makes the report throw. *)
Lemma courseReport_fails (formatLocal : Z -> JSString) (feed : PolledFeed) :
  reportable formatLocal feed = false ->
  forall lines, snd (courseReport formatLocal feed lines) = None.
Proof.
  intros Hf lines. unfold courseReport, reportable in *.
  destruct (p_courseWork feed) as [|lw]; [reflexivity|].
  simpl awaitList. unfold bind at 1. unfold log at 1.
  unfold bind at 1. unfold ret at 1.
  unfold bind at 1. unfold log at 1.
  unfold bind at 1.
  simpl didThrow in Hf. simpl listed in Hf. simpl negb in Hf.
  destruct (forallb _ (orEmptyList lw)) eqn:Hwl.
  - rewrite (forEach_lines _ _ _ Hwl).
    destruct (p_announcements feed) as [|la]; [reflexivity|].
    simpl awaitList. unfold bind at 1. unfold ret at 1.
    unfold bind at 1. unfold log at 1.
    simpl in Hf. now apply forEach_fails.
  - pose proof (forEach_fails _ _ (lines ++ [header (p_course feed)]
                  ++ [lit "CourseWork: " ++ count (List.length (orEmptyList lw))]) Hwl) as F.
    rewrite app_assoc in F.
    destruct (forEach _ (orEmptyList lw) _) as [l [[]|]]; [discriminate | reflexivity].
Qed.

Lemma linesOf_length {A : Type} (line : A -> option JSString) (xs : list A) :
  forallb (fun x => match line x with Some _ => true | None => false end) xs = true ->
  List.length (linesOf line xs) = List.length xs.
Proof.
  induction xs as [|x rest IH]; simpl; [reflexivity|].
  destruct (line x); [|discriminate]. simpl. intros H. now rewrite IH.
Qed.

(** X21: when no call throws and no date is invalid, the poller ends with
    status 0 and its report is the line with the number of courses and
    then, course by course in the order listed, the header of the course,
    the number of its coursework, one line for each piece of coursework in
    the order listed, the number of its announcements and one line for each
    announcement in the order listed: three lines and one per record for
    every course. *)
Theorem report_lists_every_record
    (formatLocal : Z -> JSString) (feeds : option (list PolledFeed)) :
  forallb (reportable formatLocal) (orEmptyList feeds) = true ->
  report formatLocal (Listed feeds) []
  = ((lit "Courses: " ++ count (List.length (orEmptyList feeds)))
       :: flat_map (blockOf formatLocal) (orEmptyList feeds), Some tt) /\
  exitStatus (report formatLocal (Listed feeds) []) = 0 /\
  (forall feed, In feed (orEmptyList feeds) ->
     List.length (blockOf formatLocal feed)
     = (3 + List.length (listed (p_courseWork feed))
          + List.length (listed (p_announcements feed)))%nat).
Proof.
  intros H.
  assert (E : report formatLocal (Listed feeds) []
              = ((lit "Courses: " ++ count (List.length (orEmptyList feeds)))
                   :: flat_map (blockOf formatLocal) (orEmptyList feeds), Some tt)).
  { unfold report. simpl awaitList. unfold bind at 1. unfold ret at 1.
    unfold bind at 1. unfold log at 1. now rewrite (visit_blocks _ _ _ H). }
  split; [exact E | split].
  - now rewrite E.
  - intros feed Hin. rewrite forallb_forall in H. specialize (H feed Hin).
    unfold reportable in H. rewrite !andb_true_iff in H.
    destruct H as [[[_ _] Hwl] Hal]. unfold blockOf.
    pose proof (linesOf_length _ _ Hwl) as L1.
    pose proof (linesOf_length _ _ Hal) as L2.
    rewrite !length_app. simpl List.length.
    unfold JSString, CodeUnit in *. lia.
Qed.

(** X22: the poller, unlike the builders, gives up at the first call or
    date that throws: it ends with status 1, the courses after the failing
    one are not looked at, and what was written before stays written.  When
    the coursework call of a course throws, the last line is the header of
    that course; when a date of a piece of coursework is invalid, the lines
    of the records before it are the last ones; and when the list of
    courses cannot be fetched nothing is written. *)
Theorem report_stops_at_first_failure
    (formatLocal : Z -> JSString) (pre : list PolledFeed) (feed : PolledFeed)
    (post : list PolledFeed) :
  forallb (reportable formatLocal) pre = true ->
  let start := lit "Courses: " ++ count (List.length (pre ++ feed :: post)) in
  let before := start :: flat_map (blockOf formatLocal) pre in
  report formatLocal Threw [] = ([], None) /\
  (p_courseWork feed = Threw ->
   report formatLocal (Listed (Some (pre ++ feed :: post))) []
   = (before ++ [header (p_course feed)], None)) /\
  (forall ws w ws',
     p_courseWork feed = Listed (Some (ws ++ w :: ws')) ->
     forallb (fun w => match workLine formatLocal (p_course feed) w with
                       | Some _ => true | None => false end) ws = true ->
     workLine formatLocal (p_course feed) w = None ->
     report formatLocal (Listed (Some (pre ++ feed :: post))) []
     = (before ++ [header (p_course feed);
                   lit "CourseWork: " ++ count (List.length (ws ++ w :: ws'))]
               ++ linesOf (workLine formatLocal (p_course feed)) ws, None)) /\
  (reportable formatLocal feed = false ->
   exitStatus (report formatLocal (Listed (Some (pre ++ feed :: post))) []) = 1 /\
   forall post',
     List.length post' = List.length post ->
     report formatLocal (Listed (Some (pre ++ feed :: post'))) []
     = report formatLocal (Listed (Some (pre ++ feed :: post))) []).
Proof.
  intros Hpre. cbv zeta.
  assert (Hrun : forall post0,
            report formatLocal (Listed (Some (pre ++ feed :: post0))) []
            = match courseReport formatLocal feed
                      ((lit "Courses: " ++ count (List.length (pre ++ feed :: post0)))
                         :: flat_map (blockOf formatLocal) pre) with
              | (lines, Some _) => forEach (courseReport formatLocal) post0 lines
              | (lines, None) => (lines, None)
              end).
  { intros post0. unfold report. simpl awaitList. unfold bind at 1. unfold ret at 1.
    unfold bind at 1. unfold log at 1. rewrite forEach_app.
    rewrite (visit_blocks _ _ _ Hpre). simpl. unfold bind at 1.
    destruct (courseReport _ _ _) as [l [[]|]]; reflexivity. }
  split; [reflexivity | split; [|split]].
  - intros Hcw. rewrite Hrun. unfold courseReport. rewrite Hcw. reflexivity.
  - intros ws w ws' Hcw Hws Hw. rewrite Hrun. unfold courseReport. rewrite Hcw.
    simpl awaitList. unfold bind at 1. unfold log at 1.
    unfold bind at 1. unfold ret at 1.
    unfold bind at 1. unfold log at 1.
    unfold bind at 1. simpl orEmptyList.
    rewrite (forEach_throws _ ws w ws' _ Hws Hw).
    f_equal. rewrite <- !app_assoc. reflexivity.
  - intros Hf. rewrite !Hrun.
    pose proof (courseReport_fails formatLocal feed Hf) as Hfail.
    split.
    + specialize (Hfail ((lit "Courses: " ++ count (List.length (pre ++ feed :: post)))
                           :: flat_map (blockOf formatLocal) pre)).
      destruct (courseReport _ _ _) as [l [[]|]]; [discriminate | reflexivity].
    + intros post' Hlen. rewrite (Hrun post').
      replace (List.length (pre ++ feed :: post'))
        with (List.length (pre ++ feed :: post))
        by (rewrite !length_app; simpl; now rewrite Hlen).
      specialize (Hfail ((lit "Courses: " ++ count (List.length (pre ++ feed :: post)))
                           :: flat_map (blockOf formatLocal) pre)).
      destruct (courseReport _ _ _) as [l [[]|]]; [discriminate | reflexivity].
Qed.

Lemma collapseFrom_spaces (inRun : bool) (s : JSString) :
  Forall (fun c => blank c -> c = space) (collapseFrom inRun s).
Proof.
  revert inRun. induction s as [|c r IH]; intros inRun; simpl; [constructor|].
  destruct (isWhiteSpace c) eqn:E.
  - destruct inRun; [apply IH|]. constructor; [reflexivity | apply IH].
  - constructor; [|apply IH]. unfold blank. congruence.
Qed.

Lemma collapseFrom_single (inRun : bool) (s : JSString) :
  noDoubleBlank (collapseFrom inRun s) /\
  (inRun = true ->
   match collapseFrom inRun s with c :: _ => solid c | [] => True end).
Proof.
  revert inRun. induction s as [|c r IH]; intros inRun; simpl; [now split|].
  destruct (isWhiteSpace c) eqn:E.
  - destruct inRun; [apply IH|].
    destruct (IH true) as [N H]. specialize (H eq_refl).
    split; [|discriminate]. simpl. split; [|exact N].
    destruct (collapseFrom true r) as [|b t]; [exact I|].
    intros [_ Hb]. unfold solid, blank in *. congruence.
  - destruct (IH false) as [N _]. split; [|intros _; exact E].
    simpl. split; [|exact N].
    destruct (collapseFrom false r) as [|b t]; [exact I|].
    intros [Hc _]. unfold blank in Hc. congruence.
Qed.

Lemma noDoubleBlank_firstn (n : nat) (s : JSString) :
  noDoubleBlank s -> noDoubleBlank (firstn n s).
Proof.
  revert s. induction n as [|n IH]; intros s; [intros _; exact I|].
  destruct s as [|a r]; [intros _; exact I|].
  intros [Ha Hr]. simpl firstn. simpl. split; [|now apply IH].
  destruct n as [|n']; [exact I|].
  destruct r as [|b t]; [exact I | exact Ha].
Qed.

Lemma Forall_firstn {A : Type} (P : A -> Prop) (n : nat) (l : list A) :
  Forall P l -> Forall P (firstn n l).
Proof.
  intros H. rewrite Forall_forall in *. intros x Hx. apply H.
  rewrite <- (firstn_skipn n l). apply in_or_app. now left.
Qed.

(** X23: the text the poller shows of an announcement stays on the line:
    it has at most 120 code units, it is the beginning of the text with
    every run of white space made one space, so that every white space in
    it is a single U+0020 and no line break or tab occurs in it, and it is
    the whole of that text when that has at most 120 code units. *)
Theorem preview_stays_on_the_line (text : option JSString) :
  (List.length (preview text) <= 120)%nat /\
  (exists rest, collapseWhiteSpace (orEmpty text) = preview text ++ rest) /\
  ((List.length (collapseWhiteSpace (orEmpty text)) <= 120)%nat ->
   preview text = collapseWhiteSpace (orEmpty text)) /\
  Forall (fun c => blank c -> c = space) (preview text) /\
  noDoubleBlank (preview text) /\
  ~ In lineFeed (preview text).
Proof.
  unfold preview, collapseWhiteSpace.
  assert (F : Forall (fun c => blank c -> c = space)
                     (firstn 120 (collapseFrom false (orEmpty text)))).
  { apply Forall_firstn, collapseFrom_spaces. }
  split; [apply firstn_le_length | split; [|split; [|split; [|split]]]].
  - exists (skipn 120 (collapseFrom false (orEmpty text))).
    now rewrite firstn_skipn.
  - intros H. now apply firstn_all2.
  - exact F.
  - apply noDoubleBlank_firstn. apply (collapseFrom_single false).
  - intros Hin. rewrite Forall_forall in F. specialize (F _ Hin eq_refl).
    discriminate.
Qed.

End ReportFacts.

Section ReportWitnesses.
Import JS Clock Host Records Words Report ReportSamples.

Lemma report_lists_every_record_witness :
  forallb (reportable (fun _ => lit "2024-01-02 12:04 KST"))
          (orEmptyList (Some [polledMath])) = true /\
  exitStatus (report (fun _ => lit "2024-01-02 12:04 KST")
                (Listed (Some [polledMath])) []) = 0.
Proof.
  split; [reflexivity|].
  exact (proj1 (proj2 (report_lists_every_record
                         (fun _ => lit "2024-01-02 12:04 KST")
                         (Some [polledMath]) eq_refl))).
Defined.

Lemma report_stops_at_first_failure_witness :
  forallb (reportable (fun _ => lit "2024-01-02 12:04 KST")) [polledMath] = true /\
  exitStatus (report (fun _ => lit "2024-01-02 12:04 KST")
                (Listed (Some ([polledMath] ++ polledArt :: [polledMath]))) []) = 1.
Proof.
  split; [reflexivity|].
  exact (proj1 (proj2 (proj2 (proj2 (report_stops_at_first_failure
                         (fun _ => lit "2024-01-02 12:04 KST")
                         [polledMath] polledArt [polledMath] eq_refl))) eq_refl)).
Defined.

End ReportWitnesses.

(** ** Due dates in the order of the calendar *)

Section DueOrder.
Import JS Clock DueStamps.

Ltac div_lia := Z.div_mod_to_equations; lia.

Lemma MakeDay_in_year (y m d : Z) :
  1 <= m <= 12 ->
  MakeDay y (m - 1) d = DayFromYear y + monthStart (InLeapYear y) (m - 1) + d - 1.
Proof.
  intros Hm. unfold MakeDay.
  replace ((m - 1) / 12) with 0 by div_lia.
  replace ((m - 1) mod 12) with (m - 1) by div_lia.
  now rewrite Z.add_0_r.
Qed.

Lemma monthStart_step (y m : Z) :
  1 <= m <= 11 ->
  monthStart (InLeapYear y) m
  = monthStart (InLeapYear y) (m - 1) + daysInMonth y m.
Proof.
  intros Hm. unfold daysInMonth.
  assert (C : m = 1 \/ m = 2 \/ m = 3 \/ m = 4 \/ m = 5 \/ m = 6 \/ m = 7 \/
              m = 8 \/ m = 9 \/ m = 10 \/ m = 11) by lia.
  destruct (InLeapYear y);
    repeat (destruct C as [C | C]); subst m; vm_compute; reflexivity.
Qed.

Lemma monthStart_december (y : Z) :
  monthStart (InLeapYear y) 11 + daysInMonth y 12 = DaysInYear y.
Proof. unfold daysInMonth, DaysInYear. destruct (InLeapYear y); vm_compute; reflexivity. Qed.

(** The calendar order of dates that exist is the order of their day
    numbers. *)
Lemma date_order (y1 m1 d1 y2 m2 d2 : Z) :
  1 <= m1 <= 12 -> 1 <= d1 <= daysInMonth y1 m1 ->
  1 <= m2 <= 12 -> 1 <= d2 <= daysInMonth y2 m2 ->
  (MakeDay y1 (m1 - 1) d1 < MakeDay y2 (m2 - 1) d2 <->
   y1 < y2 \/ (y1 = y2 /\ (m1 < m2 \/ (m1 = m2 /\ d1 < d2)))) /\
  (MakeDay y1 (m1 - 1) d1 = MakeDay y2 (m2 - 1) d2 <->
   y1 = y2 /\ m1 = m2 /\ d1 = d2).
Proof.
  intros Hm1 Hd1 Hm2 Hd2.
  destruct (civil_roundtrip y1 m1 d1 Hm1 Hd1) as (Y1 & M1 & D1).
  destruct (civil_roundtrip y2 m2 d2 Hm2 Hd2) as (Y2 & M2 & D2).
  cbv zeta in *.
  set (n1 := MakeDay y1 (m1 - 1) d1) in *.
  set (n2 := MakeDay y2 (m2 - 1) d2) in *.
  assert (Fwd : n1 < n2 ->
                y1 < y2 \/ (y1 = y2 /\ (m1 < m2 \/ (m1 = m2 /\ d1 < d2)))).
  { intros H. pose proof (day_order n1 n2 H) as O. lia. }
  assert (Bwd : n2 < n1 ->
                y2 < y1 \/ (y2 = y1 /\ (m2 < m1 \/ (m2 = m1 /\ d2 < d1)))).
  { intros H. pose proof (day_order n2 n1 H) as O. lia. }
  assert (Same : n1 = n2 -> y1 = y2 /\ m1 = m2 /\ d1 = d2).
  { intros E. rewrite E in Y1, M1, D1. lia. }
  split; split.
  - exact Fwd.
  - intros L. destruct (Z.lt_trichotomy n1 n2) as [H | [H | H]]; [exact H | |].
    + apply Same in H. lia.
    + apply Bwd in H. lia.
  - exact Same.
  - intros (-> & -> & ->). reflexivity.
Qed.

(** X24: due dates follow the calendar.  Of two due dates that exist, in
    years of four digits and with times of day that exist, the one that is
    earlier by year, month, day, hour and minute, a missing hour read as 23
    and a missing minute as 59, gives the earlier instant, and two give the
    same instant only when they agree in all five. *)
Theorem due_instants_follow_the_calendar
    (dd1 dd2 : DueDate) (tm1 tm2 : option TimeOfDay) :
  1000 <= year dd1 <= 9999 -> validDate dd1 -> validTime tm1 ->
  1000 <= year dd2 <= 9999 -> validDate dd2 -> validTime tm2 ->
  exists t1 t2,
    googleDueToDate (Some dd1) tm1 defaultTzOffsetMinutes = Some (ValidDate t1) /\
    googleDueToDate (Some dd2) tm2 defaultTzOffsetMinutes = Some (ValidDate t2) /\
    (t1 < t2 <-> earlier (dueStamp dd1 tm1) (dueStamp dd2 tm2)) /\
    (t1 = t2 <-> dueStamp dd1 tm1 = dueStamp dd2 tm2).
Proof.
  intros Hy1 Hv1 Ht1 Hy2 Hv2 Ht2.
  rewrite (due_instant dd1 tm1 Hy1 Hv1 Ht1), (due_instant dd2 tm2 Hy2 Hv2 Ht2).
  eexists. eexists. split; [reflexivity | split; [reflexivity|]].
  destruct Hv1 as [Hm1 Hd1]. destruct Hv2 as [Hm2 Hd2].
  destruct Ht1 as [Hh1 Hi1]. destruct Ht2 as [Hh2 Hi2].
  destruct (date_order (year dd1) (month dd1) (day dd1)
                       (year dd2) (month dd2) (day dd2) Hm1 Hd1 Hm2 Hd2) as [Lt Eq].
  unfold dueStamp, earlier, MakeDate, MakeTime, msPerDay, msPerHour, msPerMinute, kstOffset.
  set (n1 := MakeDay (year dd1) (month dd1 - 1) (day dd1)) in *.
  set (n2 := MakeDay (year dd2) (month dd2 - 1) (day dd2)) in *.
  split.
  - split.
    + intros H.
      destruct (Z.lt_trichotomy n1 n2) as [L | [E | G]].
      * apply Lt in L. lia.
      * apply Eq in E. lia.
      * exfalso. lia.
    + intros H.
      assert (C : n1 < n2 \/ (n1 = n2 /\
                   (hourOf tm1 < hourOf tm2 \/
                    (hourOf tm1 = hourOf tm2 /\ minuteOf tm1 < minuteOf tm2)))).
      { destruct H as [H | [Ey [H | [Em [H | [Ed H]]]]]].
        - left. apply Lt. lia.
        - left. apply Lt. lia.
        - left. apply Lt. lia.
        - right. split; [apply Eq; lia|]. lia. }
      lia.
  - split.
    + intros H.
      assert (E : n1 = n2) by lia.
      apply Eq in E. destruct E as (-> & -> & ->).
      assert (hourOf tm1 = hourOf tm2 /\ minuteOf tm1 = minuteOf tm2) as [-> ->] by lia.
      reflexivity.
    + intros H. injection H as Ey Em Ed Eh Ei.
      assert (E : n1 = n2) by (apply Eq; auto).
      rewrite E, Eh, Ei. reflexivity.
Qed.

(** X25: a due date is not checked against the calendar: a day past the
    end of its month counts on into the next month, and past December into
    January of the next year, so that 31 April is read as 1 May and 30
    February as 1 or 2 March; the instant is the one of the date it rolls
    over to, whatever the time of day. *)
Theorem impossible_dates_roll_over (y m d : Z) (tm : option TimeOfDay) :
  100 <= y -> 1 <= m <= 12 ->
  googleDueToDate (Some (mkDueDate y m (daysInMonth y m + d))) tm defaultTzOffsetMinutes
  = googleDueToDate (Some (nextMonth y m d)) tm defaultTzOffsetMinutes.
Proof.
  intros Hy Hm. unfold googleDueToDate, DateUTC, nextMonth.
  assert (F : forall z, 100 <= z -> MakeFullYear z = z).
  { intros z Hz. unfold MakeFullYear.
    replace (z <=? 99) with false by (symmetry; apply Z.leb_gt; lia).
    now rewrite andb_false_r. }
  destruct (Z.eqb_spec m 12) as [-> | Hne]; cbn [year month day].
  - rewrite !F by lia.
    replace (MakeDay (y + 1) (1 - 1) d)
      with (MakeDay y (12 - 1) (daysInMonth y 12 + d)); [reflexivity|].
    rewrite (MakeDay_in_year y 12) by lia.
    rewrite (MakeDay_in_year (y + 1) 1) by lia.
    rewrite DayFromYear_succ.
    change (12 - 1) with 11. change (1 - 1) with 0.
    pose proof (monthStart_december y) as D.
    replace (monthStart (InLeapYear (y + 1)) 0) with 0
      by (destruct (InLeapYear (y + 1)); reflexivity).
    lia.
  - rewrite !F by lia.
    replace (MakeDay y (m + 1 - 1) d)
      with (MakeDay y (m - 1) (daysInMonth y m + d)); [reflexivity|].
    rewrite (MakeDay_in_year y m) by lia.
    rewrite (MakeDay_in_year y (m + 1)) by lia.
    replace (m + 1 - 1) with m by lia.
    rewrite (monthStart_step y m) by lia. lia.
Qed.

End DueOrder.

Section DueOrderSamples.
Import JS Clock DueStamps.

Lemma due_instants_follow_the_calendar_witness :
  exists t1 t2,
    googleDueToDate (Some (mkDueDate 2024 2 29)) None defaultTzOffsetMinutes
      = Some (ValidDate t1) /\
    googleDueToDate (Some (mkDueDate 2024 3 1))
                    (Some (mkTimeOfDay (Some 9) None)) defaultTzOffsetMinutes
      = Some (ValidDate t2) /\
    (t1 < t2 <-> earlier (dueStamp (mkDueDate 2024 2 29) None)
                         (dueStamp (mkDueDate 2024 3 1)
                                   (Some (mkTimeOfDay (Some 9) None)))) /\
    (t1 = t2 <-> dueStamp (mkDueDate 2024 2 29) None
                 = dueStamp (mkDueDate 2024 3 1) (Some (mkTimeOfDay (Some 9) None))).
Proof.
  apply (due_instants_follow_the_calendar
           (mkDueDate 2024 2 29) (mkDueDate 2024 3 1)
           None (Some (mkTimeOfDay (Some 9) None)));
    vm_compute; repeat split; discriminate.
Defined.

Lemma impossible_dates_roll_over_witness :
  googleDueToDate (Some (mkDueDate 2023 2 (daysInMonth 2023 2 + 2))) None
                  defaultTzOffsetMinutes
  = googleDueToDate (Some (nextMonth 2023 2 2)) None defaultTzOffsetMinutes.
Proof.
  apply (impossible_dates_roll_over 2023 2 2 None); lia.
Defined.

End DueOrderSamples.

(** ** The stamps of the files *)

Section StampFacts.
Import JS Clock Host Records DayBuilder Stamps.

Variable h : Services.
Variable clock : ClockReadings.

Lemma anchorDate_tick (n : nat) (u c : option JsDate) :
  snd (anchorDate clock n u c) = (n + if timeless u c then 1 else 0)%nat.
Proof.
  unfold anchorDate, timeless. destruct (whenIso u c); simpl; lia.
Qed.

Lemma courseWorkLoop_tick (c : Course) (ws : list RawWorkItem) (st : RunState) :
  (tick st <= tick (courseWorkLoop h clock c ws st)
   <= tick st + List.length (filter (fun w => timeless (w_updateTime w) (w_creationTime w))
                               ws))%nat.
Proof.
  revert st. induction ws as [|w rest IH]; intros st; simpl; [lia|].
  pose proof (anchorDate_tick (tick st) (w_updateTime w) (w_creationTime w)) as T.
  destruct (anchorDate clock (tick st) (w_updateTime w) (w_creationTime w)) as [when n].
  simpl in T.
  destruct (courseWorkItem h c w when) as [[dk it]|].
  - specialize (IH (mkState n (pushItem dk (c_name c) it (dayBuckets st)))).
    simpl in IH. destruct (timeless _ _); simpl; lia.
  - simpl. destruct (timeless _ _); simpl; lia.
Qed.

Lemma announcementLoop_tick (c : Course) (anns : list RawAnnouncement) (st : RunState) :
  (tick st <= tick (announcementLoop h clock c anns st)
   <= tick st + List.length (filter (fun a => timeless (a_updateTime a) (a_creationTime a))
                               anns))%nat.
Proof.
  revert st. induction anns as [|a rest IH]; intros st; simpl; [lia|].
  destruct (normalizeText (a_text a)) as [|u txt].
  - specialize (IH st). destruct (timeless _ _); simpl; lia.
  - pose proof (anchorDate_tick (tick st) (a_updateTime a) (a_creationTime a)) as T.
    destruct (anchorDate clock (tick st) (a_updateTime a) (a_creationTime a)) as [when n].
    simpl in T.
    destruct (announcementItem h c a (u :: txt) when) as [[dk it]|].
    + specialize (IH (mkState n (pushItem dk (c_name c) it (dayBuckets st)))).
      simpl in IH. destruct (timeless _ _); simpl; lia.
    + simpl. destruct (timeless _ _); simpl; lia.
Qed.

Lemma courseStep_tick (st : RunState) (feed : CourseFeed) :
  (tick st <= tick (courseStep h clock st feed) <= tick st + clockAnchored feed)%nat.
Proof.
  unfold courseStep, clockAnchored.
  destruct (courseWork feed) as [|lw]; destruct (announcements feed) as [|la]; simpl.
  - lia.
  - pose proof (announcementLoop_tick (course feed) (orEmptyList la) st). lia.
  - pose proof (courseWorkLoop_tick (course feed) (orEmptyList lw) st). lia.
  - pose proof (courseWorkLoop_tick (course feed) (orEmptyList lw) st).
    pose proof (announcementLoop_tick (course feed) (orEmptyList la)
                  (courseWorkLoop h clock (course feed) (orEmptyList lw) st)). lia.
Qed.

Lemma collect_tick (feeds : list CourseFeed) (st : RunState) :
  (tick st <= tick (collect h clock feeds st)
   <= tick st + list_sum (map clockAnchored feeds))%nat.
Proof.
  revert st. induction feeds as [|f r IH]; intros st; [simpl; lia|].
  change (collect h clock (f :: r) st) with (collect h clock r (courseStep h clock st f)).
  change (list_sum (map clockAnchored (f :: r)))
    with (clockAnchored f + list_sum (map clockAnchored r))%nat.
  pose proof (courseStep_tick st f). specialize (IH (courseStep h clock st f)). lia.
Qed.

Lemma writeDays_stamps (b : Buckets) (dayKeys : list JSString) (n : nat) :
  map (fun f => generatedAt (snd f)) (fst (writeDays h clock b dayKeys n))
  = map clock (seq n (List.length dayKeys)) /\
  snd (writeDays h clock b dayKeys n) = (n + List.length dayKeys)%nat /\
  List.length (fst (writeDays h clock b dayKeys n)) = List.length dayKeys.
Proof.
  revert n. induction dayKeys as [|k r IH]; intros n; simpl.
  - repeat split. lia.
  - specialize (IH (S n)).
    destruct (writeDays h clock b r (S n)) as [files n']. simpl in *.
    destruct IH as (E1 & E2 & E3). rewrite E1, E2, E3. repeat split. lia.
Qed.

Lemma filter_none {A : Type} (p : A -> bool) (l : list A) :
  (forall x, In x l -> p x = false) -> filter p l = [].
Proof.
  induction l as [|x r IH]; intros H; simpl; [reflexivity|].
  rewrite (H x (or_introl eq_refl)). apply IH. intros y Hy. apply H. now right.
Qed.

Lemma sorted_readings (n k : nat) :
  (forall i j, (i <= j)%nat -> clock i <= clock j) ->
  StronglySorted Z.le (map clock (seq n k)).
Proof.
  intros Hm. revert n. induction k as [|k IH]; intros n; simpl; constructor.
  - apply IH.
  - rewrite Forall_forall. intros x Hx. apply in_map_iff in Hx as (j & <- & Hj).
    apply in_seq in Hj. apply Hm. lia.
Qed.

(** X26: every document is stamped with a clock reading of its own, taken
    in the order the documents are written: the day files in ascending
    order of their days, then the index.  The readings follow those that
    anchored records without a time, of which there are no more than such
    records delivered, so that with every record carrying a time the files
    get the first readings of the run; and with a clock that never runs
    backwards no file is stamped later than the file of a later day, and
    none later than the index. *)
Theorem stamps_follow_the_clock (feeds : list CourseFeed) :
  let o := build h clock feeds in
  let first := tick (collect h clock feeds initial) in
  stamps o = map clock (seq first (S (List.length (dayFiles o)))) /\
  (first <= list_sum (map clockAnchored feeds))%nat /\
  ((forall f, In f feeds -> feedStamped f) -> first = 0%nat) /\
  ((forall i j, (i <= j)%nat -> clock i <= clock j) -> StronglySorted Z.le (stamps o)).
Proof.
  cbv zeta.
  assert (E : stamps (build h clock feeds)
              = map clock (seq (tick (collect h clock feeds initial))
                             (S (List.length (dayFiles (build h clock feeds)))))).
  { unfold stamps, build.
    set (st := collect h clock feeds initial).
    set (keys := sortStrings (JSMap.keys (dayBuckets st))).
    destruct (writeDays_stamps (dayBuckets st) keys (tick st)) as (E1 & E2 & E3).
    destruct (writeDays h clock (dayBuckets st) keys (tick st)) as [files n].
    cbn [fst snd dayFiles indexFile manifestGeneratedAt] in *. rewrite E1, E2, E3.
    rewrite seq_S, map_app. reflexivity. }
  pose proof (collect_tick feeds initial) as T. simpl in T.
  split; [exact E | split; [lia | split]].
  - intros Hs.
    assert (Z0 : list_sum (map clockAnchored feeds) = 0%nat).
    { clear E T. induction feeds as [|f r IH]; [reflexivity|]. simpl.
      rewrite IH by (intros f' Hf'; apply Hs; now right).
      destruct (Hs f (or_introl eq_refl)) as [Hw Ha].
      unfold clockAnchored.
      rewrite (proj2 (List.length_zero_iff_nil _)), (proj2 (List.length_zero_iff_nil _)).
      - reflexivity.
      - apply filter_none. intros a Hin. specialize (Ha a Hin).
        unfold timeless. now destruct (whenIso _ _).
      - apply filter_none. intros w Hin. specialize (Hw w Hin).
        unfold timeless. now destruct (whenIso _ _). }
    lia.
  - intros Hm. rewrite E. now apply sorted_readings.
Qed.

End StampFacts.

Section StampSamples.
Import JS Clock Host Records DayBuilder Stamps.

Lemma stamps_follow_the_clock_witness :
  stamps (build Samples.icuHost Samples.stillClock Samples.feedsTwoCourses)
  = map Samples.stillClock
      (seq (tick (collect Samples.icuHost Samples.stillClock
                    Samples.feedsTwoCourses initial))
           (S (List.length (dayFiles (build Samples.icuHost Samples.stillClock
                                        Samples.feedsTwoCourses))))).
Proof.
  exact (proj1 (stamps_follow_the_clock Samples.icuHost Samples.stillClock
                  Samples.feedsTwoCourses)).
Defined.

End StampSamples.
